(** * Legora Trust-Architect: the draft / validate / retry core

    A shallow embedding of the Python services of the repository

      - [app/models/constraints.py]  (the constraint profile and the
        schema of the generated output),
      - [app/services/validator.py]  (the Validation Engine),
      - [app/services/ingestion.py]  (citation extraction, chunking and
        the document store),
      - [app/services/llm_client.py] (the Generation Gateway),
      - [app/services/agent.py]      (the Agent Loop and its streaming
        projection),
      - [app/api/routes.py]          (the profile of a request and the
        endpoint [generate]),
      - [app/core/security.py]       (file names and storage paths),

    followed by the properties of the specification that were checked
    against it, and by further properties of the code.

    Conventions of the embedding.

    - A Python [str] is a [string], the bytes of its UTF-8 encoding;
      [Py.len] counts its characters.  The Unicode-aware primitives of
      Python ([str.strip], [str.lower], [str.split], the classes [\s],
      [\w] and [.] of [re]) are given on the ASCII range, so that the
      model is exact on ASCII text ([Py.isascii]), where a byte is a
      character.  A statement that would not hold of the code on other
      text carries the hypothesis that the text it reads is ASCII.
    - Python integers are [Z] where they may be negative (the retry
      budget, the attempt counter) and [nat] where they are lengths.
    - Exceptions are values of [Exn]; a call that may raise returns a
      [Res].  Calls that reach outside the process (the clock, the
      document store, the text-generation provider, the [re], [json] and
      pydantic libraries applied to data of the caller) are fields of an
      environment [Env] and act on an abstract world state.
    - Logging calls have no effect on any value and are left out. *)

From Stdlib Require Import ZArith Floats.PrimFloat.
From Stdlib Require Import Ascii.
From Stdlib Require String DecimalString DecimalNat DecimalFacts.
From stdpp Require Import gmap strings list sorting.

Set Default Proof Using "Type".

(* ===================================================================== *)
(** * Python string primitives                                            *)
(* ===================================================================== *)

Module Py.

Definition code (a : ascii) : N := Ascii.N_of_ascii a.

Definition newline : ascii := Ascii.ascii_of_N 10.

(** [str.isspace] on one character of the ASCII range: TAB, LF, VT, FF,
    CR, the four separators FS, GS, RS, US, and the space. *)
Definition isspace (a : ascii) : bool :=
  let n := code a in
  ((9 <=? n) && (n <=? 13) || (28 <=? n) && (n <=? 32))%N.

(** The class [\w] of [re]: letters, digits and the underscore. *)
Definition isword (a : ascii) : bool :=
  let n := code a in
  ((48 <=? n) && (n <=? 57) || (65 <=? n) && (n <=? 90)
   || (97 <=? n) && (n <=? 122) || (n =? 95))%N.

Definition lower_char (a : ascii) : ascii :=
  let n := code a in
  if ((65 <=? n) && (n <=? 90))%N then Ascii.ascii_of_N (n + 32) else a.

Definition upper_char (a : ascii) : ascii :=
  let n := code a in
  if ((97 <=? n) && (n <=? 122))%N then Ascii.ascii_of_N (n - 32) else a.

Fixpoint map_chars (f : ascii → ascii) (s : string) : string :=
  match s with
  | EmptyString => EmptyString
  | String a s' => String (f a) (map_chars f s')
  end.

(** [s.lower()] and [s.upper()] *)
Definition lower : string → string := map_chars lower_char.
Definition upper : string → string := map_chars upper_char.

(** [s.lstrip()], [s.rstrip()], [s.strip()] *)
Fixpoint lstrip (s : string) : string :=
  match s with
  | EmptyString => EmptyString
  | String a s' => if isspace a then lstrip s' else s
  end.

Fixpoint rstrip (s : string) : string :=
  match s with
  | EmptyString => EmptyString
  | String a s' =>
      match rstrip s' with
      | EmptyString => if isspace a then EmptyString else String a EmptyString
      | r => String a r
      end
  end.

Definition strip (s : string) : string := lstrip (rstrip s).

(** [s.split(sep)] for a one-character separator: never the empty list. *)
Fixpoint split_char (sep : ascii) (s : string) : list string :=
  match s with
  | EmptyString => [EmptyString]
  | String a s' =>
      if Ascii.eqb a sep then EmptyString :: split_char sep s'
      else match split_char sep s' with
           | w :: ws => String a w :: ws
           | [] => [String a EmptyString]
           end
  end.

Definition starts_with_space (s : string) : bool :=
  match s with
  | EmptyString => true
  | String b _ => isspace b
  end.

(** [s.split()]: the maximal runs of characters that are not whitespace. *)
Fixpoint split (s : string) : list string :=
  match s with
  | EmptyString => []
  | String a s' =>
      if isspace a then split s'
      else if starts_with_space s' then String a EmptyString :: split s'
      else match split s' with
           | w :: ws => String a w :: ws
           | [] => [String a EmptyString]
           end
  end.

(** [sep.join(parts)] *)
Fixpoint join (sep : string) (parts : list string) : string :=
  match parts with
  | [] => EmptyString
  | [x] => x
  | x :: rest => x +:+ sep +:+ join sep rest
  end.

(** [s.startswith(prefix)] *)
Definition startswith (s prefix : string) : bool := String.prefix prefix s.

(** [needle in hay] *)
Fixpoint contains (needle hay : string) : bool :=
  String.prefix needle hay
  || match hay with
     | EmptyString => false
     | String _ hay' => contains needle hay'
     end.

Fixpoint drop_chars (n : nat) (s : string) : string :=
  match n, s with
  | S n', String _ s' => drop_chars n' s'
  | _, _ => s
  end.

Fixpoint take_chars (n : nat) (s : string) : string :=
  match n, s with
  | S n', String a s' => String a (take_chars n' s')
  | _, _ => EmptyString
  end.

(** [s[lo:hi]] for [0 <= lo] and [0 <= hi] *)
Definition slice (s : string) (lo hi : nat) : string :=
  take_chars (hi - lo) (drop_chars lo s).

(** [str(n)] for an integer *)
Definition str_nat (n : nat) : string :=
  DecimalString.NilZero.string_of_uint (Nat.to_uint n).

Definition str_Z (z : Z) : string :=
  DecimalString.NilZero.string_of_int (Z.to_int z).

(** Truthiness of a [str]: [bool(s)] *)
Definition truthy (s : string) : bool :=
  match s with
  | EmptyString => false
  | _ => true
  end.

(** [s.isascii()]: every character is below 128.  On such a text a byte
    is a character, and the primitives above are those of Python. *)
Fixpoint isascii (s : string) : bool :=
  match s with
  | EmptyString => true
  | String a s' => (code a <? 128)%N && isascii s'
  end.

(** [len(s)]: the number of characters, which in UTF-8 is the number of
    bytes that do not continue a character (those outside 128..191). *)
Definition continues (a : ascii) : bool :=
  let n := code a in ((128 <=? n) && (n <=? 191))%N.

Fixpoint len (s : string) : nat :=
  match s with
  | EmptyString => 0
  | String a s' => (if continues a then 0 else 1) + len s'
  end.

End Py.

(* ===================================================================== *)
(** * The fragment of [re] the services use                               *)
(* ===================================================================== *)

(** A backtracking matcher in continuation-passing style, with the
    priorities of [re]: a match is looked for at the leftmost position,
    repetitions are greedy and give characters back one at a time.  The
    constructors are those the patterns of the source are written with. *)
Module Re.

Inductive regex : Type :=
| Eps
| Chr (p : ascii → bool)                     (* a literal, a class or [.] *)
| Cat (r1 r2 : regex)
| Rep (p : ascii → bool) (lo : nat) (hi : option nat)   (* [x*], [x+], [x?], [x{lo,hi}] *)
| Group (i : nat) (r : regex)                (* the [i]-th capturing group *)
| Bol                                        (* [^] under MULTILINE *)
| Eol                                        (* [$] under MULTILINE *)
| WordB.                                     (* [\b] *)

(** A position in the subject: its index, the character before it, the
    text from it on, and the groups captured so far. *)
Record cursor : Type := Cursor {
  pos : nat;
  prev : option ascii;
  rest : string;
  caps : list (nat * (nat * nat));
}.

Definition next_char (s : string) : option ascii :=
  match s with
  | EmptyString => None
  | String a _ => Some a
  end.

Definition word_side (a : option ascii) : bool :=
  match a with
  | None => false
  | Some a => Py.isword a
  end.

Definition hi_allows (hi : option nat) : bool :=
  match hi with
  | Some O => false
  | _ => true
  end.

Fixpoint rep (p : ascii → bool) (lo : nat) (hi : option nat)
    (i : nat) (before : option ascii) (s : string)
    (cs : list (nat * (nat * nat)))
    (k : cursor → option cursor) {struct s} : option cursor :=
  let stop :=
    match lo with
    | O => k (Cursor i before s cs)
    | S _ => None
    end in
  match s with
  | EmptyString => stop
  | String a s' =>
      if p a && hi_allows hi then
        match rep p (Nat.pred lo) (Nat.pred <$> hi) (S i) (Some a) s' cs k with
        | Some c => Some c
        | None => stop
        end
      else stop
  end.

Fixpoint run (r : regex) (c : cursor) (k : cursor → option cursor)
    : option cursor :=
  match r with
  | Eps => k c
  | Chr p =>
      match rest c with
      | EmptyString => None
      | String a s' =>
          if p a then k (Cursor (S (pos c)) (Some a) s' (caps c)) else None
      end
  | Cat r1 r2 => run r1 c (λ c1, run r2 c1 k)
  | Rep p lo hi => rep p lo hi (pos c) (prev c) (rest c) (caps c) k
  | Group i r' =>
      run r' c (λ c', k (Cursor (pos c') (prev c') (rest c')
                                ((i, (pos c, pos c')) :: caps c')))
  | Bol =>
      match prev c with
      | None => k c
      | Some a => if Ascii.eqb a Py.newline then k c else None
      end
  | Eol =>
      match rest c with
      | EmptyString => k c
      | String a _ => if Ascii.eqb a Py.newline then k c else None
      end
  | WordB =>
      if xorb (word_side (prev c)) (word_side (next_char (rest c)))
      then k c else None
  end.

(** A literal string *)
Fixpoint Lit (s : string) : regex :=
  match s with
  | EmptyString => Eps
  | String a EmptyString => Chr (Ascii.eqb a)
  | String a s' => Cat (Chr (Ascii.eqb a)) (Lit s')
  end.

(** A match object: [m.start()], [m.end()] and the spans of its groups. *)
Record Match : Type := mkMatch {
  m_start : nat;
  m_end : nat;
  m_spans : list (nat * (nat * nat));
}.

Definition match_at (i : nat) (c : cursor) : Match :=
  mkMatch i (pos c) (caps c).

Fixpoint span_of (i : nat) (spans : list (nat * (nat * nat)))
    : option (nat * nat) :=
  match spans with
  | [] => None
  | (j, sp) :: spans' => if Nat.eqb i j then Some sp else span_of i spans'
  end.

(** [m.group(i)] over the subject [subject]; the groups of the patterns
    below take part in every match, a group that did not is read as the
    empty string. *)
Definition group (subject : string) (m : Match) (i : nat) : string :=
  match span_of i (m_spans m) with
  | Some (lo, hi) => Py.slice subject lo hi
  | None => EmptyString
  end.

(** [pattern.search(subject)] *)
Fixpoint search_from (r : regex) (i : nat) (before : option ascii)
    (s : string) : option Match :=
  match run r (Cursor i before s []) Some with
  | Some c => Some (match_at i c)
  | None =>
      match s with
      | EmptyString => None
      | String a s' => search_from r (S i) (Some a) s'
      end
  end.

Definition search (r : regex) (subject : string) : option Match :=
  search_from r 0 None subject.

(** The matches found at position [i]: the leftmost-priority match and,
    when that match is empty, the next match at the same position that
    is not (an empty match is followed by a search that has to advance).
    The second component is the number of characters consumed. *)
Definition matches_here (r : regex) (i : nat) (before : option ascii)
    (s : string) : list Match * nat :=
  let c0 := Cursor i before s [] in
  match run r c0 Some with
  | None => ([], 0)
  | Some c =>
      if Nat.eqb (pos c) i then
        match run r c0 (λ c', if Nat.eqb (pos c') i then None else Some c') with
        | Some c' => ([match_at i c; match_at i c'], pos c' - i)
        | None => ([match_at i c], 0)
        end
      else ([match_at i c], pos c - i)
  end.

(** [list(pattern.finditer(subject))]: the successive non-overlapping
    matches, left to right.  [skip] counts the characters of the last
    match still to be passed over. *)
Fixpoint finditer_from (r : regex) (i : nat) (before : option ascii)
    (s : string) (skip : nat) : list Match :=
  match skip with
  | S skip' =>
      match s with
      | EmptyString => []
      | String a s' => finditer_from r (S i) (Some a) s' skip'
      end
  | O =>
      let '(found, used) := matches_here r i before s in
      found ++
      match s with
      | EmptyString => []
      | String a s' => finditer_from r (S i) (Some a) s' (Nat.pred used)
      end
  end.

Definition finditer (r : regex) (subject : string) : list Match :=
  finditer_from r 0 None subject 0.

(** [pattern.sub(repl, subject)] for a replacement without group
    references. *)
Fixpoint sub_from (subject repl : string) (ms : list Match) (from : nat)
    : string :=
  match ms with
  | [] => Py.drop_chars from subject
  | m :: ms' =>
      Py.slice subject from (m_start m) +:+ repl
      +:+ sub_from subject repl ms' (m_end m)
  end.

Definition sub (r : regex) (repl subject : string) : string :=
  sub_from subject repl (finditer r subject) 0.

End Re.

(* ===================================================================== *)
(** * Exceptions                                                          *)
(* ===================================================================== *)

(** The exceptions the services tell apart: [ValueError] (with its
    subclasses), which the agent loop catches around the gateway call, and
    every other subclass of [Exception]. *)
Inductive Exn : Type :=
| ValueError (msg : string)
| OtherError (msg : string).

(** [str(e)] *)
Definition str_exn (e : Exn) : string :=
  match e with
  | ValueError msg => msg
  | OtherError msg => msg
  end.

Inductive Res (A : Type) : Type :=
| Ok (a : A)
| Raise (e : Exn).
Arguments Ok {A} a.
Arguments Raise {A} e.

#[global] Instance Res_ret : MRet Res := λ A a, Ok a.
#[global] Instance Res_bind : MBind Res := λ A B f r,
  match r with
  | Ok a => f a
  | Raise e => Raise e
  end.

(* ===================================================================== *)
(** * [app/models/constraints.py]                                         *)
(* ===================================================================== *)

(** Field names are those of the source.  Where two classes declare a
    field of the same name, one of them carries a prefix: [fc_] for
    [ForbiddenClause], [ao_] for [AgentOutput], [cit_] for [Citation],
    [chunk_] for [DocumentChunk], [ev_] for [AgentEvent]. *)

Inductive Jurisdiction : Type :=
| SWEDEN | EU | UK | US_CALIFORNIA | US_DELAWARE | US_NEW_YORK.

Inductive ContractType : Type :=
| NDA | MSA | DPA | PRIVACY_POLICY | SLA.

Inductive RiskLevel : Type :=
| LOW | MEDIUM | HIGH | CRITICAL.

#[global] Instance Jurisdiction_eq_dec : EqDecision Jurisdiction.
Proof. solve_decision. Defined.
#[global] Instance ContractType_eq_dec : EqDecision ContractType.
Proof. solve_decision. Defined.
#[global] Instance RiskLevel_eq_dec : EqDecision RiskLevel.
Proof. solve_decision. Defined.

(** The [.value] of each enumeration member *)
Definition Jurisdiction_value (j : Jurisdiction) : string :=
  match j with
  | SWEDEN => "Sweden"
  | EU => "European Union"
  | UK => "United Kingdom"
  | US_CALIFORNIA => "California, USA"
  | US_DELAWARE => "Delaware, USA"
  | US_NEW_YORK => "New York, USA"
  end.

Definition ContractType_value (t : ContractType) : string :=
  match t with
  | NDA => "Non-Disclosure Agreement"
  | MSA => "Master Services Agreement"
  | DPA => "Data Processing Agreement"
  | PRIVACY_POLICY => "Privacy Policy"
  | SLA => "Service Level Agreement"
  end.

Definition RiskLevel_value (r : RiskLevel) : string :=
  match r with
  | LOW => "low"
  | MEDIUM => "medium"
  | HIGH => "high"
  | CRITICAL => "critical"
  end.

Record LiabilityConstraints : Type := {
  max_liability_amount : option float;
  liability_cap_multiple_of_fees : option float;
  allows_consequential_damages : bool;
  allows_unlimited_liability : bool;
}.

(** The model validator of [LiabilityConstraints]: a profile that names no
    cap mechanism is refused at construction. *)
Definition validate_liability_cap (self : LiabilityConstraints)
    : Res LiabilityConstraints :=
  match max_liability_amount self, liability_cap_multiple_of_fees self with
  | None, None =>
      if negb (allows_unlimited_liability self) then
        Raise (ValueError
          ("A liability cap must be defined: either max_liability_amount, "
           +:+ "liability_cap_multiple_of_fees, or allows_unlimited_liability=True"))
      else Ok self
  | _, _ => Ok self
  end.

Record DataProtectionConstraints : Type := {
  required_jurisdiction : Jurisdiction;
  requires_gdpr_compliance : bool;
  max_data_retention_days : option Z;
  requires_breach_notification : bool;
  max_breach_notification_hours : Z;
  allows_cross_border_transfer : bool;
  requires_sub_processor_approval : bool;
}.

Record TerminationConstraints : Type := {
  min_notice_period_days : Z;
  allows_termination_for_convenience : bool;
  requires_data_return_on_termination : bool;
}.

Record ForbiddenClause : Type := {
  pattern : string;
  reason : string;
  fc_severity : RiskLevel;
}.

Record ContractConstraints : Type := {
  contract_type : ContractType;
  governing_jurisdiction : Jurisdiction;
  liability : LiabilityConstraints;
  data_protection : DataProtectionConstraints;
  termination : TerminationConstraints;
  forbidden_clauses : list ForbiddenClause;
  required_source_ids : list string;
  max_clause_length : Z;
}.

Record GeneratedCitation : Type := {
  source_id : string;
  relevance : string;
}.

Record GeneratedClause : Type := {
  title : string;
  text : string;
  citations : list GeneratedCitation;
  risk_level : RiskLevel;
  reasoning : string;
}.

(** The field validator of [GeneratedClause.text] *)
Definition text_not_empty (v : string) : Res string :=
  if negb (Py.truthy (Py.strip v))
  then Raise (ValueError "Clause text cannot be empty.")
  else Ok (Py.strip v).

Record AgentOutput : Type := {
  clauses : list GeneratedClause;
  summary : string;
  ao_governing_jurisdiction : Jurisdiction;
  confidence_score : float;
}.

Record ValidationViolation : Type := {
  field : string;
  message : string;
  severity : RiskLevel;
  suggestion : string;
}.

Record ValidationResult : Type := {
  is_valid : bool;
  violations : list ValidationViolation;
  attempt_number : Z;
}.

(** [ValidationResult(is_valid=..., violations=...)]: the attempt number
    takes its default. *)
Definition new_ValidationResult (is_valid : bool)
    (violations : list ValidationViolation) : ValidationResult :=
  {| is_valid := is_valid; violations := violations; attempt_number := 1 |}.

(* ===================================================================== *)
(** * The environment of a run                                            *)
(* ===================================================================== *)

(** The document chunks of [app/services/ingestion.py] (their [metadata]
    dictionary is never read or written by the services and is left
    out). *)
Record DocumentChunk : Type := {
  chunk_id : string;
  chunk_text : string;
  document_name : string;
  source_ids : list string;
}.

(** What [json.loads] comes to: the data it read, the
    [json.JSONDecodeError] it raises on text that is not JSON (with its
    [str(e)]), or any other exception: a [RecursionError] on deeply nested
    text, the [ValueError] of an integer of too many digits. *)
Inductive Loaded (A : Type) : Type :=
| Data (a : A)
| JSONDecodeError (msg : string)
| Failed (e : Exn).
Arguments Data {A} a.
Arguments JSONDecodeError {A} msg.
Arguments Failed {A} e.

(** What a run reaches outside its own code.  [World] is the state of
    everything outside: the clock, the text-generation provider, the file
    system and the module-level cache of the document store. *)
Record Env : Type := {
  World : Type;
  (** [time.time()] *)
  time_time : World → float * World;
  (** [get_settings().MAX_VALIDATION_RETRIES] *)
  MAX_VALIDATION_RETRIES : Z;
  (** [ingestion.get_all_chunks()], which loads the documents on first use
      and raises when the directory is missing or holds no document *)
  get_all_chunks : World → Res (list DocumentChunk) * World;
  (** [llm_client.generate_completion(system_prompt, user_prompt)]: the raw
      text of the provider's answer *)
  generate_completion : string → string → World → Res string * World;
  (** [json.loads], and [AgentOutput.model_validate], which raises on data
      that does not fit the schema *)
  Json : Type;
  json_loads : string → Loaded Json;
  model_validate : Json → Res AgentOutput;
  (** [bool(re.search(pattern, text))] for a pattern of the profile, which
      raises [re.error] when the pattern does not compile *)
  re_search : string → string → Res bool;
  (** [constraints.model_dump_json(indent=2)] *)
  model_dump_json : ContractConstraints → string;
  (** [f"{x:.0%}"] *)
  format_percent : float → string;
}.

(* ===================================================================== *)
(** * [app/services/validator.py]                                         *)
(* ===================================================================== *)

(** The patterns [r"unlimited\s+liability"] and
    [r"consequential\s+damages?\b"] *)
Definition UNLIMITED_LIABILITY_PATTERN : Re.regex :=
  Re.Cat (Re.Lit "unlimited")
    (Re.Cat (Re.Rep Py.isspace 1 None) (Re.Lit "liability")).

Definition CONSEQUENTIAL_DAMAGES_PATTERN : Re.regex :=
  Re.Cat (Re.Lit "consequential")
    (Re.Cat (Re.Rep Py.isspace 1 None)
       (Re.Cat (Re.Lit "damage")
          (Re.Cat (Re.Rep (Ascii.eqb "s") 0 (Some 1)) Re.WordB))).

(** [re.search(pattern, text)] read as a truth value *)
Definition found (m : option Re.Match) : bool :=
  match m with
  | Some _ => true
  | None => false
  end.

Definition _get_full_text (output : AgentOutput) : string :=
  Py.join " " (text <$> clauses output).

Definition _check_jurisdiction (output : AgentOutput)
    (constraints : ContractConstraints) : list ValidationViolation :=
  if bool_decide (ao_governing_jurisdiction output
                  ≠ governing_jurisdiction constraints)
  then [ {| field := "governing_jurisdiction";
            message :=
              "Expected jurisdiction '"
              +:+ Jurisdiction_value (governing_jurisdiction constraints)
              +:+ "' but got '"
              +:+ Jurisdiction_value (ao_governing_jurisdiction output)
              +:+ "'.";
            severity := HIGH;
            suggestion :=
              "Change the governing jurisdiction to '"
              +:+ Jurisdiction_value (governing_jurisdiction constraints)
              +:+ "'." |} ]
  else [].

Definition forbidden_violation (forbidden : ForbiddenClause)
    : ValidationViolation :=
  {| field := "forbidden_clause";
     message :=
       "Forbidden pattern detected: '" +:+ pattern forbidden
       +:+ "'. Reason: " +:+ reason forbidden;
     severity := fc_severity forbidden;
     suggestion :=
       "Remove or rephrase any language matching: " +:+ pattern forbidden |}.

Definition missing_citation_violation (required_id : string)
    : ValidationViolation :=
  {| field := "required_citations";
     message :=
       "Required citation '" +:+ required_id
       +:+ "' is missing from the output.";
     severity := MEDIUM;
     suggestion :=
       "Include a citation to [SourceID: " +:+ required_id
       +:+ "] in your response." |}.

(** The set built by the two nested loops of [_check_required_citations] *)
Definition cited_ids (output : AgentOutput) : gset string :=
  foldl (λ acc clause,
           foldl (λ acc citation, acc ∪ {[ source_id citation ]})
                 acc (citations clause))
        ∅ (clauses output).

Definition unlimited_liability_violation : ValidationViolation :=
  {| field := "liability.unlimited";
     message :=
       "Output contains 'unlimited liability' but this is not permitted.";
     severity := CRITICAL;
     suggestion :=
       "Replace unlimited liability with a capped liability clause." |}.

Definition consequential_damages_violation : ValidationViolation :=
  {| field := "liability.consequential_damages";
     message :=
       "Output mentions 'consequential damages' but these are excluded by the constraint profile.";
     severity := HIGH;
     suggestion :=
       "Add exclusion language for consequential and indirect damages." |}.

Definition _check_liability (output : AgentOutput)
    (constraints : ContractConstraints) : list ValidationViolation :=
  let violations := [] in
  let full_text := Py.lower (_get_full_text output) in
  let liability := liability constraints in
  let violations :=
    if negb (allows_unlimited_liability liability)
       && found (Re.search UNLIMITED_LIABILITY_PATTERN full_text)
    then violations ++ [unlimited_liability_violation]
    else violations in
  let violations :=
    if negb (allows_consequential_damages liability)
       && found (Re.search CONSEQUENTIAL_DAMAGES_PATTERN full_text)
    then violations ++ [consequential_damages_violation]
    else violations in
  violations.

Definition gdpr_violation : ValidationViolation :=
  {| field := "data_protection.gdpr";
     message :=
       "GDPR compliance is required but no GDPR reference found in output.";
     severity := HIGH;
     suggestion := "Include explicit reference to GDPR compliance." |}.

Definition breach_notification_violation (dp : DataProtectionConstraints)
    : ValidationViolation :=
  {| field := "data_protection.breach_notification";
     message := "Breach notification clause is required but not found.";
     severity := HIGH;
     suggestion :=
       "Include a breach notification clause with a "
       +:+ Py.str_Z (max_breach_notification_hours dp)
       +:+ "-hour notification window." |}.

Definition _check_data_protection (output : AgentOutput)
    (constraints : ContractConstraints) : list ValidationViolation :=
  let violations := [] in
  let full_text := Py.lower (_get_full_text output) in
  let dp := data_protection constraints in
  let violations :=
    if requires_gdpr_compliance dp
       && (negb (Py.contains "gdpr" full_text)
           && negb (Py.contains "general data protection" full_text))
    then violations ++ [gdpr_violation]
    else violations in
  let violations :=
    if requires_breach_notification dp
       && (negb (Py.contains "breach" full_text)
           && negb (Py.contains "notification" full_text))
    then violations ++ [breach_notification_violation dp]
    else violations in
  violations.

Definition clause_length_violation (clause : GeneratedClause)
    (word_count : nat) (constraints : ContractConstraints)
    : ValidationViolation :=
  {| field := "clause_length." +:+ title clause;
     message :=
       "Clause '" +:+ title clause +:+ "' has " +:+ Py.str_nat word_count
       +:+ " words, exceeding the limit of "
       +:+ Py.str_Z (max_clause_length constraints) +:+ ".";
     severity := LOW;
     suggestion :=
       "Shorten this clause to under "
       +:+ Py.str_Z (max_clause_length constraints) +:+ " words." |}.

Fixpoint clause_length_loop (constraints : ContractConstraints)
    (todo : list GeneratedClause) (violations : list ValidationViolation)
    : list ValidationViolation :=
  match todo with
  | [] => violations
  | clause :: todo' =>
      let word_count := length (Py.split (text clause)) in
      clause_length_loop constraints todo'
        (if (Z.of_nat word_count >? max_clause_length constraints)%Z
         then violations ++ [clause_length_violation clause word_count constraints]
         else violations)
  end.

Definition _check_clause_length (output : AgentOutput)
    (constraints : ContractConstraints) : list ValidationViolation :=
  clause_length_loop constraints (clauses output) [].

Fixpoint required_citations_loop (cited : gset string)
    (todo : list string) (violations : list ValidationViolation)
    : list ValidationViolation :=
  match todo with
  | [] => violations
  | required_id :: todo' =>
      required_citations_loop cited todo'
        (if bool_decide (required_id ∉ cited)
         then violations ++ [missing_citation_violation required_id]
         else violations)
  end.

Definition _check_required_citations (output : AgentOutput)
    (constraints : ContractConstraints) : list ValidationViolation :=
  match required_source_ids constraints with
  | [] => []
  | required => required_citations_loop (cited_ids output) required []
  end.

Section Validator.
Context (E : Env).

Fixpoint forbidden_loop (full_text : string) (todo : list ForbiddenClause)
    (violations : list ValidationViolation)
    : Res (list ValidationViolation) :=
  match todo with
  | [] => Ok violations
  | forbidden :: todo' =>
      hit ← re_search E (pattern forbidden) full_text;
      forbidden_loop full_text todo'
        (if hit : bool then violations ++ [forbidden_violation forbidden]
         else violations)
  end.

Definition _check_forbidden_clauses (output : AgentOutput)
    (constraints : ContractConstraints) : Res (list ValidationViolation) :=
  forbidden_loop (_get_full_text output) (forbidden_clauses constraints) [].

(** [validate_output]: the six checks extend one list, in this order. *)
Definition validate_output (output : AgentOutput)
    (constraints : ContractConstraints) : Res ValidationResult :=
  let violations := [] in
  let violations := violations ++ _check_jurisdiction output constraints in
  forbidden ← _check_forbidden_clauses output constraints;
  let violations := violations ++ forbidden in
  let violations := violations ++ _check_required_citations output constraints in
  let violations := violations ++ _check_liability output constraints in
  let violations := violations ++ _check_data_protection output constraints in
  let violations := violations ++ _check_clause_length output constraints in
  let is_valid := Nat.eqb (length violations) 0 in
  mret (new_ValidationResult is_valid violations).

End Validator.

(* ===================================================================== *)
(** * [app/services/ingestion.py]: citation extraction                    *)
(* ===================================================================== *)

Record Citation : Type := {
  cit_source_id : string;
  cit_text : string;
  cit_document_name : string;
  section_heading : string;
}.

(** [SOURCE_ID_PATTERN = re.compile(r"\[SourceID:\s*([^\]]+)\]")] *)
Definition SOURCE_ID_PATTERN : Re.regex :=
  Re.Cat (Re.Lit "[SourceID:")
    (Re.Cat (Re.Rep Py.isspace 0 None)
       (Re.Cat (Re.Group 1 (Re.Rep (λ a, negb (Ascii.eqb a "]")) 1 None))
          (Re.Chr (Ascii.eqb "]")))).

(** [HEADING_PATTERN = re.compile(r"^(#{1,6})\s+(.+)$", re.MULTILINE)] *)
Definition HEADING_PATTERN : Re.regex :=
  Re.Cat Re.Bol
    (Re.Cat (Re.Group 1 (Re.Rep (Ascii.eqb "#") 1 (Some 6)))
       (Re.Cat (Re.Rep Py.isspace 1 None)
          (Re.Cat (Re.Group 2 (Re.Rep (λ a, negb (Ascii.eqb a Py.newline)) 1 None))
             Re.Eol))).

(** The loop of [_get_current_heading] over the heading matches, with its
    [break] at the first heading that does not start before [position]. *)
Fixpoint heading_loop (content : string) (position : nat)
    (headings : list Re.Match) (current : string) : string :=
  match headings with
  | [] => current
  | h :: headings' =>
      if Nat.ltb (Re.m_start h) position
      then heading_loop content position headings'
             (Py.strip (Re.group content h 2))
      else current
  end.

Definition _get_current_heading (content : string) (position : nat) : string :=
  let headings := Re.finditer HEADING_PATTERN content in
  heading_loop content position headings "Introduction".

(** The inner loop of [_parse_citations]: the lines kept before the first
    heading or horizontal rule. *)
Fixpoint clean_lines_loop (lines clean_lines : list string) : list string :=
  match lines with
  | [] => clean_lines
  | line :: lines' =>
      let stripped := Py.strip line in
      if Py.startswith stripped "#" || String.eqb stripped "---"
      then clean_lines
      else clean_lines_loop lines' (clean_lines ++ [line])
  end.

(** The body of the loop of [_parse_citations] for the match [m], followed
    in [matches] by [later]. *)
Definition parse_one (content document_name : string) (m : Re.Match)
    (later : list Re.Match) (citations : gmap string Citation)
    : gmap string Citation :=
  let source_id := Py.strip (Re.group content m 1) in
  let start := Re.m_end m in
  let end_ :=
    match later with
    | next :: _ => Re.m_start next
    | [] => String.length content
    end in
  let raw_text := Py.strip (Py.slice content start end_) in
  let clean_lines := clean_lines_loop (Py.split_char Py.newline raw_text) [] in
  let text := Py.strip (Py.join (String Py.newline EmptyString) clean_lines) in
  let text := Py.strip (Re.sub SOURCE_ID_PATTERN "" text) in
  if Py.truthy text then
    let section := _get_current_heading content (Re.m_start m) in
    <[ source_id := {| cit_source_id := source_id;
                       cit_text := text;
                       cit_document_name := document_name;
                       section_heading := section |} ]> citations
  else citations.

Fixpoint parse_loop (content document_name : string)
    (matches : list Re.Match) (citations : gmap string Citation)
    : gmap string Citation :=
  match matches with
  | [] => citations
  | m :: later =>
      parse_loop content document_name later
        (parse_one content document_name m later citations)
  end.

Definition _parse_citations (content document_name : string)
    : gmap string Citation :=
  let matches := Re.finditer SOURCE_ID_PATTERN content in
  parse_loop content document_name matches ∅.

(* ===================================================================== *)
(** * [app/services/agent.py]: data                                       *)
(* ===================================================================== *)

Inductive AgentState : Type :=
| INITIALIZING | RETRIEVING | DRAFTING | VALIDATING | VIOLATION_FOUND
| CORRECTING | FINALIZING | COMPLETE | ERROR.

#[global] Instance AgentState_eq_dec : EqDecision AgentState.
Proof. solve_decision. Defined.

(** The Python values that travel in the [data] dictionary of an event.  A
    member of a [str]-based enumeration is written as its value. *)
#[local] Set Warnings "-register-all".
Inductive PyVal : Type :=
| PyNone
| PyBool (b : bool)
| PyInt (z : Z)
| PyFloat (x : float)
| PyStr (s : string)
| PyList (items : list PyVal)
| PyDict (items : list (string * PyVal)).

Record AgentEvent : Type := {
  state : AgentState;
  ev_message : string;
  data : option (list (string * PyVal));
  timestamp : float;
}.

Record AgentResult : Type := {
  output : option AgentOutput;
  validation : ValidationResult;
  events : list AgentEvent;
  total_attempts : Z;
  success : bool;
  error_message : option string;
}.

(** [model_dump()] of the pydantic models an event carries *)
Definition GeneratedCitation_model_dump (c : GeneratedCitation) : PyVal :=
  PyDict [("source_id", PyStr (source_id c)); ("relevance", PyStr (relevance c))].

Definition GeneratedClause_model_dump (c : GeneratedClause) : PyVal :=
  PyDict [("title", PyStr (title c));
          ("text", PyStr (text c));
          ("citations", PyList (GeneratedCitation_model_dump <$> citations c));
          ("risk_level", PyStr (RiskLevel_value (risk_level c)));
          ("reasoning", PyStr (reasoning c))].

Definition AgentOutput_model_dump (o : AgentOutput) : PyVal :=
  PyDict [("clauses", PyList (GeneratedClause_model_dump <$> clauses o));
          ("summary", PyStr (summary o));
          ("governing_jurisdiction",
           PyStr (Jurisdiction_value (ao_governing_jurisdiction o)));
          ("confidence_score", PyFloat (confidence_score o))].

Definition ValidationViolation_model_dump (v : ValidationViolation) : PyVal :=
  PyDict [("field", PyStr (field v));
          ("message", PyStr (message v));
          ("severity", PyStr (RiskLevel_value (severity v)));
          ("suggestion", PyStr (suggestion v))].

Definition ValidationResult_model_dump (r : ValidationResult) : PyVal :=
  PyDict [("is_valid", PyBool (is_valid r));
          ("violations", PyList (ValidationViolation_model_dump <$> violations r));
          ("attempt_number", PyInt (attempt_number r))].

(* ===================================================================== *)
(** * [app/services/agent.py]: prompt engineering                         *)
(* ===================================================================== *)

Definition nl : string := String Py.newline EmptyString.
Definition dq : string := String (Ascii.ascii_of_N 34) EmptyString.

(** The lines of a triple-quoted literal, each followed by its newline *)
Definition text_block (lines : list string) : string :=
  foldr (λ line acc, line +:+ nl +:+ acc) EmptyString lines.

(** [SYSTEM_PROMPT_TEMPLATE.format(jurisdiction=..., max_clause_length=...,
    constraints_json=..., source_context=...)] *)
Definition SYSTEM_PROMPT_TEMPLATE
    (jurisdiction max_clause_length constraints_json source_context : string)
    : string :=
  text_block [
    "You are a Legal AI Assistant for Legora Trust-Architect.";
    "Your task is to generate legally precise contract clauses based on the provided context and constraints.";
    "";
    "CRITICAL RULES:";
    "1. You MUST output valid JSON conforming to the schema below.";
    "2. You MUST cite sources using the provided SourceIDs.";
    "3. You MUST respect the governing jurisdiction: " +:+ jurisdiction +:+ ".";
    "4. You MUST NOT include any forbidden clause patterns.";
    "5. Each clause must be under " +:+ max_clause_length +:+ " words.";
    "6. Set confidence_score based on how well your output matches the constraints.";
    "";
    "OUTPUT JSON SCHEMA:";
    "{";
    "    " +:+ dq +:+ "clauses" +:+ dq +:+ ": [";
    "        {";
    "            " +:+ dq +:+ "title" +:+ dq +:+ ": " +:+ dq
      +:+ "string - clause heading" +:+ dq +:+ ",";
    "            " +:+ dq +:+ "text" +:+ dq +:+ ": " +:+ dq
      +:+ "string - the clause text" +:+ dq +:+ ",";
    "            " +:+ dq +:+ "citations" +:+ dq +:+ ": [{" +:+ dq
      +:+ "source_id" +:+ dq +:+ ": " +:+ dq +:+ "string" +:+ dq +:+ ", "
      +:+ dq +:+ "relevance" +:+ dq +:+ ": " +:+ dq +:+ "string" +:+ dq +:+ "}],";
    "            " +:+ dq +:+ "risk_level" +:+ dq +:+ ": " +:+ dq
      +:+ "low|medium|high|critical" +:+ dq +:+ ",";
    "            " +:+ dq +:+ "reasoning" +:+ dq +:+ ": " +:+ dq
      +:+ "string - why you drafted it this way" +:+ dq;
    "        }";
    "    ],";
    "    " +:+ dq +:+ "summary" +:+ dq +:+ ": " +:+ dq
      +:+ "string - brief summary" +:+ dq +:+ ",";
    "    " +:+ dq +:+ "governing_jurisdiction" +:+ dq +:+ ": " +:+ dq
      +:+ jurisdiction +:+ dq +:+ ",";
    "    " +:+ dq +:+ "confidence_score" +:+ dq +:+ ": 0.0-1.0";
    "}";
    "";
    "CONSTRAINT PROFILE:";
    constraints_json;
    "";
    "AVAILABLE SOURCE CONTEXT:";
    source_context
  ].

(** [RETRY_INJECTION_TEMPLATE.format(violation_summary=...,
    fix_suggestions=...)] *)
Definition RETRY_INJECTION_TEMPLATE (violation_summary fix_suggestions : string)
    : string :=
  text_block [
    "";
    "YOUR PREVIOUS ATTEMPT WAS REJECTED. You must fix the following violations:";
    "";
    violation_summary;
    "";
    "SPECIFIC FIXES REQUIRED:";
    fix_suggestions;
    "";
    "Generate a CORRECTED version that addresses ALL violations above.";
    "Maintain the same JSON schema."
  ].

Fixpoint retry_lines (violations : list ValidationViolation)
    (summary_lines fix_lines : list string) : list string * list string :=
  match violations with
  | [] => (summary_lines, fix_lines)
  | v :: violations' =>
      retry_lines violations'
        (summary_lines
         ++ ["- [" +:+ Py.upper (RiskLevel_value (severity v)) +:+ "] "
             +:+ field v +:+ ": " +:+ message v])
        (if Py.truthy (suggestion v)
         then fix_lines ++ ["- " +:+ suggestion v]
         else fix_lines)
  end.

Definition _build_retry_context (violations : list ValidationViolation)
    : string :=
  let '(summary_lines, fix_lines) := retry_lines violations [] [] in
  RETRY_INJECTION_TEMPLATE
    (Py.join nl summary_lines)
    (match fix_lines with
     | [] => "Review and correct the violations."
     | _ => Py.join nl fix_lines
     end).

(** The table of [_get_relevant_context] from contract types to document
    names *)
Definition type_to_prefix : gmap string string :=
  <[ "Service Level Agreement" := "zegal_msa" ]>
  (<[ "Non-Disclosure Agreement" := "legora_dpa" ]>
  (<[ "Master Services Agreement" := "zegal_msa" ]>
  (<[ "Privacy Policy" := "legora_privacy" ]>
  (<[ "Data Processing Agreement" := "legora_dpa" ]> ∅)))).

Definition context_part (chunk : DocumentChunk) : string :=
  let source_ids_str :=
    match source_ids chunk with
    | [] => "N/A"
    | ids => Py.join ", " ids
    end in
  "[Sources: " +:+ source_ids_str +:+ "]" +:+ nl +:+ chunk_text chunk +:+ nl.

(** [_get_relevant_context] once the chunks of the store are at hand *)
Definition relevant_context (constraints : ContractConstraints)
    (chunks : list DocumentChunk) : string :=
  let target_prefix :=
    default "" (type_to_prefix !! ContractType_value (contract_type constraints)) in
  let relevant :=
    filter (λ c, document_name c = target_prefix) chunks in
  let relevant :=
    match relevant with
    | [] => take 20 chunks
    | _ => relevant
    end in
  Py.join (nl +:+ "---" +:+ nl) (context_part <$> take 15 relevant).

(* ===================================================================== *)
(** * Effects: the world, the calls made to it, exceptions                *)
(* ===================================================================== *)

(** A call to a collaborator of the agent loop *)
Inductive Call : Type :=
| CallRetrieve                                       (* the document store *)
| CallGenerate (system_prompt user_prompt : string). (* the generation gateway *)

#[global] Instance Call_eq_dec : EqDecision Call.
Proof. solve_decision. Defined.

Section Agent.
Context (E : Env).

(** The state a run acts on: the world, and the record of the calls made to
    the collaborators so far (oldest first). *)
Record Sys : Type := {
  world : World E;
  calls : list Call;
}.

(** A computation that reads and writes the world and returns or raises *)
Definition M (A : Type) : Type := Sys → Res A * Sys.

#[global] Instance M_ret : MRet M := λ A a s, (Ok a, s).
#[global] Instance M_bind : MBind M := λ A B f m s,
  match m s with
  | (Ok a, s') => f a s'
  | (Raise e, s') => (Raise e, s')
  end.

(** [raise e] *)
Definition raise {A : Type} (e : Exn) : M A := λ s, (Raise e, s).

(** A pure call that may raise *)
Definition lift {A : Type} (r : Res A) : M A := λ s, (r, s).

(** [try: ... except ...]: the outcome of the body as a value *)
Definition catch {A : Type} (m : M A) : M (Res A) := λ s,
  let '(r, s') := m s in (Ok r, s').

(** The state after one reading of the clock *)
Definition tick (s : Sys) : Sys :=
  {| world := (time_time E (world s)).2; calls := calls s |}.

Definition read_clock : M float := λ s,
  (Ok (time_time E (world s)).1, tick s).

Definition call_get_all_chunks : M (list DocumentChunk) := λ s,
  let '(r, w) := get_all_chunks E (world s) in
  (r, {| world := w; calls := calls s ++ [CallRetrieve] |}).

Definition call_generate_completion (system_prompt user_prompt : string)
    : M string := λ s,
  let '(r, w) := generate_completion E system_prompt user_prompt (world s) in
  (r, {| world := w; calls := calls s ++ [CallGenerate system_prompt user_prompt] |}).

(* ===================================================================== *)
(** * [app/services/llm_client.py]: the generation gateway                *)
(* ===================================================================== *)

Definition generate_structured_output (system_prompt user_prompt : string)
    : M AgentOutput :=
  raw ← call_generate_completion system_prompt user_prompt;
  match json_loads E raw with
  | JSONDecodeError msg => raise (ValueError ("LLM returned invalid JSON: " +:+ msg))
  | Failed e => raise e
  | Data data =>
      match model_validate E data with
      | Raise e =>
          raise (ValueError ("LLM output failed schema validation: " +:+ str_exn e))
      | Ok output => mret output
      end
  end.

(* ===================================================================== *)
(** * [app/services/agent.py]: the agent loop                             *)
(* ===================================================================== *)

Definition _build_system_prompt (constraints : ContractConstraints)
    (source_context : string) : string :=
  let constraints_json := model_dump_json E constraints in
  SYSTEM_PROMPT_TEMPLATE
    (Jurisdiction_value (governing_jurisdiction constraints))
    (Py.str_Z (max_clause_length constraints))
    constraints_json
    source_context.

Definition _get_relevant_context (constraints : ContractConstraints)
    : M string :=
  chunks ← call_get_all_chunks;
  mret (relevant_context constraints chunks).

(** The closure [emit] of [run_agent_sync]: the event is stamped with the
    clock when it is built and appended to the list of the run. *)
Definition emit (events : list AgentEvent) (state : AgentState)
    (message : string) (data : option (list (string * PyVal)))
    : M (list AgentEvent) :=
  t ← read_clock;
  mret (events ++ [ {| state := state; ev_message := message;
                       data := data; timestamp := t |} ]).

(** The event [emit] builds in state [s] *)
Definition event_at (s : Sys) (state : AgentState) (message : string)
    (data : option (list (string * PyVal))) : AgentEvent :=
  {| state := state; ev_message := message; data := data;
     timestamp := (time_time E (world s)).1 |}.

(** The variables the loop of [run_agent_sync] reads and assigns *)
Record LoopVars : Type := {
  current_prompt : string;
  last_output : option AgentOutput;
  last_validation : option ValidationResult;
  loop_events : list AgentEvent;
}.

(** How one pass through the loop body ends: at its end or at a
    [continue], or at a [return]. *)
Inductive LoopStep : Type :=
| Continue (vars : LoopVars)
| Return (result : AgentResult).

Definition violations_payload (violations : list ValidationViolation)
    : list (string * PyVal) :=
  [("violations",
    PyList ((λ v, PyDict [("field", PyStr (field v));
                          ("message", PyStr (message v));
                          ("severity", PyStr (RiskLevel_value (severity v)))])
            <$> violations))].

(** The note appended to the user prompt after a gateway failure *)
Definition failure_note (e : Exn) : string :=
  nl +:+ nl +:+ "PREVIOUS ATTEMPT FAILED: " +:+ str_exn e +:+ nl
  +:+ "Please fix and try again.".

(** The body of [for attempt in range(1, max_retries + 1)] *)
Definition attempt_body (user_prompt : string)
    (constraints : ContractConstraints) (system_prompt : string)
    (max_retries attempt : Z) (vars : LoopVars) : M LoopStep :=
  events ← emit (loop_events vars) DRAFTING
    ("Generating draft (attempt " +:+ Py.str_Z attempt +:+ "/"
     +:+ Py.str_Z max_retries +:+ ")...")
    (Some [("attempt", PyInt attempt)]);
  drafted ← catch (generate_structured_output system_prompt (current_prompt vars));
  match drafted with
  | Raise (ValueError _ as e) =>
      events ← emit events ERROR ("LLM output error: " +:+ str_exn e) None;
      if (attempt <? max_retries)%Z then
        mret (Continue {| current_prompt := user_prompt +:+ failure_note e;
                          last_output := last_output vars;
                          last_validation := last_validation vars;
                          loop_events := events |})
      else
        mret (Return {| output := None;
                        validation := new_ValidationResult false [];
                        events := events;
                        total_attempts := attempt;
                        success := false;
                        error_message := Some (str_exn e) |})
  | Raise e => raise e
  | Ok output =>
      let last_output := Some output in
      events ← emit events DRAFTING
        ("Draft generated: " +:+ Py.str_nat (length (clauses output))
         +:+ " clause(s), confidence "
         +:+ format_percent E (confidence_score output))
        (Some [("clauses_count", PyInt (Z.of_nat (length (clauses output))));
               ("confidence", PyFloat (confidence_score output))]);
      events ← emit events VALIDATING "Running constraint validation..." None;
      validation ← lift (validate_output E output constraints);
      let validation :=
        {| is_valid := is_valid validation;
           violations := violations validation;
           attempt_number := attempt |} in
      let last_validation := Some validation in
      if is_valid validation then
        events ← emit events FINALIZING "✅ All constraints satisfied!"
          (Some [("attempt", PyInt attempt)]);
        events ← emit events COMPLETE
          "Agent loop complete — output verified." None;
        mret (Return {| output := Some output;
                        validation := validation;
                        events := events;
                        total_attempts := attempt;
                        success := true;
                        error_message := None |})
      else
        events ← emit events VIOLATION_FOUND
          ("❌ " +:+ Py.str_nat (length (violations validation))
           +:+ " violation(s) found")
          (Some (violations_payload (violations validation)));
        if (attempt <? max_retries)%Z then
          events ← emit events CORRECTING
            ("Injecting corrections for retry " +:+ Py.str_Z (attempt + 1)
             +:+ "...") None;
          let retry_context := _build_retry_context (violations validation) in
          mret (Continue {| current_prompt := user_prompt +:+ retry_context;
                            last_output := last_output;
                            last_validation := last_validation;
                            loop_events := events |})
        else
          events ← emit events ERROR
            ("Max retries (" +:+ Py.str_Z max_retries
             +:+ ") exhausted. Returning best effort.") None;
          mret (Continue {| current_prompt := current_prompt vars;
                            last_output := last_output;
                            last_validation := last_validation;
                            loop_events := events |})
  end.

(** The [for] loop: [remaining] passes are left, the next one for
    [attempt]. *)
Fixpoint attempts_loop (user_prompt : string)
    (constraints : ContractConstraints) (system_prompt : string)
    (max_retries : Z) (remaining : nat) (attempt : Z) (vars : LoopVars)
    : M LoopStep :=
  match remaining with
  | O => mret (Continue vars)
  | S remaining' =>
      step ← attempt_body user_prompt constraints system_prompt
               max_retries attempt vars;
      match step with
      | Return result => mret (Return result)
      | Continue vars' =>
          attempts_loop user_prompt constraints system_prompt max_retries
            remaining' (attempt + 1) vars'
      end
  end.

(** The loop from pass [attempt] on: [range(1, max_retries + 1)] holds
    [max_retries + 1 - attempt] values from [attempt] on. *)
Definition loop_from (user_prompt : string)
    (constraints : ContractConstraints) (system_prompt : string)
    (max_retries attempt : Z) (vars : LoopVars) : M LoopStep :=
  attempts_loop user_prompt constraints system_prompt max_retries
    (Z.to_nat (max_retries + 1 - attempt)) attempt vars.

(** What [run_agent_sync] returns once the loop is left: the result of
    its [return], or, the loop being exhausted, the last attempt. *)
Definition after_loop (max_retries : Z) (step : LoopStep) : AgentResult :=
  match step with
  | Return result => result
  | Continue vars =>
      {| output := last_output vars;
         validation :=
           match last_validation vars with
           | Some v => v
           | None => new_ValidationResult false []
           end;
         events := loop_events vars;
         total_attempts := max_retries;
         success := false;
         error_message :=
           Some ("Validation failed after " +:+ Py.str_Z max_retries
                 +:+ " attempts.") |}
  end.

(** The run from pass [attempt] of the loop on *)
Definition run_from (user_prompt : string)
    (constraints : ContractConstraints) (system_prompt : string)
    (max_retries attempt : Z) (vars : LoopVars) : M AgentResult :=
  step ← loop_from user_prompt constraints system_prompt max_retries
           attempt vars;
  mret (after_loop max_retries step).

Definition run_agent_sync (user_prompt : string)
    (constraints : ContractConstraints) : M AgentResult :=
  let max_retries := MAX_VALIDATION_RETRIES E in
  let events := [] in
  events ← emit events INITIALIZING "Starting legal analysis agent..." None;
  events ← emit events RETRIEVING "Retrieving relevant source documents..." None;
  retrieved ← catch (_get_relevant_context constraints);
  match retrieved with
  | Raise e =>
      events ← emit events ERROR
        ("Failed to retrieve context: " +:+ str_exn e) None;
      mret {| output := None;
              validation := new_ValidationResult false [];
              events := events;
              total_attempts := 0;
              success := false;
              error_message := Some (str_exn e) |}
  | Ok source_context =>
      events ← emit events RETRIEVING
        ("Retrieved context for "
         +:+ ContractType_value (contract_type constraints))
        (Some [("context_length",
                PyInt (Z.of_nat (String.length source_context)))]);
      let system_prompt := _build_system_prompt constraints source_context in
      run_from user_prompt constraints system_prompt max_retries 1
        {| current_prompt := user_prompt;
           last_output := None;
           last_validation := None;
           loop_events := events |}
  end.

(** The event an [ERROR] event is replaced with before it is yielded *)
Definition sanitized (event : AgentEvent) : AgentEvent :=
  {| state := state event;
     ev_message := "An error occurred during processing";
     data := None;
     timestamp := timestamp event |}.

(** The [for event in result.events] loop of [run_agent_streaming];
    [yielded] holds the events yielded so far. *)
Fixpoint yield_loop (todo yielded : list AgentEvent) : list AgentEvent :=
  match todo with
  | [] => yielded
  | event :: todo' =>
      let event :=
        if bool_decide (state event = ERROR) then sanitized event else event in
      yield_loop todo' (yielded ++ [event])
  end.

(** [run_agent_streaming], as the sequence of the events it yields when it
    is consumed to its end.  The executor thread it runs the synchronous
    loop in is awaited before anything is yielded. *)
Definition run_agent_streaming (user_prompt : string)
    (constraints : ContractConstraints) : M (list AgentEvent) :=
  result ← run_agent_sync user_prompt constraints;
  let yielded := yield_loop (events result) [] in
  match success result, output result with
  | true, Some out =>
      t ← read_clock;
      mret (yielded ++
            [ {| state := COMPLETE;
                 ev_message := "Generation complete";
                 data := Some [("output", AgentOutput_model_dump out);
                               ("validation",
                                ValidationResult_model_dump (validation result));
                               ("total_attempts", PyInt (total_attempts result))];
                 timestamp := t |} ])
  | _, _ =>
      t ← read_clock;
      mret (yielded ++
            [ {| state := ERROR;
                 ev_message := "Generation could not be completed";
                 data := Some [("validation",
                                ValidationResult_model_dump (validation result));
                               ("total_attempts", PyInt (total_attempts result))];
                 timestamp := t |} ])
  end.

End Agent.

Arguments world {E} _.
Arguments calls {E} _.

(* ===================================================================== *)
(** * What the specification says, in its own words                       *)
(* ===================================================================== *)





(** The redaction the specification asks of the streaming projection: the
    message of an [ERROR] event is replaced, the event is otherwise kept. *)
Definition redact_message (event : AgentEvent) : AgentEvent :=
  if bool_decide (state event = ERROR)
  then {| state := state event;
          ev_message := "An error occurred during processing";
          data := data event;
          timestamp := timestamp event |}
  else event.

(** [d.get(key)] on the payload of an event *)
Fixpoint payload_get (key : string) (items : list (string * PyVal))
    : option PyVal :=
  match items with
  | [] => None
  | (k, v) :: items' => if String.eqb k key then Some v else payload_get key items'
  end.

(** What the final synthetic event has to carry for the result [result] *)
Definition carries_outcome (result : AgentResult) (final : AgentEvent) : Prop :=
  ∃ payload, data final = Some payload ∧
    payload_get "validation" payload
      = Some (ValidationResult_model_dump (validation result)) ∧
    if success result then
      ∃ out, output result = Some out ∧
        payload_get "output" payload = Some (AgentOutput_model_dump out)
    else
      payload_get "total_attempts" payload
        = Some (PyInt (total_attempts result)).

(** A gateway call that answers with text that is not JSON (on which
    [json.loads] raises [json.JSONDecodeError]), or with JSON that does not
    fit the schema of [AgentOutput]; [msg] is the message of the
    [ValueError] the gateway raises and [s'] the state it leaves. *)
Definition reports_format_error (E : Env) (system_prompt user_prompt : string)
    (s : Sys E) (msg : string) (s' : Sys E) : Prop :=
  ∃ raw w,
    generate_completion E system_prompt user_prompt (world s) = (Ok raw, w) ∧
    s' = {| world := w;
            calls := calls s ++ [CallGenerate system_prompt user_prompt] |} ∧
    ((∃ reason, json_loads E raw = JSONDecodeError reason ∧
                msg = "LLM returned invalid JSON: " +:+ reason)
     ∨ (∃ d e, json_loads E raw = Data d ∧ model_validate E d = Raise e ∧
               msg = "LLM output failed schema validation: " +:+ str_exn e)).

(** The output [output] cut down to the one clause [clause] *)
Definition with_only_clause (output : AgentOutput) (clause : GeneratedClause)
    : AgentOutput :=
  {| clauses := [clause];
     summary := summary output;
     ao_governing_jurisdiction := ao_governing_jurisdiction output;
     confidence_score := confidence_score output |}.

(** The gateway calls among the calls made *)
Definition gateway_calls (cs : list Call) : list Call :=
  filter (λ c, c ≠ CallRetrieve) cs.

(** The schema of [AgentOutput], as its fields declare it: at least one
    clause, every clause text not blank and stripped, a confidence score
    between zero and one. *)
Definition schema_valid (output : AgentOutput) : Prop :=
  clauses output ≠ [] ∧
  Forall (λ clause, text_not_empty (text clause) = Ok (text clause))
         (clauses output) ∧
  PrimFloat.leb 0 (confidence_score output) = true ∧
  PrimFloat.leb (confidence_score output) 1 = true.

(** A profile whose liability rule passes its model validator *)
Definition profile_valid (constraints : ContractConstraints) : Prop :=
  validate_liability_cap (liability constraints) = Ok (liability constraints).


(** The validation result of a pass, stamped with its attempt number *)
Definition stamped (vr : ValidationResult) (attempt : Z) : ValidationResult :=
  {| is_valid := is_valid vr; violations := violations vr;
     attempt_number := attempt |}.

(** The validation kept from a pass that goes on is one the validator
    rejected. *)
Definition rejected_so_far (vars : LoopVars) : Prop :=
  ∀ v, last_validation vars = Some v → is_valid v = false.

(** No [ERROR] event of the trace carries data. *)
Definition error_without_data (event : AgentEvent) : Prop :=
  state event = ERROR → data event = None.

(** On each of the [remaining] attempts that the loop makes from the
    attempt numbered [attempt] on, entered in the state [s] with the prompt
    [prompt], the gateway returns an output (one that fits the schema,
    then) and the validator rejects it.  The attempts after the first are
    those of the loop itself: they start from the prompt and the state in
    which the body of the loop leaves the pass before.  Nothing is asked
    of the gateway on calls that the run does not make. *)
Fixpoint attempts_rejected (E : Env) (user_prompt : string)
    (constraints : ContractConstraints) (system_prompt : string)
    (max_retries : Z) (remaining : nat) (attempt : Z) (prompt : string)
    (s : Sys E) : Prop :=
  match remaining with
  | O => True
  | S remaining' =>
      ∃ out s1 vr,
        generate_structured_output E system_prompt prompt (tick E s)
          = (Ok out, s1) ∧
        validate_output E out constraints = Ok vr ∧
        is_valid vr = false ∧
        ∀ vars vars' s',
          current_prompt vars = prompt →
          attempt_body E user_prompt constraints system_prompt max_retries
            attempt vars s = (Ok (Continue vars'), s') →
          attempts_rejected E user_prompt constraints system_prompt
            max_retries remaining' (attempt + 1) (current_prompt vars') s'
  end.

(* ===================================================================== *)
(** * Sample data and environments                                        *)
(* ===================================================================== *)

(** [ContractConstraints(contract_type=..., governing_jurisdiction=...)]
    with the defaults of the model, as [_resolve_constraints] of the API
    builds the profile of a request that names no preset. *)
Definition default_constraints (contract_type : ContractType)
    (jurisdiction : Jurisdiction) : ContractConstraints :=
  {| contract_type := contract_type;
     governing_jurisdiction := jurisdiction;
     liability :=
       {| max_liability_amount := None;
          liability_cap_multiple_of_fees := Some 2%float;
          allows_consequential_damages := false;
          allows_unlimited_liability := false |};
     data_protection :=
       {| required_jurisdiction := EU;
          requires_gdpr_compliance := true;
          max_data_retention_days := None;
          requires_breach_notification := true;
          max_breach_notification_hours := 72;
          allows_cross_border_transfer := true;
          requires_sub_processor_approval := true |};
     termination :=
       {| min_notice_period_days := 30;
          allows_termination_for_convenience := true;
          requires_data_return_on_termination := true |};
     forbidden_clauses := [];
     required_source_ids := [];
     max_clause_length := 500 |}.

Definition sample_profile : ContractConstraints := default_constraints DPA EU.

Definition sample_clause (title text : string) : GeneratedClause :=
  {| title := title;
     text := text;
     citations := [ {| source_id := "DPA-7.1"; relevance := "breach notice" |} ];
     risk_level := LOW;
     reasoning := "" |}.

(** A draft that satisfies [sample_profile] *)
Definition good_output : AgentOutput :=
  {| clauses :=
       [ sample_clause "Breach Notification"
           "The Processor shall give notification of any personal data breach within 36 hours, as GDPR requires." ];
     summary := "Breach notification clause.";
     ao_governing_jurisdiction := EU;
     confidence_score := 0.75%float |}.

(** The same draft under another governing law *)
Definition wrong_output : AgentOutput :=
  {| clauses := clauses good_output;
     summary := summary good_output;
     ao_governing_jurisdiction := UK;
     confidence_score := 0.75%float |}.

(** A draft whose first clause ends with the word a second one goes on
    from *)
Definition split_phrase_output : AgentOutput :=
  {| clauses :=
       [ sample_clause "Cap" "Under GDPR the liability of the Processor is capped and is never unlimited";
         sample_clause "Notice" "liability for a late breach notification follows the same cap." ];
     summary := "Liability cap.";
     ao_governing_jurisdiction := EU;
     confidence_score := 0.5%float |}.

Definition sample_chunk : DocumentChunk :=
  {| chunk_id := "legora_dpa::chunk_0";
     chunk_text := "## 7. Personal Data Breach" +:+ nl
                   +:+ "[SourceID: DPA-7.1] The Processor notifies the Controller without undue delay.";
     document_name := "legora_dpa";
     source_ids := ["DPA-7.1"] |}.

(** An environment for worked examples.  Its world counts the answers the
    provider has served and the readings of the clock; the provider serves
    [answers n] as its [n]-th answer; an answer is JSON when it opens with
    a brace, and [decode] reads it against the schema. *)
Definition scenario (store : Res (list DocumentChunk))
    (answers : nat → string) (decode : string → Res AgentOutput)
    (budget : Z) : Env :=
  {| World := nat * float;
     time_time := λ w, (w.2, (w.1, (w.2 + 1)%float));
     MAX_VALIDATION_RETRIES := budget;
     get_all_chunks := λ w, (store, w);
     generate_completion := λ _ _ w, (Ok (answers w.1), (S w.1, w.2));
     Json := string;
     json_loads := λ raw,
       if Py.startswith raw "{" then Data raw
       else JSONDecodeError "Expecting value: line 1 column 1 (char 0)";
     model_validate := decode;
     re_search := λ pattern text, Ok (Py.contains pattern text);
     model_dump_json := λ _, "{}";
     format_percent := λ _, "75%" |}.

Definition decode_sample (data : string) : Res AgentOutput :=
  if String.eqb data "{good}" then Ok good_output
  else if String.eqb data "{wrong}" then Ok wrong_output
  else Raise (ValueError "1 validation error for AgentOutput").

Definition start_of (E : Env) (w : World E) : Sys E :=
  {| world := w; calls := [] |}.

(** The provider always answers with a draft under the wrong law. *)
Definition env_always_wrong : Env :=
  scenario (Ok [sample_chunk]) (λ _, "{wrong}") decode_sample 3.

(** The provider answers with a wrong draft, then with a good one. *)
Definition env_second_good : Env :=
  scenario (Ok [sample_chunk])
    (λ n, match n with O => "{wrong}" | _ => "{good}" end) decode_sample 3.

(** The provider answers with a wrong draft three times, and with a good
    one from its fourth answer on. *)
Definition env_fourth_good : Env :=
  scenario (Ok [sample_chunk])
    (λ n, if Nat.ltb n 3 then "{wrong}" else "{good}") decode_sample 3.

(** The provider never answers with JSON. *)
Definition env_never_json : Env :=
  scenario (Ok [sample_chunk]) (λ _, "I cannot help with that.") decode_sample 2.

(** The document directory is missing. *)
Definition env_no_documents : Env :=
  scenario (Raise (OtherError "Source documents directory not found: data/source_documents"))
    (λ _, "{good}") decode_sample 3.

(** The variables of the loop before any pass, the trace left aside *)
Definition first_pass_vars : LoopVars :=
  {| current_prompt := "Draft a breach notification clause.";
     last_output := None;
     last_validation := None;
     loop_events := [] |}.

(** The document of the ingestion scenario of the specification *)
Definition two_anchor_document : string :=
  "[SourceID: A.1]" +:+ nl +:+ "Text one." +:+ nl
  +:+ "[SourceID: A.2]" +:+ nl +:+ "Text two." +:+ nl
  +:+ "## Heading" +:+ nl.


(** A document whose anchor stands in a subsection of a section *)
Definition subsection_document : string :=
  "# Data Processing Agreement" +:+ nl
  +:+ "## 2. Scope" +:+ nl
  +:+ "### 2.1 Definitions" +:+ nl
  +:+ "[SourceID: DPA-2.1]" +:+ nl
  +:+ "Terms have the meaning given in the GDPR." +:+ nl.

(* ===================================================================== *)
(** * Further vocabulary and samples                                      *)
(* ===================================================================== *)

(** Two clauses with the same title, text and cited source ids *)
Definition same_clause_content (c c' : GeneratedClause) : Prop :=
  title c = title c' ∧ text c = text c' ∧
  source_id <$> citations c = source_id <$> citations c'.

(** Two outputs with the same governing law whose clauses agree, one by
    one, on title, text and cited source ids *)
Definition same_validated_content (o o' : AgentOutput) : Prop :=
  ao_governing_jurisdiction o = ao_governing_jurisdiction o' ∧
  Forall2 same_clause_content (clauses o) (clauses o').

(** [good_output] as another draft would word it around the same clauses:
    another summary, confidence, risk level, reasoning and relevance *)
Definition good_output_reworded : AgentOutput :=
  {| clauses :=
       [ {| title := "Breach Notification";
            text := "The Processor shall give notification of any personal data breach within 36 hours, as GDPR requires.";
            citations := [ {| source_id := "DPA-7.1"; relevance := "sets the deadline" |} ];
            risk_level := HIGH;
            reasoning := "Mirrors the source clause." |} ];
     summary := "One clause on breach notification.";
     ao_governing_jurisdiction := EU;
     confidence_score := 0.25%float |}.

(** [split_phrase_output] in capital letters *)
Definition split_phrase_output_upper : AgentOutput :=
  {| clauses :=
       (λ c, {| title := title c; text := Py.upper (text c);
                citations := citations c; risk_level := risk_level c;
                reasoning := reasoning c |}) <$> clauses split_phrase_output;
     summary := summary split_phrase_output;
     ao_governing_jurisdiction := EU;
     confidence_score := 0.5%float |}.

(** [E] with another [re.search] *)
Definition with_re_search (E : Env) (search : string → string → Res bool)
    : Env :=
  {| World := World E;
     time_time := time_time E;
     MAX_VALIDATION_RETRIES := MAX_VALIDATION_RETRIES E;
     get_all_chunks := get_all_chunks E;
     generate_completion := generate_completion E;
     Json := Json E;
     json_loads := json_loads E;
     model_validate := model_validate E;
     re_search := search;
     model_dump_json := model_dump_json E;
     format_percent := format_percent E |}.

(** A [re.search] for literal patterns that refuses, as [re] does, a
    pattern that opens a group it does not close *)
Definition literal_search (pattern text : string) : Res bool :=
  if Py.contains "(" pattern && negb (Py.contains ")" pattern)
  then Raise (OtherError "missing ), unterminated subpattern at position 0")
  else Ok (Py.contains pattern text).

Definition env_literal_patterns : Env :=
  with_re_search env_second_good literal_search.

(** [sample_profile] with three forbidden phrases, the second of which
    does not compile when [broken] is set *)
Definition profile_with_patterns (broken : bool) : ContractConstraints :=
  {| contract_type := contract_type sample_profile;
     governing_jurisdiction := governing_jurisdiction sample_profile;
     liability := liability sample_profile;
     data_protection := data_protection sample_profile;
     termination := termination sample_profile;
     forbidden_clauses :=
       [ {| pattern := "36 hours"; reason := "The client asks for 24 hours.";
            fc_severity := MEDIUM |};
         {| pattern := if broken then "(best efforts" else "best efforts";
            reason := "Too vague."; fc_severity := LOW |};
         {| pattern := "GDPR"; reason := "Spell the regulation out.";
            fc_severity := LOW |} ];
     required_source_ids := ["DPA-7.1"; "DPA-9.1"];
     max_clause_length := 10 |}.

(** A gateway call made with the system prompt [system_prompt] and a user
    prompt that begins with [user_prompt] *)
Definition call_for (system_prompt user_prompt : string) (c : Call) : Prop :=
  ∃ p, c = CallGenerate system_prompt p ∧ String.prefix user_prompt p = true.

(** The state of the last event of a trace *)
Definition last_state (trace : list AgentEvent) : option AgentState :=
  state <$> last trace.




(** [E] with another provider *)
Definition with_provider (E : Env)
    (provider : string → string → World E → Res string * World E) : Env :=
  {| World := World E;
     time_time := time_time E;
     MAX_VALIDATION_RETRIES := MAX_VALIDATION_RETRIES E;
     get_all_chunks := get_all_chunks E;
     generate_completion := provider;
     Json := Json E;
     json_loads := json_loads E;
     model_validate := model_validate E;
     re_search := re_search E;
     model_dump_json := model_dump_json E;
     format_percent := format_percent E |}.

(** [E] with another [json.loads] *)
Definition with_json_loads (E : Env) (loads : string → Loaded (Json E)) : Env :=
  {| World := World E;
     time_time := time_time E;
     MAX_VALIDATION_RETRIES := MAX_VALIDATION_RETRIES E;
     get_all_chunks := get_all_chunks E;
     generate_completion := generate_completion E;
     Json := Json E;
     json_loads := loads;
     model_validate := model_validate E;
     re_search := re_search E;
     model_dump_json := model_dump_json E;
     format_percent := format_percent E |}.

(** The answers of the provider are nested too deeply for [json.loads]. *)
Definition env_deep_json : Env :=
  with_json_loads env_second_good
    (λ _, Failed (OtherError "maximum recursion depth exceeded")).

(** The provider cannot be reached. *)
Definition env_provider_down : Env :=
  with_provider env_second_good
    (λ _ _ w, (Raise (OtherError "Connection error."), w)).

(** One of the two messages the projection gives an [ERROR] event *)
Definition generic_message (message : string) : Prop :=
  message = "An error occurred during processing"
  ∨ message = "Generation could not be completed".

(** The summary line and the fix line of a violation in the retry prompt *)
Definition summary_line (v : ValidationViolation) : string :=
  "- [" +:+ Py.upper (RiskLevel_value (severity v)) +:+ "] "
  +:+ field v +:+ ": " +:+ message v.

Definition fix_line (v : ValidationViolation) : string :=
  "- " +:+ suggestion v.

(* ===================================================================== *)
(** * [app/services/ingestion.py]: titles, sections and chunks            *)
(* ===================================================================== *)

(** [DocumentMetadata]; its [title] carries the prefix [doc_]. *)
Record DocumentMetadata : Type := {
  filename : string;
  doc_title : string;
  total_citations : nat;
  sections : list string;
}.

(** The pattern [r"^#\s+(.+)$"] that [_extract_title] searches under
    [re.MULTILINE] *)
Definition TITLE_PATTERN : Re.regex :=
  Re.Cat Re.Bol
    (Re.Cat (Re.Chr (Ascii.eqb "#"))
       (Re.Cat (Re.Rep Py.isspace 1 None)
          (Re.Cat (Re.Group 1 (Re.Rep (λ a, negb (Ascii.eqb a Py.newline)) 1 None))
             Re.Eol))).

Definition _extract_title (content : string) : string :=
  match Re.search TITLE_PATTERN content with
  | Some m => Py.strip (Re.group content m 1)
  | None => "Untitled"
  end.

Definition _extract_sections (content : string) : list string :=
  (λ m, Py.strip (Re.group content m 2))
    <$> filter (λ m, String.length (Re.group content m 1) = 2)
          (Re.finditer HEADING_PATTERN content).

(** [pattern.findall(subject)] for a pattern with one group: the text of
    the group in each match *)
Definition findall (r : Re.regex) (subject : string) : list string :=
  (λ m, Re.group subject m 1) <$> Re.finditer r subject.

(** The lookahead [(?=##\s)] at the text [s] *)
Definition heading_mark_ahead (s : string) : bool :=
  match s with
  | String a (String b (String c _)) =>
      Ascii.eqb a "#" && Ascii.eqb b "#" && Py.isspace c
  | _ => false
  end.

(** [re.split(r"\n(?=##\s)", content)]: the text is cut at every line
    feed that the mark of a second-level heading follows; the line feed is
    dropped. *)
Fixpoint split_sections (content : string) : list string :=
  match content with
  | EmptyString => [EmptyString]
  | String a s' =>
      if Ascii.eqb a Py.newline && heading_mark_ahead s'
      then EmptyString :: split_sections s'
      else match split_sections s' with
           | w :: ws => String a w :: ws
           | [] => [String a EmptyString]
           end
  end.

(** [section.split("\n\n")] *)
Fixpoint split_blank_line (section : string) : list string :=
  match section with
  | EmptyString => [EmptyString]
  | String a s' =>
      match s' with
      | String b s'' =>
          if Ascii.eqb a Py.newline && Ascii.eqb b Py.newline
          then EmptyString :: split_blank_line s''
          else match split_blank_line s' with
               | w :: ws => String a w :: ws
               | [] => [String a EmptyString]
               end
      | EmptyString => [String a EmptyString]
      end
  end.

(** The variables of the paragraph loop of [_chunk_document].  The list
    [current_ids] is extended in place, but a chunk is given it only at the
    moment the loop rebinds the variable or has ended, so that no chunk
    sees a later extension. *)
Record ParagraphVars : Type := {
  pv_chunks : list DocumentChunk;   (* the list [chunks] of the function *)
  current_chunk : string;
  current_ids : list string;
  sub_idx : nat;
}.

(** [f"{document_name}::chunk_{section_idx}"] and
    [f"{document_name}::chunk_{section_idx}_{sub_idx}"] *)
Definition section_chunk_id (document_name : string) (section_idx : nat)
    : string :=
  document_name +:+ "::chunk_" +:+ Py.str_nat section_idx.

Definition paragraph_chunk_id (document_name : string)
    (section_idx sub_idx : nat) : string :=
  document_name +:+ "::chunk_" +:+ Py.str_nat section_idx
  +:+ "_" +:+ Py.str_nat sub_idx.

Definition paragraph_chunk (document_name : string) (section_idx : nat)
    (vars : ParagraphVars) : DocumentChunk :=
  {| chunk_id := paragraph_chunk_id document_name section_idx (sub_idx vars);
     chunk_text := Py.strip (current_chunk vars);
     document_name := document_name;
     source_ids := current_ids vars |}.

Definition paragraph_step (document_name : string)
    (chunk_size section_idx : nat) (para : string) (vars : ParagraphVars)
    : ParagraphVars :=
  let para_ids := findall SOURCE_ID_PATTERN para in
  if Nat.ltb chunk_size (Py.len (current_chunk vars) + Py.len para)
     && Py.truthy (current_chunk vars)
  then
    {| pv_chunks := pv_chunks vars ++ [paragraph_chunk document_name section_idx vars];
       current_chunk := para;
       current_ids := para_ids;
       sub_idx := sub_idx vars + 1 |}
  else
    {| pv_chunks := pv_chunks vars;
       current_chunk :=
         if Py.truthy (current_chunk vars)
         then current_chunk vars +:+ (nl +:+ nl +:+ para)
         else para;
       current_ids := current_ids vars ++ para_ids;
       sub_idx := sub_idx vars |}.

Fixpoint paragraph_loop (document_name : string)
    (chunk_size section_idx : nat) (paragraphs : list string)
    (vars : ParagraphVars) : ParagraphVars :=
  match paragraphs with
  | [] => vars
  | para :: paragraphs' =>
      paragraph_loop document_name chunk_size section_idx paragraphs'
        (paragraph_step document_name chunk_size section_idx para vars)
  end.

(** The body of the section loop of [_chunk_document] *)
Definition chunk_section (document_name : string)
    (chunk_size section_idx : nat) (section : string)
    (chunks : list DocumentChunk) : list DocumentChunk :=
  let source_ids := findall SOURCE_ID_PATTERN section in
  if Nat.leb (Py.len section) chunk_size then
    chunks ++ [ {| chunk_id := section_chunk_id document_name section_idx;
                   chunk_text := Py.strip section;
                   document_name := document_name;
                   source_ids := source_ids |} ]
  else
    let paragraphs := split_blank_line section in
    let vars :=
      paragraph_loop document_name chunk_size section_idx paragraphs
        {| pv_chunks := chunks; current_chunk := EmptyString;
           current_ids := []; sub_idx := 0 |} in
    if Py.truthy (Py.strip (current_chunk vars))
    then pv_chunks vars ++ [paragraph_chunk document_name section_idx vars]
    else pv_chunks vars.

Fixpoint section_loop (document_name : string) (chunk_size section_idx : nat)
    (sections : list string) (chunks : list DocumentChunk)
    : list DocumentChunk :=
  match sections with
  | [] => chunks
  | section :: sections' =>
      section_loop document_name chunk_size (S section_idx) sections'
        (chunk_section document_name chunk_size section_idx section chunks)
  end.

Definition _chunk_document (content document_name : string)
    (chunk_size : nat) : list DocumentChunk :=
  section_loop document_name chunk_size 0 (split_sections content) [].

(* ===================================================================== *)
(** * [app/services/ingestion.py]: the document store                     *)
(* ===================================================================== *)

(** The module-level state of the service, and what it reads of the file
    system: the directory of the source documents, as [str(doc_dir)],
    whether it exists, and the files [sorted(doc_dir.glob("*.md"))] finds
    in it, each with its [name], its [stem] and what [read_text] gives,
    which raises on a file that cannot be read or decoded. *)
Module Ingestion.

Record Store : Type := {
  _citation_index : gmap string Citation;
  _document_metadata : list DocumentMetadata;
  _document_chunks : list DocumentChunk;
  _is_loaded : bool;
}.

Record MdFile : Type := {
  name : string;
  stem : string;
  read_text : Res string;
}.

Record Disk : Type := {
  doc_dir : string;
  doc_dir_exists : bool;
  md_files : list MdFile;
}.

(** The state of a process that has just imported the module *)
Definition initial : Store :=
  {| _citation_index := ∅; _document_metadata := [];
     _document_chunks := []; _is_loaded := false |}.

(** The body of the loop of [load_documents] over the files *)
Definition load_file (md_file : MdFile) (s : Store) : Res unit * Store :=
  match read_text md_file with
  | Raise e => (Raise e, s)
  | Ok content =>
      let doc_name := stem md_file in
      let citations := _parse_citations content doc_name in
      let chunks := _chunk_document content doc_name 800 in
      let metadata :=
        {| filename := name md_file;
           doc_title := _extract_title content;
           total_citations := size citations;
           sections := _extract_sections content |} in
      (Ok (),
       {| _citation_index := citations ∪ _citation_index s;
          _document_metadata := _document_metadata s ++ [metadata];
          _document_chunks := _document_chunks s ++ chunks;
          _is_loaded := _is_loaded s |})
  end.

Fixpoint files_loop (files : list MdFile) (s : Store) : Res unit * Store :=
  match files with
  | [] => (Ok (), s)
  | md_file :: files' =>
      match load_file md_file s with
      | (Ok _, s') => files_loop files' s'
      | (Raise e, s') => (Raise e, s')
      end
  end.

Definition load_documents (disk : Disk) (s : Store) : Res unit * Store :=
  if _is_loaded s then (Ok (), s)
  else if negb (doc_dir_exists disk) then
    (Raise (OtherError ("Source documents directory not found: "
                        +:+ doc_dir disk)), s)
  else
    match md_files disk with
    | [] => (Raise (OtherError ("No Markdown files found in: "
                                +:+ doc_dir disk)), s)
    | _ =>
        match files_loop (md_files disk) s with
        | (Ok _, s') =>
            (Ok (),
             {| _citation_index := _citation_index s';
                _document_metadata := _document_metadata s';
                _document_chunks := _document_chunks s';
                _is_loaded := true |})
        | (Raise e, s') => (Raise e, s')
        end
    end.

Definition _ensure_loaded (disk : Disk) (s : Store) : Res unit * Store :=
  if negb (_is_loaded s) then load_documents disk s else (Ok (), s).

Definition get_citation (disk : Disk) (source_id : string) (s : Store)
    : Res (option Citation) * Store :=
  match _ensure_loaded disk s with
  | (Ok _, s') => (Ok (_citation_index s' !! source_id), s')
  | (Raise e, s') => (Raise e, s')
  end.

Definition get_document_metadata (disk : Disk) (s : Store)
    : Res (list DocumentMetadata) * Store :=
  match _ensure_loaded disk s with
  | (Ok _, s') => (Ok (_document_metadata s'), s')
  | (Raise e, s') => (Raise e, s')
  end.

Definition get_all_chunks (disk : Disk) (s : Store)
    : Res (list DocumentChunk) * Store :=
  match _ensure_loaded disk s with
  | (Ok _, s') => (Ok (_document_chunks s'), s')
  | (Raise e, s') => (Raise e, s')
  end.

End Ingestion.

(** Two files for worked examples, and a third that cannot be decoded *)
Definition dpa_file : Ingestion.MdFile :=
  {| Ingestion.name := "legora_dpa.md"; Ingestion.stem := "legora_dpa";
     Ingestion.read_text := Ok subsection_document |}.

Definition notes_file : Ingestion.MdFile :=
  {| Ingestion.name := "notes.md"; Ingestion.stem := "notes";
     Ingestion.read_text := Ok two_anchor_document |}.

Definition broken_file : Ingestion.MdFile :=
  {| Ingestion.name := "zz_scan.md"; Ingestion.stem := "zz_scan";
     Ingestion.read_text :=
       Raise (ValueError "'utf-8' codec can't decode byte 0xff in position 0: invalid start byte") |}.

Definition sample_disk (files : list Ingestion.MdFile) : Ingestion.Disk :=
  {| Ingestion.doc_dir := "data/source_documents";
     Ingestion.doc_dir_exists := true;
     Ingestion.md_files := files |}.

(** Another file that defines the source id of [dpa_file] *)
Definition amendment_file : Ingestion.MdFile :=
  {| Ingestion.name := "legora_dpa_amendment.md";
     Ingestion.stem := "legora_dpa_amendment";
     Ingestion.read_text :=
       Ok ("## Amendment" +:+ nl
           +:+ "[SourceID: DPA-2.1]" +:+ nl
           +:+ "Terms have the meaning given in the amended annex." +:+ nl) |}.

(** Two paragraphs that together are one character longer than a chunk
    size of twelve *)
Definition two_paragraph_document : string :=
  "Scope." +:+ nl +:+ nl +:+ "Term.".

(** What the chunking promises of a chunk of the document [content] *)
Definition chunk_in_bounds (content doc_name : string) (chunk_size : nat)
    (c : DocumentChunk) : Prop :=
  document_name c = doc_name
  ∧ Py.strip (chunk_text c) = chunk_text c
  ∧ (Py.len (chunk_text c) ≤ chunk_size + 2
     ∨ ∃ section para,
         section ∈ split_sections content
         ∧ para ∈ split_blank_line section
         ∧ chunk_text c = Py.strip para).

(** The invariant of the paragraph loop over the section [section]: the
    chunks are in bounds, and so is the text being gathered. *)
Definition paragraph_inv (content doc_name : string) (chunk_size : nat)
    (section : string) (vars : ParagraphVars) : Prop :=
  Forall (chunk_in_bounds content doc_name chunk_size) (pv_chunks vars)
  ∧ (Py.len (current_chunk vars) ≤ chunk_size + 2
     ∨ current_chunk vars ∈ split_blank_line section).

Definition isdigit (a : ascii) : bool :=
  let n := Py.code a in ((48 <=? n) && (n <=? 57))%N.

Fixpoint all_chars (p : ascii → bool) (s : string) : bool :=
  match s with
  | EmptyString => true
  | String a s' => p a && all_chars p s'
  end.

(** The identifier [id] was given in a section before the [section_idx]-th *)
Definition id_of_earlier_section (doc_name : string) (section_idx : nat)
    (id : string) : Prop :=
  ∃ j, j < section_idx
       ∧ (id = section_chunk_id doc_name j
          ∨ ∃ k, id = paragraph_chunk_id doc_name j k).

(** The identifiers of the chunks are distinct, and were given in an
    earlier section or, in this one, under a smaller sub-index. *)
Definition paragraph_ids_inv (doc_name : string) (section_idx : nat)
    (vars : ParagraphVars) : Prop :=
  NoDup (chunk_id <$> pv_chunks vars)
  ∧ Forall (λ c, id_of_earlier_section doc_name section_idx (chunk_id c)
                 ∨ ∃ k, k < sub_idx vars
                        ∧ chunk_id c = paragraph_chunk_id doc_name section_idx k)
      (pv_chunks vars).

Definition section_ids_inv (doc_name : string) (section_idx : nat)
    (chunks : list DocumentChunk) : Prop :=
  NoDup (chunk_id <$> chunks)
  ∧ Forall (λ c, id_of_earlier_section doc_name section_idx (chunk_id c))
      chunks.

(** The file can be read *)
Definition readable (md_file : Ingestion.MdFile) : bool :=
  match Ingestion.read_text md_file with
  | Ok _ => true
  | Raise _ => false
  end.

(** The citations and the chunks the file gives when it can be read *)
Definition file_citations (md_file : Ingestion.MdFile) : gmap string Citation :=
  match Ingestion.read_text md_file with
  | Ok content => _parse_citations content (Ingestion.stem md_file)
  | Raise _ => ∅
  end.

Definition file_chunks (md_file : Ingestion.MdFile) : list DocumentChunk :=
  match Ingestion.read_text md_file with
  | Ok content => _chunk_document content (Ingestion.stem md_file) 800
  | Raise _ => []
  end.

(** The directory exists and every file of it can be read *)
Definition disk_readable (disk : Ingestion.Disk) : Prop :=
  Ingestion.doc_dir_exists disk = true
  ∧ Ingestion.md_files disk ≠ []
  ∧ Forall (λ md_file, readable md_file = true) (Ingestion.md_files disk).

(* ===================================================================== *)
(** * [app/api/schemas.py] and [app/api/routes.py]                        *)
(* ===================================================================== *)

(** The preset profiles of [app/models/constraints.py].  Building a
    [LiabilityConstraints] runs its model validator. *)
Definition get_dpa_review_constraints : Res ContractConstraints :=
  liability ← validate_liability_cap
    {| max_liability_amount := None;
       liability_cap_multiple_of_fees := Some 2%float;
       allows_consequential_damages := false;
       allows_unlimited_liability := false |};
  mret
    {| contract_type := DPA;
       governing_jurisdiction := EU;
       liability := liability;
       data_protection :=
         {| required_jurisdiction := EU;
            requires_gdpr_compliance := true;
            max_data_retention_days := None;
            requires_breach_notification := true;
            max_breach_notification_hours := 36;
            allows_cross_border_transfer := true;
            requires_sub_processor_approval := true |};
       termination :=
         {| min_notice_period_days := 30;
            allows_termination_for_convenience := true;
            requires_data_return_on_termination := true |};
       forbidden_clauses :=
         [ {| pattern := "(?i)unlimited\s+liability";
              reason := "Unlimited liability is never acceptable in DPAs.";
              fc_severity := CRITICAL |};
           {| pattern := "(?i)waive.*right.*to.*audit";
              reason := "Audit rights cannot be waived under GDPR.";
              fc_severity := CRITICAL |};
           {| pattern := "(?i)sell.*personal\s+data";
              reason := "Selling personal data is prohibited.";
              fc_severity := CRITICAL |} ];
       required_source_ids := ["DPA-7.1"; "DPA-6.2"; "DPA-9.1"];
       max_clause_length := 500 |}.

Definition get_msa_review_constraints : Res ContractConstraints :=
  liability ← validate_liability_cap
    {| max_liability_amount := Some 1000000%float;
       liability_cap_multiple_of_fees := None;
       allows_consequential_damages := false;
       allows_unlimited_liability := false |};
  mret
    {| contract_type := MSA;
       governing_jurisdiction := SWEDEN;
       liability := liability;
       data_protection :=
         {| required_jurisdiction := EU;
            requires_gdpr_compliance := true;
            max_data_retention_days := None;
            requires_breach_notification := true;
            max_breach_notification_hours := 72;
            allows_cross_border_transfer := true;
            requires_sub_processor_approval := true |};
       termination :=
         {| min_notice_period_days := 60;
            allows_termination_for_convenience := true;
            requires_data_return_on_termination := true |};
       forbidden_clauses :=
         [ {| pattern := "(?i)non-?compete";
              reason := "Non-compete clauses are not acceptable in this MSA.";
              fc_severity := HIGH |};
           {| pattern := "(?i)automatic\s+renewal";
              reason := "Auto-renewal without explicit consent is risky.";
              fc_severity := MEDIUM |} ];
       required_source_ids := [];
       max_clause_length := 500 |}.

Definition get_privacy_review_constraints : Res ContractConstraints :=
  liability ← validate_liability_cap
    {| max_liability_amount := None;
       liability_cap_multiple_of_fees := None;
       allows_consequential_damages := false;
       allows_unlimited_liability := true |};
  mret
    {| contract_type := PRIVACY_POLICY;
       governing_jurisdiction := EU;
       liability := liability;
       data_protection :=
         {| required_jurisdiction := EU;
            requires_gdpr_compliance := true;
            max_data_retention_days := Some 2555%Z;
            requires_breach_notification := true;
            max_breach_notification_hours := 72;
            allows_cross_border_transfer := true;
            requires_sub_processor_approval := true |};
       termination :=
         {| min_notice_period_days := 30;
            allows_termination_for_convenience := true;
            requires_data_return_on_termination := true |};
       forbidden_clauses :=
         [ {| pattern := "(?i)sell.*your.*data";
              reason := "Claiming to sell user data violates GDPR principles.";
              fc_severity := CRITICAL |} ];
       required_source_ids := ["Priv-4.1"; "Priv-6.1"];
       max_clause_length := 500 |}.

(** [GenerateRequest] and [GenerateResponse]; the prefixes [req_] and
    [resp_] tell their fields from those of the profile and of the result
    of a run. *)
Record GenerateRequest : Type := {
  prompt : string;
  req_contract_type : ContractType;
  jurisdiction : Jurisdiction;
  preset : option string;
}.

Record GenerateResponse : Type := {
  resp_success : bool;
  resp_total_attempts : Z;
  resp_output : option PyVal;
  resp_validation : option PyVal;
  error : option string;
}.

(** [PRESET_MAP]: each name with what calling its factory gives *)
Definition PRESET_MAP : gmap string (Res ContractConstraints) :=
  {[ "dpa" := get_dpa_review_constraints;
     "msa" := get_msa_review_constraints;
     "privacy" := get_privacy_review_constraints ]}.

(** [ContractConstraints(contract_type=..., governing_jurisdiction=...)] *)
Definition new_ContractConstraints (contract_type : ContractType)
    (jurisdiction : Jurisdiction) : Res ContractConstraints :=
  let profile := default_constraints contract_type jurisdiction in
  _ ← validate_liability_cap (liability profile);
  mret profile.

Definition _resolve_constraints (request : GenerateRequest)
    : Res ContractConstraints :=
  let named :=
    match preset request with
    | Some name =>
        if Py.truthy name then PRESET_MAP !! Py.lower name else None
    | None => None
    end in
  match named with
  | Some profile => profile
  | None =>
      new_ContractConstraints (req_contract_type request) (jurisdiction request)
  end.

(** How a call of the endpoint ends: with a response, with an
    [HTTPException] of the endpoint, or with an exception the endpoint
    does not catch. *)
Inductive Answer : Type :=
| Response (response : GenerateResponse)
| HTTPException (status_code : Z) (detail : string)
| Uncaught (e : Exn).

(** The body of the endpoint [generate], after the API key and the rate
    limit have let the request through *)
Definition generate (E : Env) (body : GenerateRequest) (s : Sys E)
    : Answer * Sys E :=
  match _resolve_constraints body with
  | Raise e => (Uncaught e, s)
  | Ok constraints =>
      match run_agent_sync E (prompt body) constraints s with
      | (Raise e, s') =>
          (HTTPException 500 "Generation failed. Please try again.", s')
      | (Ok result, s') =>
          (Response
             {| resp_success := success result;
                resp_total_attempts := total_attempts result;
                resp_output := AgentOutput_model_dump <$> output result;
                resp_validation :=
                  Some (ValidationResult_model_dump (validation result));
                error := error_message result |}, s')
      end
  end.

(** A request that names no preset, and one that names the MSA preset *)
Definition plain_request : GenerateRequest :=
  {| prompt := "Draft a breach notification clause.";
     req_contract_type := DPA; jurisdiction := EU; preset := None |}.

Definition msa_request (name : string) (contract_type : ContractType)
    (jurisdiction : Jurisdiction) : GenerateRequest :=
  {| prompt := "Review the termination clause.";
     req_contract_type := contract_type; jurisdiction := jurisdiction;
     preset := Some name |}.

(** The requests name the same preset up to letter case, and it is one of
    the presets. *)
Definition same_known_preset (request request' : GenerateRequest) : Prop :=
  ∃ name name',
    preset request = Some name ∧ preset request' = Some name'
    ∧ Py.lower name = Py.lower name'
    ∧ Py.lower name ∈ ["dpa"; "msa"; "privacy"].


(* ===================================================================== *)
(** * [app/core/security.py]: storage policies                            *)
(* ===================================================================== *)

(** The classes [[a-zA-Z0-9_\-]] and [[a-zA-Z0-9_.\-]] *)
Definition safe_id_char (a : ascii) : bool :=
  let n := Py.code a in
  ((48 <=? n) && (n <=? 57) || (65 <=? n) && (n <=? 90)
   || (97 <=? n) && (n <=? 122) || (n =? 95) || (n =? 45))%N.

Definition safe_name_char (a : ascii) : bool :=
  safe_id_char a || (Py.code a =? 46)%N.

(** The slash and the backslash *)
Definition is_slash (a : ascii) : bool :=
  (Py.code a =? 47)%N || (Py.code a =? 92)%N.

Definition backslash : ascii := Ascii.ascii_of_N 92.

(** The characters of [s] that satisfy [p]: [re.sub] of the complement of
    a class with the empty string, [s.replace(c, "")] for one character *)
Fixpoint filter_chars (p : ascii → bool) (s : string) : string :=
  match s with
  | EmptyString => EmptyString
  | String a s' =>
      if p a then String a (filter_chars p s') else filter_chars p s'
  end.

(** [_PATH_TRAVERSAL_PATTERN = re.compile(r"\.\.[/\\]")] *)
Definition _PATH_TRAVERSAL_PATTERN : Re.regex :=
  Re.Cat (Re.Lit "..") (Re.Chr is_slash).

(** [_SAFE_FILENAME_PATTERN.match(s)] for
    [r"^[a-zA-Z0-9_\-][a-zA-Z0-9_.\-]*$"]: without [re.MULTILINE] the [$]
    matches at the end of the text and before a line feed that ends it. *)
Fixpoint safe_name_tail (s : string) : bool :=
  match s with
  | EmptyString => true
  | String a s' =>
      if safe_name_char a then safe_name_tail s'
      else Ascii.eqb a Py.newline && negb (Py.truthy s')
  end.

Definition _SAFE_FILENAME_PATTERN_match (s : string) : bool :=
  match s with
  | EmptyString => false
  | String a s' => safe_id_char a && safe_name_tail s'
  end.

(** [sanitize_filename], under the setting [ALLOWED_FILE_EXTENSIONS];
    [clean.rsplit(".", 1)[-1]], the text after the last dot, is the last
    part of [clean.split(".")]. *)
Definition sanitize_filename (ALLOWED_FILE_EXTENSIONS : list string)
    (filename : string) : Res string :=
  if negb (Py.truthy filename) || negb (Py.truthy (Py.strip filename)) then
    Raise (ValueError "Filename cannot be empty")
  else
    let clean :=
      Py.strip
        (filter_chars (λ a, negb (Ascii.eqb a backslash))
           (filter_chars (λ a, negb (Ascii.eqb a "/")) filename)) in
    if found (Re.search _PATH_TRAVERSAL_PATTERN filename) then
      Raise (ValueError "Path traversal detected in filename")
    else if negb (_SAFE_FILENAME_PATTERN_match clean) then
      Raise (ValueError ("Unsafe filename characters: " +:+ clean))
    else
      let ext :=
        if Py.contains "." clean
        then "." +:+ Py.lower (default EmptyString
                                 (last (Py.split_char "." clean)))
        else EmptyString in
      if Py.truthy ext && negb (bool_decide (ext ∈ ALLOWED_FILE_EXTENSIONS))
      then Raise (ValueError ("File extension '" +:+ ext +:+ "' not allowed"))
      else Ok clean.

Definition get_user_storage_path (user_id : string) : Res string :=
  let safe_id := filter_chars safe_id_char user_id in
  if negb (Py.truthy safe_id) then
    Raise (ValueError "Invalid user ID for storage path")
  else Ok ("uploads/" +:+ safe_id).

(** [file_path.replace("\\", "/")] *)
Definition normalized (file_path : string) : string :=
  Py.map_chars (λ a, if Ascii.eqb a backslash then "/"%char else a) file_path.

Definition validate_file_access (user_id file_path : string) : Res bool :=
  expected_prefix ← get_user_storage_path user_id;
  if found (Re.search _PATH_TRAVERSAL_PATTERN (normalized file_path)) then
    Ok false
  else if negb (Py.startswith (normalized file_path) expected_prefix) then
    Ok false
  else Ok true.

(** The character is not a colon *)
Definition not_colon (a : ascii) : bool := negb (Ascii.eqb a ":").

(* ===================================================================== *)
(** * Facts about the matcher                                             *)
(* ===================================================================== *)





(* ===================================================================== *)
(** * Ingestion: section headings of citations                            *)
(* ===================================================================== *)









(** C8: the document of the scenario yields exactly two citations, [A.1]
    with text ["Text one."] and [A.2] with text ["Text two."], both in
    section ["Introduction"]. *)
Theorem two_anchor_document_citations (document_name : string) :
  _parse_citations two_anchor_document document_name =
    {[ "A.1" := {| cit_source_id := "A.1"; cit_text := "Text one.";
                   cit_document_name := document_name;
                   section_heading := "Introduction" |};
       "A.2" := {| cit_source_id := "A.2"; cit_text := "Text two.";
                   cit_document_name := document_name;
                   section_heading := "Introduction" |} ]}.
Proof. vm_compute. reflexivity. Qed.

(* ===================================================================== *)
(** * The Validation Engine                                               *)
(* ===================================================================== *)

Lemma length_zero_nil {A} (l : list A) :
  Nat.eqb (length l) 0 = bool_decide (l = []).
Proof. by destruct l. Qed.

(** The result of [validate_output], when it returns one, in closed form *)
Lemma validate_output_unfold E output constraints :
  validate_output E output constraints =
    forbidden ← _check_forbidden_clauses E output constraints;
    let all :=
      _check_jurisdiction output constraints
      ++ forbidden
      ++ _check_required_citations output constraints
      ++ _check_liability output constraints
      ++ _check_data_protection output constraints
      ++ _check_clause_length output constraints in
    Ok {| is_valid := bool_decide (all = []);
          violations := all;
          attempt_number := 1 |}.
Proof.
  unfold validate_output.
  destruct (_check_forbidden_clauses E output constraints) as [forbidden|e];
    simpl; [|done].
  unfold mret, Res_ret, new_ValidationResult.
  rewrite length_zero_nil, <- !app_assoc. done.
Qed.

Lemma validate_output_valid_iff E output constraints vr :
  validate_output E output constraints = Ok vr →
  is_valid vr = true ↔ violations vr = [].
Proof.
  rewrite validate_output_unfold.
  destruct (_check_forbidden_clauses E output constraints) as [forbidden|e];
    simpl; [|done].
  intros [= <-]. simpl. by rewrite bool_decide_eq_true.
Qed.

(** C7: for every output and profile, [validate_output] runs the six
    checks in the order jurisdiction, forbidden patterns, required
    citations, liability, data protection, clause length, and the
    violation list it returns is the concatenation of the lists of the
    six checks in that order, so every violation of every check is
    reported.  (A forbidden pattern that does not compile makes the second
    check, and with it the validation, raise.) *)
Theorem validate_output_concatenates_checks (E : Env)
    (output : AgentOutput) (constraints : ContractConstraints) :
  validate_output E output constraints =
    match _check_forbidden_clauses E output constraints with
    | Raise e => Raise e
    | Ok forbidden =>
        let all :=
          _check_jurisdiction output constraints
          ++ forbidden
          ++ _check_required_citations output constraints
          ++ _check_liability output constraints
          ++ _check_data_protection output constraints
          ++ _check_clause_length output constraints in
        Ok {| is_valid := bool_decide (all = []);
              violations := all;
              attempt_number := 1 |}
    end.
Proof.
  rewrite validate_output_unfold.
  by destruct (_check_forbidden_clauses E output constraints).
Qed.

(** C10: the clause texts are joined with one space before the phrase
    checks, and the liability check reads nothing of an output but the
    text so joined; so a phrase may be found across a clause boundary.
    There is an output of two clauses, the first ending with
    ["unlimited"] and the second beginning with ["liability"], neither of
    which contains the phrase ["unlimited liability"] (nor matches the
    pattern of the check), for which [validate_output], under a profile
    that does not allow unlimited liability, reports the CRITICAL
    liability violation, while it reports no liability violation for
    either clause taken alone: the violation comes of the joining. *)
Theorem liability_phrase_found_across_clauses (E : Env) :
  (∀ output, _get_full_text output = Py.join " " (text <$> clauses output))
  ∧ (∀ output output' constraints,
       Py.join " " (text <$> clauses output)
       = Py.join " " (text <$> clauses output') →
       _check_liability output constraints
       = _check_liability output' constraints)
  ∧ ∃ (output : AgentOutput) (constraints : ContractConstraints)
      (first second : GeneratedClause) (before after : string)
      (vr : ValidationResult),
      schema_valid output ∧
      profile_valid constraints ∧
      clauses output = [first; second] ∧
      text first = before +:+ "unlimited" ∧
      text second = "liability" +:+ after ∧
      _get_full_text output = text first +:+ " " +:+ text second ∧
      Forall (λ clause,
                Py.contains "unlimited liability" (Py.lower (text clause)) = false
                ∧ found (Re.search UNLIMITED_LIABILITY_PATTERN
                           (Py.lower (text clause))) = false)
             (clauses output) ∧
      allows_unlimited_liability (liability constraints) = false ∧
      validate_output E output constraints = Ok vr ∧
      unlimited_liability_violation ∈ violations vr ∧
      severity unlimited_liability_violation = CRITICAL ∧
      Forall (λ clause,
                _check_liability (with_only_clause output clause) constraints
                  = []
                ∧ ∃ alone,
                    validate_output E (with_only_clause output clause)
                      constraints = Ok alone
                    ∧ unlimited_liability_violation ∉ violations alone)
             (clauses output).
Proof.
  split; [done|]. split.
  { intros output output' constraints Hsame.
    unfold _check_liability, _get_full_text. by rewrite Hsame. }
  exists split_phrase_output, sample_profile.
  eexists _, _,
    "Under GDPR the liability of the Processor is capped and is never ",
    " for a late breach notification follows the same cap.", _.
  split; [repeat split; try (repeat constructor; fail); vm_compute;
          reflexivity || discriminate|].
  split; [reflexivity|].
  split; [reflexivity|].
  split; [reflexivity|].
  split; [reflexivity|].
  split; [reflexivity|].
  split; [repeat constructor; vm_compute; reflexivity|].
  split; [reflexivity|].
  split; [vm_compute; reflexivity|].
  split; [apply list_elem_of_here|].
  split; [reflexivity|].
  repeat constructor; try (vm_compute; reflexivity).
  - eexists. split; [vm_compute; reflexivity|].
    intros Hin.
    repeat (apply elem_of_cons in Hin as [Hin|Hin]; [discriminate|]).
    by apply elem_of_nil in Hin.
  - eexists. split; [vm_compute; reflexivity|].
    intros Hin.
    repeat (apply elem_of_cons in Hin as [Hin|Hin]; [discriminate|]).
    by apply elem_of_nil in Hin.
Qed.

(* ===================================================================== *)
(** * The agent loop: one pass                                            *)
(* ===================================================================== *)

Section AgentFacts.
Context (E : Env).
Implicit Types (s : Sys E) (vars : LoopVars) (result : AgentResult).

Lemma bind_run {A B} (m : M E A) (f : A → M E B) s :
  (a ← m; f a) s =
    match m s with
    | (Ok a, s') => f a s'
    | (Raise e, s') => (Raise e, s')
    end.
Proof. reflexivity. Qed.

Lemma emit_run events st msg d s :
  emit E events st msg d s = (Ok (events ++ [event_at E s st msg d]), tick E s).
Proof. reflexivity. Qed.

Lemma calls_tick s : calls (tick E s) = calls s.
Proof. reflexivity. Qed.

(** The gateway makes one call to the provider, whatever comes of it. *)
Lemma generate_structured_output_calls system_prompt user_prompt s r s' :
  generate_structured_output E system_prompt user_prompt s = (r, s') →
  calls s' = calls s ++ [CallGenerate system_prompt user_prompt].
Proof.
  unfold generate_structured_output. rewrite bind_run.
  unfold call_generate_completion.
  destruct (generate_completion E _ _ _) as [[raw|e] w]; [|by intros [= _ <-]].
  destruct (json_loads E raw) as [d|reason|e]; [|by intros [= _ <-]..].
  destruct (model_validate E d) as [out|e]; by intros [= _ <-].
Qed.

Lemma reports_format_error_raises system_prompt user_prompt s msg s' :
  reports_format_error E system_prompt user_prompt s msg s' →
  generate_structured_output E system_prompt user_prompt s
    = (Raise (ValueError msg), s').
Proof.
  intros (raw & w & Hraw & -> & Hbad).
  unfold generate_structured_output. rewrite bind_run.
  unfold call_generate_completion. rewrite Hraw.
  destruct Hbad as [(reason & -> & ->)|(d & e & -> & -> & ->)]; reflexivity.
Qed.

(** Case analysis of one pass of the loop: on what the gateway answers,
    on what the validation finds, on whether attempts remain. *)
Ltac body_cases Hgen Hval Hvalid Hlt :=
  unfold attempt_body;
  rewrite bind_run, emit_run, bind_run; unfold catch at 1;
  match goal with
  | |- context [generate_structured_output E ?sp ?p ?s0] =>
      destruct (generate_structured_output E sp p s0)
        as [[?out|[?msg|?msg]] ?s1] eqn:Hgen
  end;
  [ rewrite bind_run, emit_run, bind_run, emit_run, bind_run;
    unfold lift at 1;
    match goal with
    | |- context [validate_output E ?o ?c] =>
        destruct (validate_output E o c) as [?vr|?e] eqn:Hval
    end;
    [ cbn [is_valid violations];
      match goal with
      | |- context [is_valid ?v] => destruct (is_valid v) eqn:Hvalid
      end;
      [ rewrite bind_run, emit_run, bind_run, emit_run
      | rewrite bind_run, emit_run;
        match goal with
        | |- context [(?a <? ?b)%Z] => destruct (Z.ltb_spec a b) as [Hlt|Hlt]
        end;
        rewrite bind_run, emit_run ]
    | ]
  | rewrite bind_run, emit_run;
    match goal with
    | |- context [(?a <? ?b)%Z] => destruct (Z.ltb_spec a b) as [Hlt|Hlt]
    end
  | ].

(** A pass that returns either succeeded on a draft the validator accepts,
    or met a gateway error on the last attempt. *)
Lemma attempt_body_return user_prompt constraints system_prompt
    max_retries attempt vars s result s' :
  attempt_body E user_prompt constraints system_prompt max_retries attempt
    vars s = (Ok (Return result), s') →
  (success result = true ∧
   ∃ out vr, output result = Some out ∧
     validate_output E out constraints = Ok vr ∧ is_valid vr = true ∧
     validation result = stamped vr attempt ∧ total_attempts result = attempt)
  ∨ (success result = false ∧ output result = None ∧
     validation result = new_ValidationResult false [] ∧
     total_attempts result = attempt).
Proof.
  body_cases Hgen Hval Hvalid Hlt; intros [= <- <-] || (intros; discriminate).
  - left. split; [done|]. exists out, vr.
    unfold stamped. rewrite Hvalid. done.
  - right. done.
Qed.

Lemma attempt_body_continue user_prompt constraints system_prompt
    max_retries attempt vars s vars' s' :
  attempt_body E user_prompt constraints system_prompt max_retries attempt
    vars s = (Ok (Continue vars'), s') →
  rejected_so_far vars → rejected_so_far vars'.
Proof.
  body_cases Hgen Hval Hvalid Hlt; intros [= <- <-] || (intros; discriminate);
    intros Hrej v; cbn; try (intros [= <-]; done).
  apply Hrej.
Qed.

Lemma error_without_data_snoc events s st msg d :
  Forall error_without_data events →
  (st = ERROR → d = None) →
  Forall error_without_data (events ++ [event_at E s st msg d]).
Proof.
  intros Hall Hnew. apply Forall_app. split; [done|].
  by apply Forall_singleton.
Qed.

Lemma attempt_body_events user_prompt constraints system_prompt
    max_retries attempt vars s step s' :
  attempt_body E user_prompt constraints system_prompt max_retries attempt
    vars s = (Ok step, s') →
  Forall error_without_data (loop_events vars) →
  match step with
  | Continue vars' => Forall error_without_data (loop_events vars')
  | Return result => Forall error_without_data (events result)
  end.
Proof.
  body_cases Hgen Hval Hvalid Hlt; intros [= <- <-] || (intros; discriminate);
    intros Hall; cbn; repeat (apply error_without_data_snoc; [|done]); done.
Qed.

(* ===================================================================== *)
(** * The agent loop: the loop and the run                                *)
(* ===================================================================== *)

(** The invariant rule of the loop: a property of the loop variables that
    every continuing pass keeps, and a property every returning pass
    establishes, hold of whatever the loop ends with. *)
Lemma attempts_loop_rule (I : LoopVars → Prop) (Q : AgentResult → Prop)
    user_prompt constraints system_prompt max_retries :
  (∀ attempt vars s vars' s',
     attempt_body E user_prompt constraints system_prompt max_retries attempt
       vars s = (Ok (Continue vars'), s') → I vars → I vars') →
  (∀ attempt vars s result s',
     attempt_body E user_prompt constraints system_prompt max_retries attempt
       vars s = (Ok (Return result), s') → I vars → Q result) →
  ∀ remaining attempt vars s step s',
    attempts_loop E user_prompt constraints system_prompt max_retries
      remaining attempt vars s = (Ok step, s') →
    I vars →
    match step with
    | Continue vars' => I vars'
    | Return result => Q result
    end.
Proof.
  intros Hkeep Hret. induction remaining as [|remaining IH];
    intros attempt vars s step s'; simpl.
  - intros [= <- <-]. done.
  - rewrite bind_run.
    destruct (attempt_body E _ _ _ _ _ _ _) as [[[vars1|result]|e] s1] eqn:Hbody;
      [| |done].
    + intros Hloop Hvars. eapply IH; [exact Hloop|]. by eapply Hkeep.
    + intros [= <- <-] Hvars. by eapply Hret.
Qed.

(** What a run that returns has gone through. *)
Lemma run_agent_sync_inv user_prompt constraints s result s' :
  run_agent_sync E user_prompt constraints s = (Ok result, s') →
  let s0 := tick E (tick E s) in
  let events0 :=
    [event_at E s INITIALIZING "Starting legal analysis agent..." None;
     event_at E (tick E s) RETRIEVING "Retrieving relevant source documents..." None] in
  (∃ e s1, _get_relevant_context E constraints s0 = (Raise e, s1) ∧
     s' = tick E s1 ∧
     result = {| output := None;
                 validation := new_ValidationResult false [];
                 events := events0 ++ [event_at E s1 ERROR
                             ("Failed to retrieve context: " +:+ str_exn e) None];
                 total_attempts := 0;
                 success := false;
                 error_message := Some (str_exn e) |})
  ∨ (∃ source_context s1 step,
       _get_relevant_context E constraints s0 = (Ok source_context, s1) ∧
       loop_from E user_prompt constraints
         (_build_system_prompt E constraints source_context)
         (MAX_VALIDATION_RETRIES E) 1
         {| current_prompt := user_prompt; last_output := None;
            last_validation := None;
            loop_events := events0 ++ [event_at E s1 RETRIEVING
              ("Retrieved context for "
               +:+ ContractType_value (contract_type constraints))
              (Some [("context_length",
                      PyInt (Z.of_nat (String.length source_context)))])] |}
         (tick E s1) = (Ok step, s') ∧
       result = after_loop (MAX_VALIDATION_RETRIES E) step).
Proof.
  unfold run_agent_sync.
  rewrite bind_run, emit_run, bind_run, emit_run, bind_run. unfold catch at 1.
  destruct (_get_relevant_context E constraints _) as [[ctx|e] s1] eqn:Hctx.
  - rewrite bind_run, emit_run. unfold run_from. rewrite bind_run.
    destruct (loop_from E _ _ _ _ _ _ _) as [[step|e] s2] eqn:Hloop; [|done].
    intros [= <- <-]. right. by exists ctx, s1, step.
  - rewrite bind_run, emit_run. intros [= <- <-]. left. by exists e, s1.
Qed.

(** What holds of every result a run returns, from an invariant of the
    loop. *)
Lemma run_agent_sync_rule (I : LoopVars → Prop) (Q : AgentResult → Prop)
    user_prompt constraints s result s' :
  (∀ system_prompt attempt vars s vars' s',
     attempt_body E user_prompt constraints system_prompt
       (MAX_VALIDATION_RETRIES E) attempt vars s = (Ok (Continue vars'), s') →
     I vars → I vars') →
  (∀ system_prompt attempt vars s result s',
     attempt_body E user_prompt constraints system_prompt
       (MAX_VALIDATION_RETRIES E) attempt vars s = (Ok (Return result), s') →
     I vars → Q result) →
  (∀ events, Forall error_without_data events →
     I {| current_prompt := user_prompt; last_output := None;
          last_validation := None; loop_events := events |}) →
  (∀ e events, Forall error_without_data events →
     Q {| output := None; validation := new_ValidationResult false [];
          events := events; total_attempts := 0; success := false;
          error_message := Some (str_exn e) |}) →
  (∀ vars msg, I vars →
     Q {| output := last_output vars;
          validation := match last_validation vars with
                        | Some v => v
                        | None => new_ValidationResult false []
                        end;
          events := loop_events vars;
          total_attempts := MAX_VALIDATION_RETRIES E;
          success := false;
          error_message := Some msg |}) →
  run_agent_sync E user_prompt constraints s = (Ok result, s') →
  Q result.
Proof.
  intros Hkeep Hret Hinit Hfail Hexhaust
    [(e & s1 & _ & _ & ->)|(ctx & s1 & step & _ & Hloop & Hstep)]%run_agent_sync_inv.
  - apply Hfail. by repeat constructor.
  - unfold loop_from in Hloop.
    eapply (attempts_loop_rule I Q) in Hloop; eauto.
    + destruct step as [vars|r]; subst result; [by apply Hexhaust|done].
    + apply Hinit. by repeat constructor.
Qed.

End AgentFacts.

(* ===================================================================== *)
(** * Results of a run                                                    *)
(* ===================================================================== *)

(** C9: a run that returns [success=True] returns an output, a validation
    result with [is_valid=True], and the attempt number of that validation
    result is the number of attempts of the run. *)
Theorem successful_run_is_validated (E : Env) (user_prompt : string)
    (constraints : ContractConstraints) (s s' : Sys E) (result : AgentResult) :
  run_agent_sync E user_prompt constraints s = (Ok result, s') →
  success result = true →
  ∃ out, output result = Some out ∧
    is_valid (validation result) = true ∧
    attempt_number (validation result) = total_attempts result.
Proof.
  apply (run_agent_sync_rule E (λ _, True)
           (λ r, success r = true →
                 ∃ out, output r = Some out ∧ is_valid (validation r) = true ∧
                        attempt_number (validation r) = total_attempts r));
    try done.
  intros system_prompt attempt vars s0 r s1 Hbody _ Hsuccess.
  apply attempt_body_return in Hbody
    as [(_ & out & vr & Hout & _ & Hvalid & -> & ->)|(Hfail & _)];
    [|congruence].
  by exists out.
Qed.

Lemma successful_run_is_validated_witness :
  ∃ result s',
    run_agent_sync env_second_good "Draft a breach notification clause."
      sample_profile (start_of env_second_good (0, 0%float)) = (Ok result, s') ∧
    success result = true ∧
    total_attempts result = 2%Z ∧
    ∃ out, output result = Some out ∧
      is_valid (validation result) = true ∧
      attempt_number (validation result) = total_attempts result.
Proof.
  eexists _, _. split; [vm_compute; reflexivity|].
  split; [reflexivity|]. split; [reflexivity|].
  eapply (successful_run_is_validated env_second_good
            "Draft a breach notification clause." sample_profile
            (start_of env_second_good (0, 0%float)));
    [vm_compute; reflexivity|reflexivity].
Defined.

(** C1 (as amended): a validation result the Validation Engine returns has
    [is_valid] true if and only if its violation list is empty.  The
    validation result inside the result of a run has [is_valid] true if
    and only if its violation list is empty and the run succeeded: a run
    that fails before a draft was validated carries [is_valid=False] with
    an empty list. *)
Theorem validity_of_validation_results (E : Env) :
  (∀ output constraints vr,
     validate_output E output constraints = Ok vr →
     is_valid vr = true ↔ violations vr = [])
  ∧ (∀ user_prompt constraints (s s' : Sys E) result,
       run_agent_sync E user_prompt constraints s = (Ok result, s') →
       is_valid (validation result) = true
       ↔ violations (validation result) = [] ∧ success result = true).
Proof.
  split; [apply validate_output_valid_iff|].
  intros user_prompt constraints s s' result.
  apply (run_agent_sync_rule E rejected_so_far
           (λ r, is_valid (validation r) = true
                 ↔ violations (validation r) = [] ∧ success r = true)).
  - intros. by eapply attempt_body_continue.
  - intros system_prompt attempt vars s0 r s1 Hbody _.
    apply attempt_body_return in Hbody
      as [(Hsucc & out & vr & _ & Hval & Hvalid & -> & _)
         |(Hfail & _ & -> & _)].
    + simpl. rewrite Hsucc, Hvalid.
      apply validate_output_valid_iff in Hval.
      split; [intros _; split; [by apply Hval|done]|done].
    + rewrite Hfail. simpl. split; [done|by intros [_ ?]].
  - intros events _ v. discriminate.
  - intros. simpl. split; [done|by intros [_ ?]].
  - intros vars msg Hrej. simpl.
    destruct (last_validation vars) as [v|] eqn:Hlast; simpl.
    + rewrite (Hrej v Hlast). split; [done|by intros [_ ?]].
    + split; [done|by intros [_ ?]].
Qed.

Lemma validity_of_validation_results_witness :
  (∃ vr, validate_output env_always_wrong wrong_output sample_profile = Ok vr
         ∧ (is_valid vr = true ↔ violations vr = []))
  ∧ (∃ result s',
       run_agent_sync env_second_good "Draft a breach notification clause."
         sample_profile (start_of env_second_good (0, 0%float))
         = (Ok result, s') ∧
       (is_valid (validation result) = true
        ↔ violations (validation result) = [] ∧ success result = true)).
Proof.
  destruct (validity_of_validation_results env_always_wrong) as [Hengine _].
  destruct (validity_of_validation_results env_second_good) as [_ Hrun].
  split.
  - eexists. split; [vm_compute; reflexivity|].
    apply (Hengine wrong_output sample_profile). vm_compute. reflexivity.
  - eexists _, _. split; [vm_compute; reflexivity|].
    eapply (Hrun "Draft a breach notification clause." sample_profile
              (start_of env_second_good (0, 0%float))).
    vm_compute. reflexivity.
Defined.

(** C1 (as stated) fails: when the document directory is missing, the run
    returns a validation result with [is_valid=False] and no violation. *)
Lemma failed_run_is_invalid_without_violations :
  ∃ result s',
    run_agent_sync env_no_documents "Draft a breach notification clause."
      sample_profile (start_of env_no_documents (0, 0%float)) = (Ok result, s') ∧
    is_valid (validation result) = false ∧
    violations (validation result) = [] ∧
    ¬ (is_valid (validation result) = true ↔ violations (validation result) = []).
Proof.
  eexists _, _. split; [vm_compute; reflexivity|].
  split; [reflexivity|]. split; [reflexivity|].
  simpl. intros [_ H]. specialize (H eq_refl). discriminate.
Qed.

(* ===================================================================== *)
(** * The streaming projection                                            *)
(* ===================================================================== *)

Lemma yield_loop_app todo : ∀ yielded,
  yield_loop todo yielded =
    yielded ++ ((λ event, if bool_decide (state event = ERROR)
                          then sanitized event else event) <$> todo).
Proof.
  induction todo as [|event todo IH]; intros yielded; simpl.
  - by rewrite app_nil_r.
  - by rewrite IH, <- app_assoc.
Qed.

(** On a trace whose [ERROR] events carry no data, what the loop of the
    projection yields is the trace with its messages redacted. *)
Lemma yield_loop_redacts trace :
  Forall error_without_data trace →
  yield_loop trace [] = redact_message <$> trace.
Proof.
  intros Hall. rewrite yield_loop_app. simpl.
  apply Forall_fmap_ext_1. eapply Forall_impl; [exact Hall|].
  intros event Hevent. unfold redact_message, sanitized.
  case_bool_decide as Hstate; [|done]. by rewrite (Hevent Hstate).
Qed.

Lemma run_agent_sync_trace E user_prompt constraints (s s' : Sys E) result :
  run_agent_sync E user_prompt constraints s = (Ok result, s') →
  Forall error_without_data (events result)
  ∧ (success result = true → is_Some (output result)).
Proof.
  apply (run_agent_sync_rule E
           (λ vars, Forall error_without_data (loop_events vars))
           (λ r, Forall error_without_data (events r)
                 ∧ (success r = true → is_Some (output r)))); try done.
  - intros system_prompt attempt vars s0 vars' s1 Hbody Hall.
    exact (attempt_body_events E _ _ _ _ _ _ _ (Continue vars') _ Hbody Hall).
  - intros system_prompt attempt vars s0 r s1 Hbody Hall. split.
    + exact (attempt_body_events E _ _ _ _ _ _ _ (Return r) _ Hbody Hall).
    + apply attempt_body_return in Hbody
        as [(_ & out & _ & -> & _)|(-> & _)]; [by eauto|done].
Qed.

(** C3: for every prompt and profile, the events [run_agent_streaming]
    yields are the events [run_agent_sync] recorded, in the order they
    were emitted, with the message of every [ERROR] event replaced by the
    generic phrase, followed by one final event that carries the dumped
    validation result together with the dumped output (on success) or with
    the number of attempts (on failure).  Nothing else is done: the
    projection reads the clock once more, for the final event, and raises
    what the synchronous run raises. *)
Theorem streaming_replays_sync_trace (E : Env) (user_prompt : string)
    (constraints : ContractConstraints) (s : Sys E) :
  match run_agent_sync E user_prompt constraints s with
  | (Ok result, s') =>
      ∃ final,
        run_agent_streaming E user_prompt constraints s
          = (Ok ((redact_message <$> events result) ++ [final]), tick E s') ∧
        carries_outcome result final
  | (Raise e, s') =>
      run_agent_streaming E user_prompt constraints s = (Raise e, s')
  end.
Proof.
  unfold run_agent_streaming. rewrite bind_run.
  destruct (run_agent_sync E user_prompt constraints s)
    as [[result|e] s'] eqn:Hrun; [|done].
  apply run_agent_sync_trace in Hrun as [Htrace Hout].
  rewrite (yield_loop_redacts _ Htrace).
  destruct (success result) eqn:Hsuccess.
  - destruct (Hout eq_refl) as [out Hsome]. rewrite Hsome.
    eexists. split; [reflexivity|].
    eexists. split; [reflexivity|]. split; [reflexivity|].
    rewrite Hsuccess. by exists out.
  - eexists. split; [reflexivity|].
    eexists. split; [reflexivity|]. split; [reflexivity|].
    by rewrite Hsuccess.
Qed.

(* ===================================================================== *)
(** * Failures of the collaborators                                       *)
(* ===================================================================== *)

(** C5: when the retrieval of the context fails (the document store
    raises when the run asks it for its chunks), [run_agent_sync] returns
    a failed result with zero attempts and no output, whose trace ends
    with its only [ERROR] event; the store was called once and the
    generation gateway not at all. *)
Theorem context_retrieval_failure_ends_run (E : Env) (user_prompt : string)
    (constraints : ContractConstraints) (s : Sys E) (e : Exn) (w' : World E) :
  get_all_chunks E (world (tick E (tick E s))) = (Raise e, w') →
  ∃ result s' earlier failure,
    run_agent_sync E user_prompt constraints s = (Ok result, s') ∧
    success result = false ∧
    total_attempts result = 0%Z ∧
    output result = None ∧
    error_message result = Some (str_exn e) ∧
    events result = earlier ++ [failure] ∧
    state failure = ERROR ∧
    Forall (λ event, state event ≠ ERROR) earlier ∧
    calls s' = calls s ++ [CallRetrieve] ∧
    gateway_calls (calls s') = gateway_calls (calls s).
Proof.
  intros Hstore. unfold run_agent_sync.
  rewrite bind_run, emit_run, bind_run, emit_run, bind_run. unfold catch at 1.
  unfold _get_relevant_context at 1. rewrite bind_run.
  unfold call_get_all_chunks at 1. rewrite Hstore.
  rewrite bind_run, emit_run.
  eexists _, _, [_; _], _. split; [reflexivity|].
  repeat (split; [reflexivity|]).
  split; [by repeat constructor|].
  split; [reflexivity|].
  unfold gateway_calls. simpl. rewrite filter_app. simpl.
  by rewrite app_nil_r.
Qed.

Lemma context_retrieval_failure_ends_run_witness :
  ∃ result s' earlier failure,
    run_agent_sync env_no_documents "Draft a breach notification clause."
      sample_profile (start_of env_no_documents (0, 0%float)) = (Ok result, s') ∧
    success result = false ∧
    total_attempts result = 0%Z ∧
    output result = None ∧
    error_message result
      = Some "Source documents directory not found: data/source_documents" ∧
    events result = earlier ++ [failure] ∧
    state failure = ERROR ∧
    Forall (λ event, state event ≠ ERROR) earlier ∧
    calls s' = [CallRetrieve] ∧
    gateway_calls (calls s') = [].
Proof.
  apply (context_retrieval_failure_ends_run env_no_documents
           "Draft a breach notification clause." sample_profile
           (start_of env_no_documents (0, 0%float))
           (OtherError "Source documents directory not found: data/source_documents")
           (0, 2%float)).
  vm_compute. reflexivity.
Defined.

Section GatewayFailure.
Context (E : Env).

Lemma attempt_body_format_error user_prompt constraints system_prompt
    max_retries attempt vars (s s1 : Sys E) msg :
  generate_structured_output E system_prompt (current_prompt vars) (tick E s)
    = (Raise (ValueError msg), s1) →
  let trace :=
    loop_events vars
    ++ [event_at E s DRAFTING
          ("Generating draft (attempt " +:+ Py.str_Z attempt +:+ "/"
           +:+ Py.str_Z max_retries +:+ ")...")
          (Some [("attempt", PyInt attempt)])]
    ++ [event_at E s1 ERROR ("LLM output error: " +:+ msg) None] in
  attempt_body E user_prompt constraints system_prompt max_retries attempt
    vars s =
    (Ok (if (attempt <? max_retries)%Z
         then Continue {| current_prompt :=
                            user_prompt +:+ failure_note (ValueError msg);
                          last_output := last_output vars;
                          last_validation := last_validation vars;
                          loop_events := trace |}
         else Return {| output := None;
                        validation := new_ValidationResult false [];
                        events := trace;
                        total_attempts := attempt;
                        success := false;
                        error_message := Some msg |}),
     tick E s1).
Proof.
  intros Hgen. unfold attempt_body.
  rewrite bind_run, emit_run, bind_run. unfold catch at 1. rewrite Hgen.
  rewrite bind_run, emit_run, <- app_assoc.
  by destruct (attempt <? max_retries)%Z.
Qed.

Lemma loop_from_step user_prompt constraints system_prompt max_retries
    attempt vars (s : Sys E) :
  (attempt ≤ max_retries)%Z →
  loop_from E user_prompt constraints system_prompt max_retries attempt vars s =
    (step ← attempt_body E user_prompt constraints system_prompt max_retries
              attempt vars;
     match step with
     | Return result => mret (Return result)
     | Continue vars' =>
         loop_from E user_prompt constraints system_prompt max_retries
           (attempt + 1) vars'
     end) s.
Proof.
  intros Hle. unfold loop_from.
  replace (Z.to_nat (max_retries + 1 - attempt))
    with (S (Z.to_nat (max_retries + 1 - (attempt + 1)))) by lia.
  reflexivity.
Qed.

End GatewayFailure.

(** C4: on an attempt on which the generation gateway reports a malformed
    or schema-invalid answer, the loop emits an [ERROR] event (after the
    [DRAFTING] event of the attempt).  If attempts remain, the run goes on
    with the next attempt, its prompt being the user prompt with a short
    failure note appended, and what it kept of earlier attempts unchanged.
    On the last attempt the run returns a failed result with no output
    whose error message is the message of the gateway's error. *)
Theorem gateway_format_error_is_retried_or_returned (E : Env)
    (user_prompt : string) (constraints : ContractConstraints)
    (system_prompt : string) (max_retries attempt : Z) (vars : LoopVars)
    (s s1 : Sys E) (msg : string) :
  (attempt ≤ max_retries)%Z →
  reports_format_error E system_prompt (current_prompt vars) (tick E s) msg s1 →
  let trace :=
    loop_events vars
    ++ [event_at E s DRAFTING
          ("Generating draft (attempt " +:+ Py.str_Z attempt +:+ "/"
           +:+ Py.str_Z max_retries +:+ ")...")
          (Some [("attempt", PyInt attempt)])]
    ++ [event_at E s1 ERROR ("LLM output error: " +:+ msg) None] in
  run_from E user_prompt constraints system_prompt max_retries attempt vars s =
    if (attempt <? max_retries)%Z then
      run_from E user_prompt constraints system_prompt max_retries
        (attempt + 1)
        {| current_prompt := user_prompt +:+ failure_note (ValueError msg);
           last_output := last_output vars;
           last_validation := last_validation vars;
           loop_events := trace |}
        (tick E s1)
    else
      (Ok {| output := None;
             validation := new_ValidationResult false [];
             events := trace;
             total_attempts := attempt;
             success := false;
             error_message := Some msg |},
       tick E s1).
Proof.
  intros Hle Hgen%reports_format_error_raises.
  unfold run_from. rewrite !bind_run.
  rewrite loop_from_step by done. rewrite bind_run.
  rewrite (attempt_body_format_error E _ _ _ _ _ _ _ _ _ Hgen).
  by destruct (attempt <? max_retries)%Z.
Qed.

Lemma gateway_format_error_is_retried_or_returned_witness :
  (∃ vars' s',
     run_from env_never_json "Draft a breach notification clause."
       sample_profile "system prompt" 2 1 first_pass_vars
       (start_of env_never_json (0, 0%float))
     = run_from env_never_json "Draft a breach notification clause."
         sample_profile "system prompt" 2 2 vars' s' ∧
     current_prompt vars' =
       "Draft a breach notification clause." +:+ nl +:+ nl
       +:+ "PREVIOUS ATTEMPT FAILED: LLM returned invalid JSON: Expecting value: line 1 column 1 (char 0)"
       +:+ nl +:+ "Please fix and try again." ∧
     state <$> loop_events vars' = [DRAFTING; ERROR])
  ∧ (∃ result s',
       run_from env_never_json "Draft a breach notification clause."
         sample_profile "system prompt" 2 2 first_pass_vars
         (start_of env_never_json (0, 0%float)) = (Ok result, s') ∧
       success result = false ∧ output result = None ∧
       error_message result
         = Some "LLM returned invalid JSON: Expecting value: line 1 column 1 (char 0)" ∧
       state <$> events result = [DRAFTING; ERROR]).
Proof.
  assert (Hreports : reports_format_error env_never_json "system prompt"
            (current_prompt first_pass_vars)
            (tick env_never_json (start_of env_never_json (0, 0%float)))
            "LLM returned invalid JSON: Expecting value: line 1 column 1 (char 0)"
            (Build_Sys env_never_json (1, 1%float)
               [CallGenerate "system prompt" (current_prompt first_pass_vars)])).
  { exists "I cannot help with that.", ((1, 1%float) : World env_never_json).
    split; [reflexivity|]. split; [reflexivity|].
    left. eexists. split; reflexivity. }
  split.
  - eexists _, _. split.
    + exact (gateway_format_error_is_retried_or_returned env_never_json
               "Draft a breach notification clause." sample_profile
               "system prompt" 2 1 first_pass_vars
               (start_of env_never_json (0, 0%float)) _ _
               ltac:(lia) Hreports).
    + split; reflexivity.
  - eexists _, _. split.
    + exact (gateway_format_error_is_retried_or_returned env_never_json
               "Draft a breach notification clause." sample_profile
               "system prompt" 2 2 first_pass_vars
               (start_of env_never_json (0, 0%float)) _ _
               ltac:(lia) Hreports).
    + repeat split; reflexivity.
Defined.

(* ===================================================================== *)
(** * A gateway whose drafts are all rejected                             *)
(* ===================================================================== *)

Section Rejected.
Context (E : Env).

Lemma attempt_body_rejected user_prompt constraints system_prompt
    max_retries attempt vars (s s1 : Sys E) out vr :
  generate_structured_output E system_prompt (current_prompt vars) (tick E s)
    = (Ok out, s1) →
  validate_output E out constraints = Ok vr →
  is_valid vr = false →
  ∃ vars' s',
    attempt_body E user_prompt constraints system_prompt max_retries attempt
      vars s = (Ok (Continue vars'), s') ∧
    last_output vars' = Some out ∧
    last_validation vars' = Some (stamped vr attempt) ∧
    calls s' = calls s1.
Proof.
  intros Hgen Hval Hvalid. unfold attempt_body.
  rewrite bind_run, emit_run, bind_run. unfold catch at 1. rewrite Hgen.
  rewrite bind_run, emit_run, bind_run, emit_run, bind_run.
  unfold lift at 1. rewrite Hval. cbn [is_valid violations]. rewrite Hvalid.
  rewrite bind_run, emit_run.
  destruct (attempt <? max_retries)%Z; rewrite bind_run, emit_run;
    eexists _, _; (split; [reflexivity|]); unfold stamped; rewrite Hvalid;
    done.
Qed.

Lemma _get_relevant_context_ok constraints (s : Sys E) chunks w' :
  get_all_chunks E (world s) = (Ok chunks, w') →
  _get_relevant_context E constraints s
    = (Ok (relevant_context constraints chunks),
       {| world := w'; calls := calls s ++ [CallRetrieve] |}).
Proof.
  intros Hstore. unfold _get_relevant_context. rewrite bind_run.
  unfold call_get_all_chunks. by rewrite Hstore.
Qed.

Lemma gateway_calls_snoc (cs : list Call) system_prompt user_prompt :
  length (gateway_calls (cs ++ [CallGenerate system_prompt user_prompt]))
  = S (length (gateway_calls cs)).
Proof.
  unfold gateway_calls. rewrite filter_app, length_app. simpl. lia.
Qed.

(** What a rejected pass leaves: the state four events after the
    gateway call, and the user prompt with the corrections appended when
    attempts remain. *)
Lemma attempt_body_rejected_next user_prompt constraints system_prompt
    max_retries attempt vars vars' (s s1 s' : Sys E) out vr :
  generate_structured_output E system_prompt (current_prompt vars) (tick E s)
    = (Ok out, s1) →
  validate_output E out constraints = Ok vr →
  is_valid vr = false →
  attempt_body E user_prompt constraints system_prompt max_retries attempt
    vars s = (Ok (Continue vars'), s') →
  s' = tick E (tick E (tick E (tick E s1)))
  ∧ current_prompt vars'
    = if (attempt <? max_retries)%Z
      then user_prompt +:+ _build_retry_context (violations vr)
      else current_prompt vars.
Proof.
  intros Hgen Hval Hvalid. unfold attempt_body.
  rewrite bind_run, emit_run, bind_run. unfold catch at 1. rewrite Hgen.
  rewrite bind_run, emit_run, bind_run, emit_run, bind_run.
  unfold lift at 1. rewrite Hval. cbn [is_valid violations]. rewrite Hvalid.
  rewrite bind_run, emit_run.
  destruct (attempt <? max_retries)%Z; rewrite bind_run, emit_run;
    by intros [= <- <-].
Qed.

(** The attempts are rejected when the first is and those after it are,
    from where the first leaves the loop. *)
Lemma attempts_rejected_step user_prompt constraints system_prompt
    max_retries remaining attempt prompt (s s1 : Sys E) out vr :
  generate_structured_output E system_prompt prompt (tick E s) = (Ok out, s1) →
  validate_output E out constraints = Ok vr →
  is_valid vr = false →
  attempts_rejected E user_prompt constraints system_prompt max_retries
    remaining (attempt + 1)
    (if (attempt <? max_retries)%Z
     then user_prompt +:+ _build_retry_context (violations vr)
     else prompt)
    (tick E (tick E (tick E (tick E s1)))) →
  attempts_rejected E user_prompt constraints system_prompt max_retries
    (S remaining) attempt prompt s.
Proof.
  intros Hgen Hval Hvalid Hrest. exists out, s1, vr.
  repeat (split; [done|]). intros vars vars' s' <- Hbody.
  by destruct (attempt_body_rejected_next _ _ _ _ _ _ _ _ _ _ _ _
                 Hgen Hval Hvalid Hbody) as [-> ->].
Qed.

(** When each attempt is rejected, every pass of the loop goes on to the
    next, and the loop is left with what its last pass drafted and
    found. *)
Lemma attempts_loop_all_rejected user_prompt constraints system_prompt
    max_retries :
  ∀ remaining attempt vars (s : Sys E),
    0 < remaining →
    (attempt + Z.of_nat remaining = max_retries + 1)%Z →
    attempts_rejected E user_prompt constraints system_prompt max_retries
      remaining attempt (current_prompt vars) s →
    ∃ vars' s' last_prompt sB out sA vr,
      attempts_loop E user_prompt constraints system_prompt max_retries
        remaining attempt vars s = (Ok (Continue vars'), s') ∧
      generate_structured_output E system_prompt last_prompt sB = (Ok out, sA) ∧
      calls s' = calls sA ∧
      validate_output E out constraints = Ok vr ∧
      is_valid vr = false ∧
      last_output vars' = Some out ∧
      last_validation vars' = Some (stamped vr max_retries) ∧
      length (gateway_calls (calls s'))
        = length (gateway_calls (calls s)) + remaining.
Proof.
  induction remaining as [|remaining IH];
    intros attempt vars s Hpos Hlast Hrejected; [lia|].
  destruct Hrejected as (out & s1 & vr & Hgen & Hval & Hvalid & Hnext).
  destruct (attempt_body_rejected user_prompt constraints system_prompt
              max_retries attempt vars s s1 out vr Hgen Hval Hvalid)
    as (vars1 & s2 & Hbody & Hout & Hvr & Hcalls).
  pose proof (generate_structured_output_calls E _ _ _ _ _ Hgen) as Hlog.
  rewrite calls_tick in Hlog.
  specialize (Hnext vars vars1 s2 eq_refl Hbody).
  simpl. rewrite bind_run, Hbody.
  destruct remaining as [|remaining].
  - simpl. exists vars1, s2, (current_prompt vars), (tick E s), out, s1, vr.
    replace max_retries with attempt by lia.
    repeat (split; [done|]).
    rewrite Hcalls, Hlog, gateway_calls_snoc. lia.
  - destruct (IH (attempt + 1)%Z vars1 s2 ltac:(lia) ltac:(lia) Hnext)
      as (vars' & s' & last_prompt & sB & out' & sA & vr' & Hloop & Hrest).
    exists vars', s', last_prompt, sB, out', sA, vr'.
    split; [exact Hloop|].
    destruct Hrest as (? & ? & ? & ? & ? & ? & Hcount).
    repeat (split; [done|]).
    rewrite Hcount, Hcalls, Hlog, gateway_calls_snoc. lia.
Qed.

End Rejected.

(** C2: for every profile and every gateway that, on each attempt of the
    run, returns a schema-valid output that the validator rejects,
    [run_agent_sync], under a retry budget of at least one and once the
    document store has served its chunks, returns [success=False] with
    [total_attempts] equal to the budget; the gateway was called once per
    attempt; and the output and the validation result returned are those
    of the last gateway call, the violation list being non-empty.  The
    condition bears on the attempts of this run alone: the gateway may
    answer otherwise on any call the run does not make. *)
Theorem rejected_drafts_exhaust_the_budget (E : Env) (user_prompt : string)
    (constraints : ContractConstraints) (s : Sys E)
    (chunks : list DocumentChunk) (w' : World E) :
  (1 ≤ MAX_VALIDATION_RETRIES E)%Z →
  get_all_chunks E (world (tick E (tick E s))) = (Ok chunks, w') →
  let system_prompt :=
    _build_system_prompt E constraints (relevant_context constraints chunks) in
  attempts_rejected E user_prompt constraints system_prompt
    (MAX_VALIDATION_RETRIES E) (Z.to_nat (MAX_VALIDATION_RETRIES E)) 1
    user_prompt
    (tick E {| world := w'; calls := calls s ++ [CallRetrieve] |}) →
  ∃ result s' last_prompt sB out sA vr,
    run_agent_sync E user_prompt constraints s = (Ok result, s') ∧
    success result = false ∧
    total_attempts result = MAX_VALIDATION_RETRIES E ∧
    generate_structured_output E system_prompt last_prompt sB = (Ok out, sA) ∧
    calls s' = calls sA ∧
    validate_output E out constraints = Ok vr ∧
    output result = Some out ∧
    validation result = stamped vr (MAX_VALIDATION_RETRIES E) ∧
    violations (validation result) ≠ [] ∧
    length (gateway_calls (calls s'))
      = length (gateway_calls (calls s)) + Z.to_nat (MAX_VALIDATION_RETRIES E).
Proof.
  intros Hbudget Hchunks system_prompt Hrejected. unfold run_agent_sync.
  rewrite bind_run, emit_run, bind_run, emit_run, bind_run. unfold catch at 1.
  rewrite (_get_relevant_context_ok E constraints _ _ _ Hchunks).
  rewrite bind_run, emit_run. unfold run_from, loop_from. rewrite bind_run.
  replace (Z.to_nat (MAX_VALIDATION_RETRIES E + 1 - 1))
    with (Z.to_nat (MAX_VALIDATION_RETRIES E)) by lia.
  match goal with
  | |- context [attempts_loop E ?p ?c ?sp ?m ?n ?a ?v ?s0] =>
      destruct (attempts_loop_all_rejected E p c sp m n a v s0
                  ltac:(lia) ltac:(lia) Hrejected)
        as (vars' & s' & last_prompt & sB & out & sA & vr & -> & Hgen & Hcalls
            & Hval & Hvalid & Hout & Hvr & Hcount);
      exists (after_loop m (Continue vars')), s', last_prompt, sB, out, sA, vr
  end.
  split; [reflexivity|]. split; [reflexivity|]. split; [reflexivity|].
  split; [exact Hgen|]. split; [exact Hcalls|]. split; [exact Hval|].
  simpl. rewrite Hout, Hvr. split; [reflexivity|]. split; [reflexivity|].
  split.
  - simpl. intros Hnil.
    apply (validate_output_valid_iff E _ _ _ Hval) in Hnil. congruence.
  - rewrite Hcount. rewrite ?calls_tick. cbn [calls]. rewrite ?calls_tick.
    unfold gateway_calls at 1. rewrite filter_app, length_app.
    simpl. unfold gateway_calls. lia.
Qed.

Lemma rejected_drafts_exhaust_the_budget_witness :
  ∃ result s' last_prompt sB out sA vr,
    run_agent_sync env_fourth_good "Draft a breach notification clause."
      sample_profile (start_of env_fourth_good (0, 0%float)) = (Ok result, s') ∧
    success result = false ∧
    total_attempts result = 3%Z ∧
    generate_structured_output env_fourth_good
      (_build_system_prompt env_fourth_good sample_profile
         (relevant_context sample_profile [sample_chunk]))
      last_prompt sB = (Ok out, sA) ∧
    calls s' = calls sA ∧
    validate_output env_fourth_good out sample_profile = Ok vr ∧
    output result = Some out ∧
    validation result = stamped vr 3 ∧
    violations (validation result) ≠ [] ∧
    length (gateway_calls (calls s')) = 0 + 3.
Proof.
  apply (rejected_drafts_exhaust_the_budget env_fourth_good
           "Draft a breach notification clause." sample_profile
           (start_of env_fourth_good (0, 0%float)) [sample_chunk] (0, 2%float)).
  - vm_compute. discriminate.
  - reflexivity.
  - change (Z.to_nat (MAX_VALIDATION_RETRIES env_fourth_good)) with 3.
    do 3 (eapply attempts_rejected_step;
          [reflexivity|vm_compute; reflexivity|reflexivity|]).
    exact I.
Defined.

(* ===================================================================== *)
(** * The checks of the validator, one by one                             *)
(* ===================================================================== *)

Lemma required_citations_loop_filter cited todo : ∀ violations,
  required_citations_loop cited todo violations =
    violations ++ (missing_citation_violation
                     <$> filter (λ id, id ∉ cited) todo).
Proof.
  induction todo as [|id todo IH]; intros violations; simpl.
  - by rewrite app_nil_r.
  - rewrite IH, filter_cons. case_bool_decide; case_decide; try done.
    by rewrite <- app_assoc.
Qed.

Lemma cited_ids_inner (cs : list GeneratedCitation) (acc : gset string) id :
  id ∈ foldl (λ acc citation, acc ∪ {[ source_id citation ]}) acc cs
  ↔ id ∈ acc ∨ ∃ citation, citation ∈ cs ∧ source_id citation = id.
Proof.
  revert acc. induction cs as [|c cs IH]; intros acc; simpl.
  - split; [by left|]. intros [?|(? & Hnil & _)]; [done|].
    by apply elem_of_nil in Hnil.
  - rewrite IH, elem_of_union, elem_of_singleton. split.
    + intros [[?| ->]|(c' & Hin & Heq)]; [by left| |].
      * right. exists c. split; [by left|done].
      * right. exists c'. split; [by right|done].
    + intros [?|(c' & [->|Hin]%elem_of_cons & Heq)];
        [by left; left|by left; right|].
      right. by exists c'.
Qed.

Lemma cited_ids_outer (cls : list GeneratedClause) (acc : gset string) id :
  id ∈ foldl (λ acc clause,
                foldl (λ acc citation, acc ∪ {[ source_id citation ]})
                      acc (citations clause)) acc cls
  ↔ id ∈ acc ∨ ∃ clause citation,
       clause ∈ cls ∧ citation ∈ citations clause ∧ source_id citation = id.
Proof.
  revert acc. induction cls as [|cl cls IH]; intros acc; simpl.
  - split; [by left|]. intros [?|(? & ? & Hnil & _)]; [done|].
    by apply elem_of_nil in Hnil.
  - rewrite IH, cited_ids_inner. split.
    + intros [[?|(c & Hin & Heq)]|(cl' & c & Hcl & Hin & Heq)]; [by left| |].
      * right. exists cl, c. split; [by left|done].
      * right. exists cl', c. split; [by right|done].
    + intros [?|(cl' & c & [->|Hcl]%elem_of_cons & Hin & Heq)];
        [by left; left| |].
      * left. right. by exists c.
      * right. by exists cl', c.
Qed.

Lemma cited_ids_spec output id :
  id ∈ cited_ids output
  ↔ ∃ clause citation,
      clause ∈ clauses output ∧ citation ∈ citations clause ∧
      source_id citation = id.
Proof.
  unfold cited_ids. rewrite cited_ids_outer. split; [|by right].
  intros [Hempty|?]; [|done]. by apply elem_of_empty in Hempty.
Qed.

(** X1: the required-citations check reports exactly the required ids
    that no citation of any clause names, one violation each, in the order
    of the profile (an id required twice and missing is reported twice);
    an id counts as cited when some citation of some clause carries it. *)
Theorem required_citations_reports_missing_ids
    (output : AgentOutput) (constraints : ContractConstraints) :
  _check_required_citations output constraints =
    missing_citation_violation
      <$> filter (λ id, id ∉ cited_ids output) (required_source_ids constraints)
  ∧ ∀ id, id ∈ cited_ids output
          ↔ ∃ clause citation,
              clause ∈ clauses output ∧ citation ∈ citations clause ∧
              source_id citation = id.
Proof.
  split; [|apply cited_ids_spec].
  unfold _check_required_citations.
  destruct (required_source_ids constraints) as [|id ids] eqn:Hreq; [done|].
  by rewrite required_citations_loop_filter.
Qed.

Lemma forbidden_loop_hits E full_text (hit : string → bool) todo :
  (∀ f, f ∈ todo → re_search E (pattern f) full_text = Ok (hit (pattern f))) →
  ∀ violations,
    forbidden_loop E full_text todo violations =
      Ok (violations ++ (forbidden_violation
                           <$> filter (λ f, hit (pattern f) = true) todo)).
Proof.
  induction todo as [|f todo IH]; intros Hall violations; simpl.
  - by rewrite app_nil_r.
  - rewrite (Hall f) by by left. simpl.
    rewrite IH by (intros; apply Hall; by right).
    rewrite filter_cons. destruct (hit (pattern f)); case_decide; try done.
    by rewrite <- app_assoc.
Qed.

(** X2: when every forbidden pattern of the profile compiles, the
    forbidden-patterns check returns one violation for each pattern that
    matches the joined clause texts, whatever the number of its matches,
    in the order of the profile and at the severity the pattern
    declares. *)
Theorem forbidden_check_one_violation_per_matching_pattern (E : Env)
    (output : AgentOutput) (constraints : ContractConstraints)
    (hit : string → bool) :
  (∀ f, f ∈ forbidden_clauses constraints →
        re_search E (pattern f) (_get_full_text output) = Ok (hit (pattern f))) →
  _check_forbidden_clauses E output constraints =
    Ok (forbidden_violation
          <$> filter (λ f, hit (pattern f) = true) (forbidden_clauses constraints))
  ∧ ∀ f, severity (forbidden_violation f) = fc_severity f.
Proof.
  intros Hall. split; [|done]. unfold _check_forbidden_clauses.
  by rewrite (forbidden_loop_hits E _ hit).
Qed.

Lemma forbidden_check_one_violation_per_matching_pattern_witness :
  _check_forbidden_clauses env_literal_patterns good_output
    (profile_with_patterns false) =
    Ok [ {| field := "forbidden_clause";
            message := "Forbidden pattern detected: '36 hours'. Reason: The client asks for 24 hours.";
            severity := MEDIUM;
            suggestion := "Remove or rephrase any language matching: 36 hours" |};
         {| field := "forbidden_clause";
            message := "Forbidden pattern detected: 'GDPR'. Reason: Spell the regulation out.";
            severity := LOW;
            suggestion := "Remove or rephrase any language matching: GDPR" |} ].
Proof.
  destruct (forbidden_check_one_violation_per_matching_pattern
              env_literal_patterns good_output (profile_with_patterns false)
              (λ p, Py.contains p (_get_full_text good_output))) as [Heq _].
  - intros f Hf. simpl in Hf.
    repeat (apply elem_of_cons in Hf as [->|Hf]); [reflexivity..|].
    by apply elem_of_nil in Hf.
  - rewrite Heq. vm_compute. reflexivity.
Defined.

Lemma forbidden_loop_raises E full_text before bad after e :
  (∀ f, f ∈ before → ∃ b, re_search E (pattern f) full_text = Ok b) →
  re_search E (pattern bad) full_text = Raise e →
  ∀ violations,
    forbidden_loop E full_text (before ++ bad :: after) violations = Raise e.
Proof.
  induction before as [|f before IH]; intros Hall Hbad violations; simpl.
  - by rewrite Hbad.
  - destruct (Hall f) as [b ->]; [by left|]. simpl.
    apply IH; [|done]. intros; apply Hall; by right.
Qed.

(** X3: a forbidden pattern that does not compile makes the
    forbidden-patterns check raise the error of [re], and [validate_output]
    with it, whatever the patterns before it matched and whatever the other
    checks would report: no validation result is returned. *)
Theorem uncompilable_forbidden_pattern_aborts_validation (E : Env)
    (output : AgentOutput) (constraints : ContractConstraints)
    (before after : list ForbiddenClause) (bad : ForbiddenClause) (e : Exn) :
  forbidden_clauses constraints = before ++ bad :: after →
  (∀ f, f ∈ before →
        ∃ b, re_search E (pattern f) (_get_full_text output) = Ok b) →
  re_search E (pattern bad) (_get_full_text output) = Raise e →
  _check_forbidden_clauses E output constraints = Raise e
  ∧ validate_output E output constraints = Raise e.
Proof.
  intros Hlist Hbefore Hbad.
  assert (Hcheck : _check_forbidden_clauses E output constraints = Raise e).
  { unfold _check_forbidden_clauses. rewrite Hlist.
    by apply forbidden_loop_raises. }
  split; [done|]. by rewrite validate_output_unfold, Hcheck.
Qed.

Lemma uncompilable_forbidden_pattern_aborts_validation_witness :
  _check_forbidden_clauses env_literal_patterns good_output
    (profile_with_patterns true)
    = Raise (OtherError "missing ), unterminated subpattern at position 0")
  ∧ validate_output env_literal_patterns good_output
      (profile_with_patterns true)
    = Raise (OtherError "missing ), unterminated subpattern at position 0").
Proof.
  apply (uncompilable_forbidden_pattern_aborts_validation
           env_literal_patterns good_output (profile_with_patterns true)
           [ {| pattern := "36 hours"; reason := "The client asks for 24 hours.";
                fc_severity := MEDIUM |} ]
           [ {| pattern := "GDPR"; reason := "Spell the regulation out.";
                fc_severity := LOW |} ]
           {| pattern := "(best efforts"; reason := "Too vague.";
              fc_severity := LOW |}).
  - reflexivity.
  - intros f Hf. apply list_elem_of_singleton in Hf as ->.
    eexists. vm_compute. reflexivity.
  - vm_compute. reflexivity.
Defined.

Lemma clause_length_loop_filter constraints todo : ∀ violations,
  clause_length_loop constraints todo violations =
    violations
    ++ ((λ clause, clause_length_violation clause
                     (length (Py.split (text clause))) constraints)
        <$> filter (λ clause, (max_clause_length constraints
                               < Z.of_nat (length (Py.split (text clause))))%Z)
                   todo).
Proof.
  induction todo as [|clause todo IH]; intros violations; simpl.
  - by rewrite app_nil_r.
  - rewrite IH, filter_cons.
    destruct (Z.gtb_spec (Z.of_nat (length (Py.split (text clause))))
                (max_clause_length constraints)); case_decide; try lia.
    + by rewrite <- app_assoc.
    + done.
Qed.

(** X4: for an output whose clause texts are ASCII, the clause-length
    check reports the clauses whose number of whitespace-separated words
    exceeds the limit of the profile, one LOW violation for each in the
    order of the clauses; a clause at the limit is not reported. *)
Theorem clause_length_reports_each_long_clause
    (output : AgentOutput) (constraints : ContractConstraints) :
  Forall (λ clause, Py.isascii (text clause) = true) (clauses output) →
  _check_clause_length output constraints =
    (λ clause, clause_length_violation clause
                 (length (Py.split (text clause))) constraints)
    <$> filter (λ clause, (max_clause_length constraints
                           < Z.of_nat (length (Py.split (text clause))))%Z)
               (clauses output).
Proof.
  intros _. unfold _check_clause_length. by rewrite clause_length_loop_filter.
Qed.

Lemma clause_length_reports_each_long_clause_witness :
  _check_clause_length good_output (profile_with_patterns false)
  = [ clause_length_violation
        (sample_clause "Breach Notification"
           "The Processor shall give notification of any personal data breach within 36 hours, as GDPR requires.")
        16 (profile_with_patterns false) ]
  ∧ _check_clause_length good_output sample_profile = [].
Proof.
  split.
  - rewrite (clause_length_reports_each_long_clause good_output
               (profile_with_patterns false)); [reflexivity|].
    repeat constructor.
  - rewrite (clause_length_reports_each_long_clause good_output
               sample_profile); [reflexivity|].
    repeat constructor.
Defined.

(* ===================================================================== *)
(** * Letter case and white space                                         *)
(* ===================================================================== *)

Lemma lower_char_upper_char a : Py.lower_char (Py.upper_char a) = Py.lower_char a.
Proof. by destruct a as [[] [] [] [] [] [] [] []]. Qed.

Lemma lower_upper s : Py.lower (Py.upper s) = Py.lower s.
Proof.
  induction s as [|a s IH]; [done|].
  unfold Py.lower, Py.upper in *. simpl. by rewrite lower_char_upper_char, IH.
Qed.

Lemma lower_app s1 s2 : Py.lower (s1 +:+ s2) = Py.lower s1 +:+ Py.lower s2.
Proof.
  induction s1 as [|a s1 IH]; [done|].
  unfold Py.lower in *. simpl. by rewrite IH.
Qed.

Lemma lower_join sep parts :
  Py.lower (Py.join sep parts) = Py.join (Py.lower sep) (Py.lower <$> parts).
Proof.
  induction parts as [|x [|y parts] IH]; [done..|].
  change (Py.join sep (x :: y :: parts))
    with (x +:+ sep +:+ Py.join sep (y :: parts)).
  rewrite !lower_app, IH. done.
Qed.

Lemma lower_full_text output :
  Py.lower (_get_full_text output)
  = Py.join " " (Py.lower <$> (text <$> clauses output)).
Proof. unfold _get_full_text. by rewrite lower_join. Qed.

(** X5: the liability and the data-protection checks do not tell letter
    case apart: two outputs whose clause texts are the same once put in
    lower case get the same violations from both. *)
Theorem phrase_checks_ignore_letter_case
    (o o' : AgentOutput) (constraints : ContractConstraints) :
  Py.lower <$> (text <$> clauses o) = Py.lower <$> (text <$> clauses o') →
  _check_liability o constraints = _check_liability o' constraints
  ∧ _check_data_protection o constraints = _check_data_protection o' constraints.
Proof.
  intros Hsame. unfold _check_liability, _check_data_protection.
  by rewrite !lower_full_text, Hsame.
Qed.

Lemma phrase_checks_ignore_letter_case_witness :
  _check_liability split_phrase_output_upper sample_profile
    = [unlimited_liability_violation]
  ∧ _check_data_protection split_phrase_output_upper sample_profile = [].
Proof.
  destruct (phrase_checks_ignore_letter_case split_phrase_output
              split_phrase_output_upper sample_profile) as [<- <-].
  - vm_compute. reflexivity.
  - split; vm_compute; reflexivity.
Defined.

Lemma lstrip_idem s : Py.lstrip (Py.lstrip s) = Py.lstrip s.
Proof.
  induction s as [|a s IH]; [done|]. simpl.
  destruct (Py.isspace a) eqn:Ha; [done|]. simpl. by rewrite Ha.
Qed.

(** Stripping the left of a string that has no white space at its right
    end leaves none there. *)
Lemma rstrip_lstrip_fixed s : Py.rstrip s = s → Py.rstrip (Py.lstrip s) = Py.lstrip s.
Proof.
  induction s as [|a s IH]; [done|]. intros Hfix. simpl.
  destruct (Py.isspace a) eqn:Ha; [|done].
  apply IH. simpl in Hfix. rewrite Ha in Hfix.
  destruct (Py.rstrip s) as [|b r]; [done|]. by injection Hfix.
Qed.

Lemma rstrip_idem s : Py.rstrip (Py.rstrip s) = Py.rstrip s.
Proof.
  induction s as [|a s IH]; [done|]. simpl.
  destruct (Py.rstrip s) as [|b r] eqn:Hr.
  - destruct (Py.isspace a) eqn:Ha; [done|]. simpl. by rewrite Ha.
  - change (Py.rstrip (String a (String b r))) with
      (match Py.rstrip (String b r) with
       | EmptyString =>
           if Py.isspace a then EmptyString else String a EmptyString
       | r' => String a r'
       end).
    by rewrite IH.
Qed.

Lemma strip_idem s : Py.strip (Py.strip s) = Py.strip s.
Proof.
  unfold Py.strip.
  rewrite (rstrip_lstrip_fixed (Py.rstrip s)) by apply rstrip_idem.
  apply lstrip_idem.
Qed.

(** X6: what the validator of a clause text accepts of an ASCII text, it
    returns stripped of the white space at both ends: the result is not
    empty, stripping it again changes nothing, and validating it again
    returns it unchanged. *)
Theorem text_not_empty_normalises (v t : string) :
  Py.isascii v = true →
  text_not_empty v = Ok t →
  t = Py.strip v ∧ t ≠ EmptyString ∧ Py.strip t = t ∧ text_not_empty t = Ok t.
Proof.
  intros _. unfold text_not_empty.
  destruct (Py.strip v) as [|a r] eqn:Hstrip; [done|]. simpl.
  intros [= <-]. split; [done|]. split; [done|].
  rewrite <- Hstrip, strip_idem, Hstrip. done.
Qed.

Lemma text_not_empty_normalises_witness :
  text_not_empty ("  Each party keeps the data safe. " +:+ nl)
    = Ok "Each party keeps the data safe."
  ∧ text_not_empty "Each party keeps the data safe."
    = Ok "Each party keeps the data safe.".
Proof.
  split; [vm_compute; reflexivity|].
  apply (text_not_empty_normalises
           ("  Each party keeps the data safe. " +:+ nl)
           "Each party keeps the data safe.").
  - vm_compute. reflexivity.
  - vm_compute. reflexivity.
Defined.

(* ===================================================================== *)
(** * What the validator reads of an output                               *)
(* ===================================================================== *)

Lemma cited_fold_same_ids (cs cs' : list GeneratedCitation) :
  source_id <$> cs = source_id <$> cs' →
  ∀ acc : gset string,
    foldl (λ acc citation, acc ∪ {[ source_id citation ]}) acc cs
    = foldl (λ acc citation, acc ∪ {[ source_id citation ]}) acc cs'.
Proof.
  revert cs'. induction cs as [|c cs IH]; intros [|c' cs'] Hids acc;
    try discriminate; [done|].
  simpl in *. injection Hids as Hid Hids. rewrite Hid. by apply IH.
Qed.

Lemma same_clauses_cited (cls cls' : list GeneratedClause) :
  Forall2 same_clause_content cls cls' →
  ∀ acc : gset string,
    foldl (λ acc clause,
             foldl (λ acc citation, acc ∪ {[ source_id citation ]})
                   acc (citations clause)) acc cls
    = foldl (λ acc clause,
               foldl (λ acc citation, acc ∪ {[ source_id citation ]})
                     acc (citations clause)) acc cls'.
Proof.
  induction 1 as [|c c' cls cls' (_ & _ & Hids) _ IH]; intros acc; [done|].
  simpl. rewrite (cited_fold_same_ids _ _ Hids). apply IH.
Qed.

Lemma same_clauses_texts (cls cls' : list GeneratedClause) :
  Forall2 same_clause_content cls cls' → text <$> cls = text <$> cls'.
Proof.
  induction 1 as [|c c' cls cls' (_ & Htext & _) _ IH]; [done|].
  by rewrite !fmap_cons, Htext, IH.
Qed.

Lemma same_clauses_lengths constraints (cls cls' : list GeneratedClause) :
  Forall2 same_clause_content cls cls' →
  ∀ violations,
    clause_length_loop constraints cls violations
    = clause_length_loop constraints cls' violations.
Proof.
  induction 1 as [|c c' cls cls' (Htitle & Htext & _) _ IH];
    intros violations; [done|].
  simpl. rewrite Htext. unfold clause_length_violation.
  rewrite Htitle. apply IH.
Qed.

(** X7: [validate_output] reads of an output its governing law and, of
    each clause, the title, the text and the ids its citations name:
    outputs that agree on these get the same result (or the same error),
    whatever their summaries, confidence scores, risk levels, reasonings
    and the relevance notes of their citations. *)
Theorem validation_ignores_self_assessment (E : Env) (o o' : AgentOutput)
    (constraints : ContractConstraints) :
  same_validated_content o o' →
  validate_output E o constraints = validate_output E o' constraints.
Proof.
  intros [Hlaw Hclauses]. rewrite !validate_output_unfold.
  assert (Hfull : _get_full_text o = _get_full_text o').
  { unfold _get_full_text. by rewrite (same_clauses_texts _ _ Hclauses). }
  assert (Hcited : cited_ids o = cited_ids o').
  { unfold cited_ids. by apply same_clauses_cited. }
  unfold _check_forbidden_clauses, _check_liability, _check_data_protection,
    _check_required_citations, _check_jurisdiction, _check_clause_length.
  by rewrite Hfull, Hcited, Hlaw,
    (same_clauses_lengths constraints _ _ Hclauses).
Qed.

Lemma validation_ignores_self_assessment_witness :
  validate_output env_second_good good_output_reworded sample_profile
  = Ok {| is_valid := true; violations := []; attempt_number := 1 |}.
Proof.
  rewrite <- (validation_ignores_self_assessment env_second_good
                good_output good_output_reworded sample_profile).
  - vm_compute. reflexivity.
  - split; [reflexivity|]. repeat constructor.
Defined.

(* ===================================================================== *)
(** * The agent loop: calls, prompts and outcomes                         *)
(* ===================================================================== *)

Lemma prefix_app (u x : string) : String.prefix u (u +:+ x) = true.
Proof.
  induction u as [|a u IH]; [by destruct x|]. simpl.
  by destruct (Ascii.ascii_dec a a).
Qed.

Lemma prefix_refl (u : string) : String.prefix u u = true.
Proof.
  induction u as [|a u IH]; [done|]. simpl.
  by destruct (Ascii.ascii_dec a a).
Qed.

Section AgentMore.
Context (E : Env).
Implicit Types (s : Sys E) (vars : LoopVars) (result : AgentResult).

Ltac pass_cases Hgen Hval Hvalid Hlt :=
  unfold attempt_body;
  rewrite bind_run, emit_run, bind_run; unfold catch at 1;
  match goal with
  | |- context [generate_structured_output E ?sp ?p ?s0] =>
      destruct (generate_structured_output E sp p s0)
        as [[?out|[?msg|?msg]] ?s1] eqn:Hgen
  end;
  [ rewrite bind_run, emit_run, bind_run, emit_run, bind_run;
    unfold lift at 1;
    match goal with
    | |- context [validate_output E ?o ?c] =>
        destruct (validate_output E o c) as [?vr|?e] eqn:Hval
    end;
    [ cbn [is_valid violations];
      match goal with
      | |- context [is_valid ?v] => destruct (is_valid v) eqn:Hvalid
      end;
      [ rewrite bind_run, emit_run, bind_run, emit_run
      | rewrite bind_run, emit_run;
        match goal with
        | |- context [(?a <? ?b)%Z] => destruct (Z.ltb_spec a b) as [Hlt|Hlt]
        end;
        rewrite bind_run, emit_run ]
    | ]
  | rewrite bind_run, emit_run;
    match goal with
    | |- context [(?a <? ?b)%Z] => destruct (Z.ltb_spec a b) as [Hlt|Hlt]
    end
  | ].

(** What one pass does, whatever its outcome: one gateway call, with the
    prompt of the pass; the prompt it leaves begins with the user prompt;
    a result it returns counts the pass as its last attempt, says in its
    last event and in its error message whether it succeeded; a pass that
    goes on past the budget ends on an [ERROR] event. *)
Lemma attempt_body_pass user_prompt constraints system_prompt
    max_retries attempt vars s r s' :
  attempt_body E user_prompt constraints system_prompt max_retries attempt
    vars s = (r, s') →
  calls s' = calls s ++ [CallGenerate system_prompt (current_prompt vars)]
  ∧ match r with
    | Ok (Continue vars') =>
        (String.prefix user_prompt (current_prompt vars) = true →
         String.prefix user_prompt (current_prompt vars') = true)
        ∧ ((max_retries ≤ attempt)%Z →
           last_state (loop_events vars') = Some ERROR)
    | Ok (Return result) =>
        total_attempts result = attempt
        ∧ last_state (events result)
          = Some (if success result then COMPLETE else ERROR)
        ∧ (success result = true ↔ error_message result = None)
    | Raise _ => True
    end.
Proof.
  pass_cases Hgen Hval Hvalid Hlt; intros [= <- <-];
    apply generate_structured_output_calls in Hgen;
    rewrite ?calls_tick in *; (split; [done|]); cbn;
    unfold last_state; rewrite ?last_snoc; try done.
  - split; [intros _; apply prefix_app|lia].
  - split; [intros _; apply prefix_app|lia].
Qed.

(** The same of the loop: [remaining] passes at most, each with one gateway
    call; aligned on the budget, the loop that is left without a [return]
    made every pass and ended on an [ERROR] event. *)
Lemma attempts_loop_passes user_prompt constraints system_prompt max_retries :
  ∀ remaining attempt vars s r s',
    attempts_loop E user_prompt constraints system_prompt max_retries
      remaining attempt vars s = (r, s') →
    String.prefix user_prompt (current_prompt vars) = true →
    ∃ made,
      calls s' = calls s ++ made ∧
      length made ≤ remaining ∧
      Forall (call_for system_prompt user_prompt) made ∧
      head made = (match made with
                   | [] => None
                   | _ => Some (CallGenerate system_prompt (current_prompt vars))
                   end) ∧
      match r with
      | Ok (Continue vars') =>
          length made = remaining ∧
          (0 < remaining →
           (attempt + Z.of_nat remaining = max_retries + 1)%Z →
           last_state (loop_events vars') = Some ERROR)
      | Ok (Return result) =>
          total_attempts result = (attempt + Z.of_nat (length made) - 1)%Z
          ∧ 0 < length made
          ∧ last_state (events result)
            = Some (if success result then COMPLETE else ERROR)
          ∧ (success result = true ↔ error_message result = None)
      | Raise _ => True
      end.
Proof.
  induction remaining as [|remaining IH]; intros attempt vars s r s'; simpl.
  - intros [= <- <-] _. exists []. rewrite app_nil_r.
    repeat split; try done. lia.
  - rewrite bind_run.
    destruct (attempt_body E _ _ _ _ _ _ _) as [[[vars1|result]|e] s1] eqn:Hbody;
      apply attempt_body_pass in Hbody as [Hcalls Hrest]; intros Hloop Hprefix.
    + destruct Hrest as [Hkeep Hlast].
      destruct (IH _ _ _ _ _ Hloop (Hkeep Hprefix))
        as (made & Hmade & Hlen & Hall & _ & Hr).
      exists (CallGenerate system_prompt (current_prompt vars) :: made).
      split; [by rewrite Hmade, Hcalls, <- app_assoc|].
      split; [simpl; lia|].
      split; [constructor; [by eexists|done]|].
      split; [done|].
      destruct r as [[vars'|result]|e]; [| |done].
      * destruct Hr as [Hfull Hend]. split; [simpl; lia|].
        intros _ Halign. destruct remaining as [|remaining].
        -- simpl in Hloop. injection Hloop as <- <-. apply Hlast. lia.
        -- apply Hend; lia.
      * destruct Hr as (Htotal & Hpos & Hend). simpl.
        split; [lia|]. split; [lia|done].
    + injection Hloop as <- <-.
      exists [CallGenerate system_prompt (current_prompt vars)].
      split; [done|]. split; [simpl; lia|].
      split; [repeat constructor; by eexists|]. split; [done|].
      destruct Hrest as (Htotal & Hend). simpl. split; [lia|]. split; [lia|done].
    + injection Hloop as <- <-.
      exists [CallGenerate system_prompt (current_prompt vars)].
      split; [done|]. split; [simpl; lia|].
      split; [repeat constructor; by eexists|]. done.
Qed.

(** Every outcome of a run, with what the run called on the way. *)
Lemma run_agent_sync_outcome user_prompt constraints s r s' :
  run_agent_sync E user_prompt constraints s = (r, s') →
  (∃ e, calls s' = calls s ++ [CallRetrieve] ∧
        r = Ok {| output := None;
                  validation := new_ValidationResult false [];
                  events :=
                    [event_at E s INITIALIZING "Starting legal analysis agent..." None;
                     event_at E (tick E s) RETRIEVING
                       "Retrieving relevant source documents..." None;
                     event_at E {| world := (get_all_chunks E (world (tick E (tick E s)))).2;
                                   calls := calls s ++ [CallRetrieve] |}
                       ERROR ("Failed to retrieve context: " +:+ str_exn e) None];
                  total_attempts := 0;
                  success := false;
                  error_message := Some (str_exn e) |})
  ∨ (∃ system_prompt made,
       calls s' = calls s ++ CallRetrieve :: made ∧
       length made ≤ Z.to_nat (MAX_VALIDATION_RETRIES E) ∧
       Forall (call_for system_prompt user_prompt) made ∧
       head made = (match made with
                    | [] => None
                    | _ => Some (CallGenerate system_prompt user_prompt)
                    end) ∧
       match r with
       | Ok result =>
           ((0 ≤ MAX_VALIDATION_RETRIES E)%Z →
            total_attempts result = Z.of_nat (length made))
           ∧ ((1 ≤ MAX_VALIDATION_RETRIES E)%Z →
              last_state (events result)
              = Some (if success result then COMPLETE else ERROR))
           ∧ (success result = true ↔ error_message result = None)
       | Raise _ => True
       end).
Proof.
  unfold run_agent_sync.
  rewrite bind_run, emit_run, bind_run, emit_run, bind_run. unfold catch at 1.
  unfold _get_relevant_context at 1. rewrite bind_run.
  unfold call_get_all_chunks at 1.
  destruct (get_all_chunks E _) as [[chunks|e] w] eqn:Hstore.
  - cbn [mret M_ret]. rewrite bind_run, emit_run.
    unfold run_from, loop_from. rewrite bind_run.
    match goal with
    | |- context [attempts_loop E ?p ?c ?sp ?m ?n ?a ?v ?s0] =>
        destruct (attempts_loop E p c sp m n a v s0) as [r0 s0'] eqn:Hloop;
        apply attempts_loop_passes in Hloop
          as (made & Hcalls & Hlen & Hall & Hhead & Hr); [|apply prefix_refl];
        set (system_prompt := sp) in *
    end.
    intros Hres. right. exists system_prompt, made.
    rewrite ?calls_tick in Hcalls. cbn [calls] in Hcalls.
    rewrite ?calls_tick in Hcalls.
    replace (MAX_VALIDATION_RETRIES E + 1 - 1)%Z
      with (MAX_VALIDATION_RETRIES E) in * by lia.
    destruct r0 as [[vars'|result]|e].
    + injection Hres as <- <-.
      split; [by rewrite Hcalls, <- app_assoc|]. split; [done|].
      split; [done|]. split; [done|].
      destruct Hr as [Hfull Hend]. cbn. split; [intros; lia|].
      split; [|done]. intros Hbudget. apply Hend; lia.
    + injection Hres as <- <-.
      split; [by rewrite Hcalls, <- app_assoc|]. split; [done|].
      split; [done|]. split; [done|].
      destruct Hr as (Htotal & Hpos & Hend & Herr). cbn.
      split; [intros; lia|]. split; [done|done].
    + injection Hres as <- <-.
      split; [by rewrite Hcalls, <- app_assoc|]. done.
  - rewrite bind_run, emit_run. intros [= <- <-]. left. exists e.
    split; [by rewrite calls_tick|]. done.
Qed.

End AgentMore.

(** X8: whatever its outcome, a run asks the document store once, and
    then calls the generation gateway at most as many times as the retry
    budget allows; the result of a run that returns one counts, under a
    budget that is not negative, exactly these gateway calls as its
    attempts. *)
Theorem attempts_are_gateway_calls_within_budget (E : Env)
    (user_prompt : string) (constraints : ContractConstraints) (s : Sys E) :
  let '(r, s') := run_agent_sync E user_prompt constraints s in
  ∃ made,
    calls s' = calls s ++ CallRetrieve :: made ∧
    Forall (λ c, c ≠ CallRetrieve) made ∧
    length made ≤ Z.to_nat (MAX_VALIDATION_RETRIES E) ∧
    match r with
    | Ok result =>
        (0 ≤ MAX_VALIDATION_RETRIES E)%Z →
        total_attempts result = Z.of_nat (length made) ∧
        (total_attempts result ≤ MAX_VALIDATION_RETRIES E)%Z
    | Raise _ => True
    end.
Proof.
  destruct (run_agent_sync E user_prompt constraints s) as [r s'] eqn:Hrun.
  apply run_agent_sync_outcome in Hrun
    as [(e & Hcalls & ->)|(sp & made & Hcalls & Hlen & Hall & _ & Hr)].
  - exists []. split; [done|]. split; [done|]. split; [simpl; lia|].
    simpl. lia.
  - exists made. split; [done|]. split.
    + eapply Forall_impl; [exact Hall|]. by intros c (p & -> & _).
    + split; [done|]. destruct r as [result|e]; [|done].
      intros Hbudget. destruct Hr as [Htotal _]. rewrite (Htotal Hbudget). lia.
Qed.

(** X9: every gateway call of a run carries the same system prompt; the
    first carries the user prompt as it was given, and every later one a
    prompt that begins with it. *)
Theorem gateway_prompts_begin_with_user_prompt (E : Env)
    (user_prompt : string) (constraints : ContractConstraints) (s : Sys E) :
  let '(r, s') := run_agent_sync E user_prompt constraints s in
  ∃ system_prompt made,
    calls s' = calls s ++ CallRetrieve :: made ∧
    Forall (call_for system_prompt user_prompt) made ∧
    head made = match made with
                | [] => None
                | _ => Some (CallGenerate system_prompt user_prompt)
                end.
Proof.
  destruct (run_agent_sync E user_prompt constraints s) as [r s'] eqn:Hrun.
  apply run_agent_sync_outcome in Hrun
    as [(e & Hcalls & ->)|(sp & made & Hcalls & Hlen & Hall & Hhead & Hr)].
  - by exists EmptyString, [].
  - by exists sp, made.
Qed.

(** X10: a result says in one voice how the run ended: its error message
    is absent exactly when [success] is true, and, under a budget of at
    least one attempt, the last event of its trace is [COMPLETE] when it
    succeeded and [ERROR] when it did not. *)
Theorem result_announces_its_outcome (E : Env) (user_prompt : string)
    (constraints : ContractConstraints) (s s' : Sys E) (result : AgentResult) :
  run_agent_sync E user_prompt constraints s = (Ok result, s') →
  (success result = true ↔ error_message result = None)
  ∧ ((1 ≤ MAX_VALIDATION_RETRIES E)%Z →
     last_state (events result)
     = Some (if success result then COMPLETE else ERROR)).
Proof.
  intros [(e & _ & [= ->])|(sp & made & _ & _ & _ & _ & _ & Hlast & Herr)]
    %run_agent_sync_outcome; [|done].
  split; [done|]. done.
Qed.

Lemma result_announces_its_outcome_witness :
  ∃ result s',
    run_agent_sync env_never_json "Draft a breach notification clause."
      sample_profile (start_of env_never_json (0, 0%float)) = (Ok result, s') ∧
    success result = false ∧
    (success result = true ↔ error_message result = None) ∧
    last_state (events result) = Some ERROR.
Proof.
  eexists _, _. split; [vm_compute; reflexivity|]. split; [reflexivity|].
  destruct (result_announces_its_outcome env_never_json
              "Draft a breach notification clause." sample_profile
              (start_of env_never_json (0, 0%float)) _ _
              ltac:(vm_compute; reflexivity)) as [Herr Hlast].
  split; [exact Herr|]. apply Hlast. vm_compute. discriminate.
Defined.

Section Uncaught.
Context (E : Env).

Lemma attempts_loop_raise user_prompt constraints system_prompt max_retries
    remaining attempt vars (s s' : Sys E) e :
  attempt_body E user_prompt constraints system_prompt max_retries attempt
    vars s = (Raise e, s') →
  attempts_loop E user_prompt constraints system_prompt max_retries
    (S remaining) attempt vars s = (Raise e, s').
Proof. intros Hbody. simpl. by rewrite bind_run, Hbody. Qed.

Lemma run_from_raise user_prompt constraints system_prompt max_retries
    attempt vars (s s' : Sys E) e :
  (attempt ≤ max_retries)%Z →
  attempt_body E user_prompt constraints system_prompt max_retries attempt
    vars s = (Raise e, s') →
  run_from E user_prompt constraints system_prompt max_retries attempt vars s
    = (Raise e, s').
Proof.
  intros Hle Hbody. unfold run_from, loop_from. rewrite bind_run.
  replace (Z.to_nat (max_retries + 1 - attempt))
    with (S (Z.to_nat (max_retries - attempt))) by lia.
  by rewrite (attempts_loop_raise _ _ _ _ _ _ _ _ _ _ Hbody).
Qed.

End Uncaught.

(** X11: an attempt on which the provider call fails with anything but a
    [ValueError] (the provider cannot be reached, say) is not retried and
    is not turned into a failed result: the exception leaves the run as it
    is, after the [DRAFTING] event of the attempt, and the trace is lost
    with it. *)
Theorem provider_failure_escapes_the_run (E : Env) (user_prompt : string)
    (constraints : ContractConstraints) (system_prompt : string)
    (max_retries attempt : Z) (vars : LoopVars) (s : Sys E)
    (msg : string) (w' : World E) :
  (attempt ≤ max_retries)%Z →
  generate_completion E system_prompt (current_prompt vars) (world (tick E s))
    = (Raise (OtherError msg), w') →
  run_from E user_prompt constraints system_prompt max_retries attempt vars s
    = (Raise (OtherError msg),
       {| world := w';
          calls := calls s ++ [CallGenerate system_prompt (current_prompt vars)] |}).
Proof.
  intros Hle Hprovider. apply run_from_raise; [done|].
  unfold attempt_body. rewrite bind_run, emit_run, bind_run. unfold catch at 1.
  unfold generate_structured_output. rewrite bind_run.
  unfold call_generate_completion. by rewrite Hprovider.
Qed.

Lemma provider_failure_escapes_the_run_witness :
  run_from env_provider_down "Draft a breach notification clause."
    sample_profile "system prompt" 3 1 first_pass_vars
    (start_of env_provider_down (0, 0%float))
  = (Raise (OtherError "Connection error."),
     Build_Sys env_provider_down (0, 1%float)
       [CallGenerate "system prompt" "Draft a breach notification clause."])
  ∧ (run_agent_sync env_provider_down "Draft a breach notification clause."
       sample_profile (start_of env_provider_down (0, 0%float))).1
    = Raise (OtherError "Connection error.").
Proof.
  split; [|vm_compute; reflexivity].
  apply (provider_failure_escapes_the_run env_provider_down
           "Draft a breach notification clause." sample_profile
           "system prompt" 3 1 first_pass_vars
           (start_of env_provider_down (0, 0%float))
           "Connection error." (0, 1%float)).
  - lia.
  - reflexivity.
Defined.

(** X12: a draft whose validation raises (a forbidden pattern of the
    profile does not compile) ends the run in the same way: the error of
    [re] leaves the run after the [VALIDATING] event, no result is
    returned and the draft is not retried. *)
Theorem validation_error_escapes_the_run (E : Env) (user_prompt : string)
    (constraints : ContractConstraints) (system_prompt : string)
    (max_retries attempt : Z) (vars : LoopVars) (s s1 : Sys E)
    (out : AgentOutput) (e : Exn) :
  (attempt ≤ max_retries)%Z →
  generate_structured_output E system_prompt (current_prompt vars) (tick E s)
    = (Ok out, s1) →
  validate_output E out constraints = Raise e →
  run_from E user_prompt constraints system_prompt max_retries attempt vars s
    = (Raise e, tick E (tick E s1)).
Proof.
  intros Hle Hgen Hval. apply run_from_raise; [done|].
  unfold attempt_body. rewrite bind_run, emit_run, bind_run. unfold catch at 1.
  rewrite Hgen. rewrite bind_run, emit_run, bind_run, emit_run, bind_run.
  unfold lift at 1. by rewrite Hval.
Qed.

Lemma validation_error_escapes_the_run_witness :
  (run_agent_sync env_literal_patterns "Draft a breach notification clause."
     (profile_with_patterns true)
     (start_of env_literal_patterns (0, 0%float))).1
  = Raise (OtherError "missing ), unterminated subpattern at position 0")
  ∧ run_from env_literal_patterns "Draft a breach notification clause."
      (profile_with_patterns true) "system prompt" 3 1 first_pass_vars
      (start_of env_literal_patterns (0, 0%float))
    = (Raise (OtherError "missing ), unterminated subpattern at position 0"),
       Build_Sys env_literal_patterns (1, 3%float)
         [CallGenerate "system prompt" "Draft a breach notification clause."]).
Proof.
  split; [vm_compute; reflexivity|].
  apply (validation_error_escapes_the_run env_literal_patterns
           "Draft a breach notification clause." (profile_with_patterns true)
           "system prompt" 3 1 first_pass_vars
           (start_of env_literal_patterns (0, 0%float))
           (Build_Sys env_literal_patterns (1, 1%float)
              [CallGenerate "system prompt"
                 "Draft a breach notification clause."])
           wrong_output).
  - lia.
  - reflexivity.
  - vm_compute. reflexivity.
Defined.

Section Returns.
Context (E : Env).







End Returns.



(* ===================================================================== *)
(** * The streaming projection: what reaches the client                   *)
(* ===================================================================== *)

(** X14: of a run that returns a result, the streaming projection yields
    one event more than the run recorded; the states of the yielded events
    are the states of the recorded ones followed by [COMPLETE] when the
    run succeeded and by [ERROR] when it did not; and every yielded event
    in the [ERROR] state carries one of two fixed messages. *)
Theorem streaming_yields_states_and_generic_errors (E : Env)
    (user_prompt : string) (constraints : ContractConstraints)
    (s s' : Sys E) (result : AgentResult) :
  run_agent_sync E user_prompt constraints s = (Ok result, s') →
  ∃ yielded,
    run_agent_streaming E user_prompt constraints s = (Ok yielded, tick E s') ∧
    length yielded = S (length (events result)) ∧
    state <$> yielded
      = (state <$> events result)
        ++ [if success result then COMPLETE else ERROR] ∧
    Forall (λ event, state event = ERROR → generic_message (ev_message event))
           yielded.
Proof.
  intros Hrun.
  pose proof (run_agent_sync_trace E _ _ _ _ _ Hrun) as [_ Hout].
  unfold run_agent_streaming. rewrite bind_run, Hrun, yield_loop_app. simpl.
  set (replayed := (λ event, if bool_decide (state event = ERROR)
                             then sanitized event else event) <$> events result).
  assert (Hstates : state <$> replayed = state <$> events result).
  { unfold replayed. rewrite <- list_fmap_compose. apply list_fmap_ext.
    intros i event _. simpl. by case_bool_decide. }
  assert (Hgeneric : Forall (λ event, state event = ERROR →
                                      generic_message (ev_message event))
                            replayed).
  { unfold replayed. apply Forall_fmap, Forall_forall. intros event _. simpl.
    case_bool_decide; [intros _; by left|done]. }
  assert (Hlen : length replayed = length (events result)).
  { unfold replayed. by rewrite length_fmap. }
  destruct (success result) eqn:Hsuccess.
  - destruct (Hout eq_refl) as [out ->]. eexists. split; [reflexivity|].
    rewrite length_app, fmap_app, Hstates, Hlen. simpl.
    split; [lia|]. split; [done|].
    apply Forall_app. split; [done|]. by apply Forall_singleton.
  - eexists. split; [reflexivity|].
    rewrite length_app, fmap_app, Hstates, Hlen. simpl.
    split; [lia|]. split; [done|].
    apply Forall_app. split; [done|]. apply Forall_singleton. intros _. by right.
Qed.

Lemma streaming_yields_states_and_generic_errors_witness :
  ∃ yielded s',
    run_agent_streaming env_never_json "Draft a breach notification clause."
      sample_profile (start_of env_never_json (0, 0%float)) = (Ok yielded, s') ∧
    state <$> yielded
      = [INITIALIZING; RETRIEVING; RETRIEVING; DRAFTING; ERROR; DRAFTING; ERROR;
         ERROR] ∧
    Forall (λ event, state event = ERROR → generic_message (ev_message event))
           yielded.
Proof.
  destruct (streaming_yields_states_and_generic_errors env_never_json
              "Draft a breach notification clause." sample_profile
              (start_of env_never_json (0, 0%float)) _ _
              ltac:(vm_compute; reflexivity))
    as (yielded & Hrun & _ & Hstates & Hgeneric).
  exists yielded. eexists. split; [exact Hrun|]. split; [exact Hstates|done].
Defined.

(* ===================================================================== *)
(** * Context and retry prompts                                           *)
(* ===================================================================== *)

(** X15: the context text is built from fifteen chunks at most: the first
    fifteen of the chunks whose document name is the one the contract type
    maps to or, when no chunk has that name, the first fifteen chunks of
    the store (the cut of the fallback at twenty chunks never shows); an
    empty store gives an empty context. *)
Theorem context_is_built_from_fifteen_chunks
    (constraints : ContractConstraints) (chunks : list DocumentChunk) :
  let target :=
    default "" (type_to_prefix !! ContractType_value (contract_type constraints)) in
  let matching := filter (λ c, document_name c = target) chunks in
  let used := take 15 (match matching with [] => chunks | _ => matching end) in
  relevant_context constraints chunks
    = Py.join (nl +:+ "---" +:+ nl) (context_part <$> used)
  ∧ length used ≤ 15
  ∧ relevant_context constraints [] = EmptyString.
Proof.
  intros target matching used. split; [|split].
  - unfold relevant_context. fold target. fold matching. unfold used.
    destruct matching; [|done]. by rewrite take_take.
  - unfold used. rewrite length_take. lia.
  - reflexivity.
Qed.

Lemma contains_prefix needle hay :
  String.prefix needle hay = true → Py.contains needle hay = true.
Proof. intros Hp. destruct hay; simpl in *; by rewrite Hp. Qed.

Lemma contains_cons needle c hay :
  Py.contains needle (String c hay)
  = String.prefix needle (String c hay) || Py.contains needle hay.
Proof. reflexivity. Qed.

Lemma contains_app_r needle a b :
  Py.contains needle b = true → Py.contains needle (a +:+ b) = true.
Proof.
  intros Hb. induction a as [|c a IH]; [done|].
  change (String c a +:+ b) with (String c (a +:+ b)).
  rewrite contains_cons, IH. apply orb_true_r.
Qed.

Lemma prefix_app_l needle a b :
  String.prefix needle a = true → String.prefix needle (a +:+ b) = true.
Proof.
  revert a. induction needle as [|c needle IH]; intros a Hp.
  - by destruct (a +:+ b).
  - destruct a as [|c' a]; [done|]. simpl in *.
    destruct (Ascii.ascii_dec c c'); [by apply IH|done].
Qed.

Lemma contains_app_l needle a b :
  Py.contains needle a = true → Py.contains needle (a +:+ b) = true.
Proof.
  induction a as [|c a IH].
  - simpl. rewrite orb_false_r. intros Hp. apply contains_prefix.
    by apply (prefix_app_l needle EmptyString b).
  - change (String c a +:+ b) with (String c (a +:+ b)).
    rewrite !contains_cons. intros [Hp|Hc]%orb_true_iff.
    + apply (prefix_app_l _ _ b) in Hp.
      change (String c a +:+ b) with (String c (a +:+ b)) in Hp.
      by rewrite Hp.
    + rewrite (IH Hc). apply orb_true_r.
Qed.

Lemma contains_self needle : Py.contains needle needle = true.
Proof. apply contains_prefix, prefix_refl. Qed.

Lemma contains_join needle sep parts part :
  part ∈ parts → Py.contains needle part = true →
  Py.contains needle (Py.join sep parts) = true.
Proof.
  intros Hin Hpart. induction parts as [|x [|y parts] IH].
  - by apply elem_of_nil in Hin.
  - by apply list_elem_of_singleton in Hin as ->.
  - change (Py.join sep (x :: y :: parts))
      with (x +:+ sep +:+ Py.join sep (y :: parts)).
    apply elem_of_cons in Hin as [->|Hin].
    + by apply contains_app_l.
    + apply contains_app_r, contains_app_r. by apply IH.
Qed.

Lemma contains_text_block needle lines line :
  line ∈ lines → Py.contains needle line = true →
  Py.contains needle (text_block lines) = true.
Proof.
  intros Hin Hline. induction lines as [|x lines IH].
  - by apply elem_of_nil in Hin.
  - simpl. apply elem_of_cons in Hin as [->|Hin].
    + by apply contains_app_l.
    + apply contains_app_r, contains_app_r. by apply IH.
Qed.

Lemma retry_lines_spec violations : ∀ summary_lines fix_lines,
  retry_lines violations summary_lines fix_lines =
    (summary_lines ++ (summary_line <$> violations),
     fix_lines ++ (fix_line <$> filter (λ v, Py.truthy (suggestion v) = true)
                                       violations)).
Proof.
  induction violations as [|v violations IH]; intros summary_lines fix_lines;
    simpl.
  - by rewrite !app_nil_r.
  - rewrite IH, filter_cons. fold (summary_line v). fold (fix_line v).
    destruct (Py.truthy (suggestion v)); case_decide; try done;
      by rewrite <- !app_assoc.
Qed.

Lemma _build_retry_context_unfold violations :
  _build_retry_context violations =
    RETRY_INJECTION_TEMPLATE
      (Py.join nl (summary_line <$> violations))
      (match fix_line <$> filter (λ v, Py.truthy (suggestion v) = true)
                                 violations with
       | [] => "Review and correct the violations."
       | fix_lines => Py.join nl fix_lines
       end).
Proof.
  unfold _build_retry_context. rewrite retry_lines_spec.
  cbn [app]. by destruct (fix_line <$> _).
Qed.

Lemma contains_empty hay : Py.contains EmptyString hay = true.
Proof. by destruct hay. Qed.

(** X16: the corrective text built from a list of violations names every
    one of them: it holds the field and the message of each violation
    and, for a violation that has one, its suggestion. *)
Theorem retry_context_names_every_violation
    (violations : list ValidationViolation) (v : ValidationViolation) :
  v ∈ violations →
  Py.contains (field v) (_build_retry_context violations) = true
  ∧ Py.contains (message v) (_build_retry_context violations) = true
  ∧ Py.contains (suggestion v) (_build_retry_context violations) = true.
Proof.
  intros Hin. rewrite _build_retry_context_unfold.
  set (fixes := filter (λ v, Py.truthy (suggestion v) = true) violations).
  unfold RETRY_INJECTION_TEMPLATE.
  assert (Hsummary : ∀ needle fix_suggestions,
            Py.contains needle (summary_line v) = true →
            Py.contains needle
              (text_block
                 [EmptyString;
                  "YOUR PREVIOUS ATTEMPT WAS REJECTED. You must fix the following violations:";
                  EmptyString;
                  Py.join nl (summary_line <$> violations);
                  EmptyString;
                  "SPECIFIC FIXES REQUIRED:";
                  fix_suggestions;
                  EmptyString;
                  "Generate a CORRECTED version that addresses ALL violations above.";
                  "Maintain the same JSON schema."]) = true).
  { intros needle fix_suggestions Hline.
    eapply contains_text_block.
    - do 3 right. left.
    - eapply contains_join; [|exact Hline]. apply list_elem_of_fmap.
      by exists v. }
  split; [|split].
  - apply Hsummary. unfold summary_line.
    do 3 apply contains_app_r. apply contains_app_l, contains_self.
  - apply Hsummary. unfold summary_line.
    do 5 apply contains_app_r. apply contains_self.
  - destruct (Py.truthy (suggestion v)) eqn:Htruthy.
    + assert (Hfix : v ∈ fixes) by by apply list_elem_of_filter.
      eapply contains_text_block.
      * do 6 right. left.
      * destruct (fix_line <$> fixes) as [|l ls] eqn:Hfixes.
        { apply (list_elem_of_fmap_2 fix_line) in Hfix.
          rewrite Hfixes in Hfix. by apply elem_of_nil in Hfix. }
        rewrite <- Hfixes. eapply contains_join.
        -- apply list_elem_of_fmap. by exists v.
        -- unfold fix_line. apply contains_app_r, contains_self.
    + assert (suggestion v = EmptyString) as ->
        by by destruct (suggestion v).
      apply contains_empty.
Qed.

Lemma retry_context_names_every_violation_witness :
  Py.contains "governing_jurisdiction"
    (_build_retry_context (_check_jurisdiction wrong_output sample_profile))
  = true
  ∧ Py.contains "Expected jurisdiction 'European Union' but got 'United Kingdom'."
      (_build_retry_context (_check_jurisdiction wrong_output sample_profile))
    = true
  ∧ Py.contains "Change the governing jurisdiction to 'European Union'."
      (_build_retry_context (_check_jurisdiction wrong_output sample_profile))
    = true.
Proof.
  apply (retry_context_names_every_violation
           (_check_jurisdiction wrong_output sample_profile)
           {| field := "governing_jurisdiction";
              message := "Expected jurisdiction 'European Union' but got 'United Kingdom'.";
              severity := HIGH;
              suggestion := "Change the governing jurisdiction to 'European Union'." |}).
  vm_compute. apply list_elem_of_here.
Defined.

(* ===================================================================== *)
(** * The citations of a document                                         *)
(* ===================================================================== *)

Lemma truthy_nonempty s : Py.truthy s = true → s ≠ EmptyString.
Proof. by destruct s. Qed.

Lemma parse_one_size content doc_name m later citations :
  size (parse_one content doc_name m later citations) ≤ S (size citations).
Proof.
  unfold parse_one. destruct (Py.truthy _); [|lia].
  set (sid := Py.strip (Re.group content m 1)).
  destruct (citations !! sid) eqn:Hsid.
  - rewrite map_size_insert_Some by done. lia.
  - rewrite map_size_insert_None by done. lia.
Qed.

Lemma parse_loop_size content doc_name matches : ∀ citations,
  size (parse_loop content doc_name matches citations)
  ≤ size citations + length matches.
Proof.
  induction matches as [|m later IH]; intros citations; simpl; [lia|].
  etrans; [apply IH|].
  pose proof (parse_one_size content doc_name m later citations). lia.
Qed.

Lemma parse_loop_fields content doc_name (P : Citation → Prop) matches :
  (∀ cit, cit_document_name cit = doc_name → cit_text cit ≠ EmptyString →
          Py.strip (cit_text cit) = cit_text cit → P cit) →
  ∀ citations,
    map_Forall (λ _, P) citations →
    map_Forall (λ _, P) (parse_loop content doc_name matches citations).
Proof.
  intros HP. induction matches as [|m later IH]; intros citations Hall;
    simpl; [done|].
  apply IH. unfold parse_one.
  destruct (Py.truthy _) eqn:Htext; [|done].
  apply map_Forall_insert_2; [|done].
  apply HP; simpl; [done| |].
  - by apply truthy_nonempty.
  - apply strip_idem.
Qed.

(** X17: a document yields at most one citation for each of its anchors,
    and every citation recorded from it carries the name of the document
    and a text that is not empty and has no white space at either end. *)
Theorem recorded_citations_are_well_formed
    (content doc_name sid : string) (cit : Citation) :
  _parse_citations content doc_name !! sid = Some cit →
  cit_document_name cit = doc_name
  ∧ cit_text cit ≠ EmptyString
  ∧ Py.strip (cit_text cit) = cit_text cit
  ∧ size (_parse_citations content doc_name)
    ≤ length (Re.finditer SOURCE_ID_PATTERN content).
Proof.
  intros Hcit. unfold _parse_citations in *.
  pose proof (parse_loop_fields content doc_name
    (λ cit, cit_document_name cit = doc_name
            ∧ cit_text cit ≠ EmptyString
            ∧ Py.strip (cit_text cit) = cit_text cit)
    (Re.finditer SOURCE_ID_PATTERN content)) as Hfields.
  destruct (Hfields (λ _ H1 H2 H3, conj H1 (conj H2 H3)) ∅
              (map_Forall_empty _) sid cit Hcit) as (? & ? & ?).
  repeat split; [done..|].
  etrans; [apply parse_loop_size|]. by rewrite map_size_empty.
Qed.

Lemma recorded_citations_are_well_formed_witness :
  ∃ cit,
    _parse_citations two_anchor_document "notes" !! "A.2" = Some cit
    ∧ cit_document_name cit = "notes"
    ∧ cit_text cit ≠ EmptyString
    ∧ size (_parse_citations two_anchor_document "notes") ≤ 2.
Proof.
  assert (Hcit : _parse_citations two_anchor_document "notes" !! "A.2"
                 = Some {| cit_source_id := "A.2"; cit_text := "Text two.";
                           cit_document_name := "notes";
                           section_heading := "Introduction" |})
    by (vm_compute; reflexivity).
  eexists. split; [exact Hcit|].
  destruct (recorded_citations_are_well_formed _ _ _ _ Hcit)
    as (Hname & Htext & _ & Hsize).
  split; [exact Hname|]. split; [exact Htext|]. exact Hsize.
Defined.

(* ===================================================================== *)
(** * The chunks of a document                                            *)
(* ===================================================================== *)

Lemma len_append (s1 s2 : string) :
  Py.len (s1 +:+ s2) = Py.len s1 + Py.len s2.
Proof.
  induction s1 as [|a s1 IH]; simpl; [done|]. rewrite IH. lia.
Qed.

Lemma lstrip_len s : Py.len (Py.lstrip s) ≤ Py.len s.
Proof.
  induction s as [|a s IH]; simpl; [done|].
  destruct (Py.isspace a); simpl; lia.
Qed.

Lemma rstrip_len s : Py.len (Py.rstrip s) ≤ Py.len s.
Proof.
  induction s as [|a s IH]; simpl; [done|].
  destruct (Py.rstrip s) as [|b r]; [destruct (Py.isspace a)|];
    simpl in *; lia.
Qed.

Lemma strip_len s : Py.len (Py.strip s) ≤ Py.len s.
Proof.
  unfold Py.strip. etrans; [apply lstrip_len|apply rstrip_len].
Qed.

Section Chunking.

Variables (content doc_name : string) (chunk_size : nat).

Lemma paragraph_chunk_in_bounds section section_idx vars :
  section ∈ split_sections content →
  paragraph_inv content doc_name chunk_size section vars →
  chunk_in_bounds content doc_name chunk_size
    (paragraph_chunk doc_name section_idx vars).
Proof.
  intros Hsection [_ Hcurrent]. split; [done|]. split; [apply strip_idem|].
  simpl. destruct Hcurrent as [Hlen|Hpara].
  - left. etrans; [apply strip_len|done].
  - right. by exists section, (current_chunk vars).
Qed.

Lemma paragraph_step_inv section section_idx para vars :
  section ∈ split_sections content →
  para ∈ split_blank_line section →
  paragraph_inv content doc_name chunk_size section vars →
  paragraph_inv content doc_name chunk_size section
    (paragraph_step doc_name chunk_size section_idx para vars).
Proof.
  intros Hsection Hpara Hinv. unfold paragraph_step.
  destruct (Nat.ltb _ _) eqn:Hlong;
    destruct (Py.truthy (current_chunk vars)) eqn:Hcurrent;
    (split; [|try by right]); cbn [andb pv_chunks current_chunk];
    try apply Hinv.
  - apply Forall_app. split; [apply Hinv|].
    apply Forall_singleton. by eapply paragraph_chunk_in_bounds.
  - left. apply Nat.ltb_ge in Hlong.
    rewrite !len_append. change (Py.len nl) with 1. lia.
Qed.

Lemma paragraph_loop_inv section section_idx paragraphs : ∀ vars,
  section ∈ split_sections content →
  Forall (λ para, para ∈ split_blank_line section) paragraphs →
  paragraph_inv content doc_name chunk_size section vars →
  paragraph_inv content doc_name chunk_size section
    (paragraph_loop doc_name chunk_size section_idx paragraphs vars).
Proof.
  induction paragraphs as [|para paragraphs IH]; intros vars Hsection Hall Hinv;
    simpl; [done|].
  apply Forall_cons in Hall as [Hpara Hall].
  apply IH; [done..|]. by apply paragraph_step_inv.
Qed.

Lemma chunk_section_in_bounds section section_idx chunks :
  section ∈ split_sections content →
  Forall (chunk_in_bounds content doc_name chunk_size) chunks →
  Forall (chunk_in_bounds content doc_name chunk_size)
    (chunk_section doc_name chunk_size section_idx section chunks).
Proof.
  intros Hsection Hchunks. unfold chunk_section.
  destruct (Nat.leb _ _) eqn:Hshort.
  - apply Forall_app. split; [done|]. apply Forall_singleton.
    split; [done|]. split; [apply strip_idem|]. left. simpl.
    apply Nat.leb_le in Hshort. pose proof (strip_len section). lia.
  - set (vars := paragraph_loop _ _ _ _ _).
    assert (Hinv : paragraph_inv content doc_name chunk_size section vars).
    { apply paragraph_loop_inv; [done| |].
      - by apply Forall_forall.
      - split; [done|]. left. simpl. lia. }
    destruct (Py.truthy _); [|apply Hinv].
    apply Forall_app. split; [apply Hinv|]. apply Forall_singleton.
    by eapply paragraph_chunk_in_bounds.
Qed.

Lemma section_loop_in_bounds sections : ∀ section_idx chunks,
  Forall (λ section, section ∈ split_sections content) sections →
  Forall (chunk_in_bounds content doc_name chunk_size) chunks →
  Forall (chunk_in_bounds content doc_name chunk_size)
    (section_loop doc_name chunk_size section_idx sections chunks).
Proof.
  induction sections as [|section sections IH]; intros section_idx chunks Hall Hchunks;
    simpl; [done|].
  apply Forall_cons in Hall as [Hsection Hall].
  apply IH; [done|]. by apply chunk_section_in_bounds.
Qed.

End Chunking.

(** X18: every chunk of a document of ASCII text carries the name of the
    document and a text without white space at either end; its text is at
    most two characters longer than the chunk size, unless it is one whole
    paragraph of a section of the document. *)
Theorem chunks_are_stripped_and_bounded
    (content doc_name : string) (chunk_size : nat) (c : DocumentChunk) :
  Py.isascii content = true →
  c ∈ _chunk_document content doc_name chunk_size →
  document_name c = doc_name
  ∧ Py.strip (chunk_text c) = chunk_text c
  ∧ (Py.len (chunk_text c) ≤ chunk_size + 2
     ∨ ∃ section para,
         section ∈ split_sections content
         ∧ para ∈ split_blank_line section
         ∧ chunk_text c = Py.strip para).
Proof.
  intros _ Hin. unfold _chunk_document in Hin.
  assert (Hall : Forall (chunk_in_bounds content doc_name chunk_size)
                   (section_loop doc_name chunk_size 0
                      (split_sections content) [])).
  { apply section_loop_in_bounds; [|done]. by apply Forall_forall. }
  rewrite Forall_forall in Hall. exact (Hall c Hin).
Qed.

Lemma chunks_are_stripped_and_bounded_witness :
  ∃ c, _chunk_document two_paragraph_document "notes" 12 = [c]
       ∧ Py.len (chunk_text c) = 13
       ∧ document_name c = "notes"
       ∧ Py.strip (chunk_text c) = chunk_text c.
Proof.
  assert (Hchunks : _chunk_document two_paragraph_document "notes" 12
                    = [ {| chunk_id := "notes::chunk_0_0";
                           chunk_text := two_paragraph_document;
                           document_name := "notes";
                           source_ids := [] |} ])
    by (vm_compute; reflexivity).
  eexists. split; [exact Hchunks|]. split; [reflexivity|].
  destruct (chunks_are_stripped_and_bounded two_paragraph_document "notes" 12
              {| chunk_id := "notes::chunk_0_0";
                 chunk_text := two_paragraph_document;
                 document_name := "notes";
                 source_ids := [] |}) as (Hname & Hstrip & _).
  - reflexivity.
  - rewrite Hchunks. apply list_elem_of_here.
  - split; [exact Hname|exact Hstrip].
Defined.

(* ===================================================================== *)
(** * The identifiers of the chunks                                       *)
(* ===================================================================== *)

Lemma append_inj_l (s a b : string) : s +:+ a = s +:+ b → a = b.
Proof. induction s as [|c s IH]; simpl; [done|]. intros [= H]. by apply IH. Qed.

Lemma string_of_uint_digits d :
  all_chars isdigit (DecimalString.NilEmpty.string_of_uint d) = true.
Proof. induction d; simpl; try done. Qed.

Lemma str_nat_digits n : all_chars isdigit (Py.str_nat n) = true.
Proof.
  unfold Py.str_nat, DecimalString.NilZero.string_of_uint.
  destruct (Nat.to_uint n) eqn:Hd; try done;
    rewrite <- Hd; apply string_of_uint_digits.
Qed.

Lemma str_nat_inj n n' : Py.str_nat n = Py.str_nat n' → n = n'.
Proof.
  unfold Py.str_nat. intros Heq.
  apply DecimalNat.Unsigned.to_uint_inj.
  assert (Hnonnil : ∀ k, Nat.to_uint k ≠ Decimal.Nil).
  { intros k. rewrite <- (DecimalNat.Unsigned.of_to k) at 1.
    rewrite DecimalNat.Unsigned.to_of. apply DecimalFacts.unorm_nonnil. }
  pose proof (DecimalString.NilZero.usu _ (Hnonnil n)) as Hn.
  pose proof (DecimalString.NilZero.usu _ (Hnonnil n')) as Hn'.
  rewrite Heq in Hn. rewrite Hn in Hn'. by injection Hn'.
Qed.

Lemma digits_then_mark (a b x y : string) :
  all_chars isdigit a = true → all_chars isdigit b = true →
  a +:+ String "_" x = b +:+ String "_" y → a = b ∧ x = y.
Proof.
  revert b. induction a as [|c a IH]; intros [|c' b] Ha Hb; simpl in *.
  - by intros [= ->].
  - intros [= <- _]. done.
  - intros [= -> _]. done.
  - intros [= -> Heq]. apply andb_prop in Ha as [_ Ha], Hb as [_ Hb].
    destruct (IH b Ha Hb Heq) as [-> ->]. done.
Qed.

Lemma digits_without_mark (a b y : string) :
  all_chars isdigit a = true → a ≠ b +:+ String "_" y.
Proof.
  revert b. induction a as [|c a IH]; intros [|c' b] Ha; simpl in *;
    try done.
  - intros [= -> _]. done.
  - intros [= _ Heq]. apply andb_prop in Ha as [_ Ha]. by eapply IH.
Qed.

Lemma section_chunk_id_inj doc_name i j :
  section_chunk_id doc_name i = section_chunk_id doc_name j → i = j.
Proof.
  unfold section_chunk_id. intros Heq%append_inj_l%append_inj_l.
  by apply str_nat_inj.
Qed.

Lemma paragraph_chunk_id_inj doc_name i k j l :
  paragraph_chunk_id doc_name i k = paragraph_chunk_id doc_name j l →
  i = j ∧ k = l.
Proof.
  unfold paragraph_chunk_id. intros Heq%append_inj_l%append_inj_l.
  apply digits_then_mark in Heq as [Hi Hk]; [|apply str_nat_digits..].
  split; by apply str_nat_inj.
Qed.

Lemma section_paragraph_chunk_id doc_name i j k :
  section_chunk_id doc_name i ≠ paragraph_chunk_id doc_name j k.
Proof.
  unfold section_chunk_id, paragraph_chunk_id.
  intros Heq%append_inj_l%append_inj_l.
  by apply digits_without_mark in Heq; [|apply str_nat_digits].
Qed.

Lemma id_of_earlier_section_mono doc_name i id :
  id_of_earlier_section doc_name i id →
  id_of_earlier_section doc_name (S i) id.
Proof. intros (j & Hj & Hid). exists j. split; [lia|done]. Qed.

Section ChunkIds.

Variables (doc_name : string) (chunk_size : nat).

Lemma paragraph_step_ids section_idx para vars :
  paragraph_ids_inv doc_name section_idx vars →
  paragraph_ids_inv doc_name section_idx
    (paragraph_step doc_name chunk_size section_idx para vars).
Proof.
  intros [Hnodup Hids]. unfold paragraph_step.
  destruct (_ && _); [|done]. split; cbn [pv_chunks sub_idx].
  - rewrite fmap_app. apply NoDup_app. split; [done|]. split; [|apply NoDup_singleton].
    intros id (c & -> & Hc)%list_elem_of_fmap Hnew%list_elem_of_singleton.
    rewrite Forall_forall in Hids.
    destruct (Hids c Hc) as [(j & Hj & [Hid|[k Hid]])|(k & Hk & Hid)];
      rewrite Hid in Hnew; simpl in Hnew.
    + by apply section_paragraph_chunk_id in Hnew.
    + apply paragraph_chunk_id_inj in Hnew. lia.
    + apply paragraph_chunk_id_inj in Hnew. lia.
  - apply Forall_app. split.
    + eapply Forall_impl; [exact Hids|]. intros c [?|(k & Hk & Hid)]; [by left|].
      right. exists k. split; [lia|done].
    + apply Forall_singleton. right. exists (sub_idx vars). split; [lia|done].
Qed.

Lemma paragraph_loop_ids section_idx paragraphs : ∀ vars,
  paragraph_ids_inv doc_name section_idx vars →
  paragraph_ids_inv doc_name section_idx
    (paragraph_loop doc_name chunk_size section_idx paragraphs vars).
Proof.
  induction paragraphs as [|para paragraphs IH]; intros vars Hinv; simpl;
    [done|].
  by apply IH, paragraph_step_ids.
Qed.

Lemma chunk_section_ids section_idx section chunks :
  section_ids_inv doc_name section_idx chunks →
  section_ids_inv doc_name (S section_idx)
    (chunk_section doc_name chunk_size section_idx section chunks).
Proof.
  intros [Hnodup Hids]. unfold chunk_section.
  destruct (Nat.leb _ _).
  - split.
    + rewrite fmap_app. apply NoDup_app. split; [done|].
      split; [|apply NoDup_singleton].
      intros id (c & -> & Hc)%list_elem_of_fmap Hnew%list_elem_of_singleton.
      rewrite Forall_forall in Hids.
      destruct (Hids c Hc) as (j & Hj & [Hid|[k Hid]]);
        rewrite Hid in Hnew; simpl in Hnew.
      * apply section_chunk_id_inj in Hnew. lia.
      * symmetry in Hnew. by apply section_paragraph_chunk_id in Hnew.
    + apply Forall_app. split.
      * eapply Forall_impl; [exact Hids|].
        intros c. apply id_of_earlier_section_mono.
      * apply Forall_singleton. exists section_idx. split; [lia|by left].
  - set (vars := paragraph_loop _ _ _ _ _).
    assert (Hinv : paragraph_ids_inv doc_name section_idx vars).
    { apply paragraph_loop_ids. split; [done|].
      eapply Forall_impl; [exact Hids|]. by left. }
    destruct Hinv as [Hnodup' Hids'].
    assert (Hold : Forall (λ c, id_of_earlier_section doc_name (S section_idx)
                                  (chunk_id c)) (pv_chunks vars)).
    { eapply Forall_impl; [exact Hids'|].
      intros c [?|(k & Hk & Hid)]; [by apply id_of_earlier_section_mono|].
      exists section_idx. split; [lia|]. right. by exists k. }
    destruct (Py.truthy _); [|done]. split.
    + rewrite fmap_app. apply NoDup_app. split; [done|].
      split; [|apply NoDup_singleton].
      intros id (c & -> & Hc)%list_elem_of_fmap Hnew%list_elem_of_singleton.
      rewrite Forall_forall in Hids'.
      destruct (Hids' c Hc) as [(j & Hj & [Hid|[k Hid]])|(k & Hk & Hid)];
        rewrite Hid in Hnew; simpl in Hnew.
      * by apply section_paragraph_chunk_id in Hnew.
      * apply paragraph_chunk_id_inj in Hnew. lia.
      * apply paragraph_chunk_id_inj in Hnew. lia.
    + apply Forall_app. split; [done|]. apply Forall_singleton.
      exists section_idx. split; [lia|]. right. by exists (sub_idx vars).
Qed.

Lemma section_loop_ids sections : ∀ section_idx chunks,
  section_ids_inv doc_name section_idx chunks →
  NoDup (chunk_id <$>
           section_loop doc_name chunk_size section_idx sections chunks).
Proof.
  induction sections as [|section sections IH]; intros section_idx chunks Hinv;
    simpl; [apply Hinv|].
  by apply IH, chunk_section_ids.
Qed.

End ChunkIds.

(** X19: no two chunks of a document have the same identifier. *)
Theorem chunk_ids_are_distinct (content doc_name : string) (chunk_size : nat) :
  NoDup (chunk_id <$> _chunk_document content doc_name chunk_size).
Proof.
  unfold _chunk_document. apply section_loop_ids.
  split; [apply NoDup_nil_2|done].
Qed.

(* ===================================================================== *)
(** * The document store                                                  *)
(* ===================================================================== *)

Lemma load_file_ok md_file s :
  readable md_file = true →
  ∃ s', Ingestion.load_file md_file s = (Ok (), s')
        ∧ Ingestion._is_loaded s' = Ingestion._is_loaded s
        ∧ Ingestion._citation_index s' = file_citations md_file ∪ Ingestion._citation_index s
        ∧ Ingestion._document_chunks s' = Ingestion._document_chunks s ++ file_chunks md_file
        ∧ length (Ingestion._document_metadata s') = S (length (Ingestion._document_metadata s)).
Proof.
  unfold readable, Ingestion.load_file, file_citations, file_chunks.
  destruct (Ingestion.read_text md_file) as [content|e]; [intros _|done].
  eexists. split; [done|]. simpl.
  rewrite length_app. simpl. repeat split; try done; lia.
Qed.

Lemma load_file_raise md_file s :
  readable md_file = false → ∃ e, Ingestion.load_file md_file s = (Raise e, s).
Proof.
  unfold readable, Ingestion.load_file.
  destruct (Ingestion.read_text md_file) as [content|e]; [done|]. by exists e.
Qed.

(** What the loop over the files leaves: the files before the first one
    that cannot be read have been added to the store. *)
Lemma files_loop_ok files : ∀ s,
  Forall (λ md_file, readable md_file = true) files →
  ∃ s', Ingestion.files_loop files s = (Ok (), s')
        ∧ Ingestion._is_loaded s' = Ingestion._is_loaded s
        ∧ Ingestion._citation_index s'
          = foldl (λ index md_file, file_citations md_file ∪ index)
              (Ingestion._citation_index s) files
        ∧ Ingestion._document_chunks s'
          = Ingestion._document_chunks s ++ concat (file_chunks <$> files)
        ∧ length (Ingestion._document_metadata s')
          = length (Ingestion._document_metadata s) + length files.
Proof.
  induction files as [|md_file files IH]; intros s Hall; cbn [Ingestion.files_loop].
  - exists s. simpl. rewrite app_nil_r. repeat split; try done; lia.
  - apply Forall_cons in Hall as [Hread Hall].
    destruct (load_file_ok md_file s Hread)
      as (s1 & -> & Hloaded & Hindex & Hchunks & Hmeta).
    destruct (IH s1 Hall) as (s' & -> & Hloaded' & Hindex' & Hchunks' & Hmeta').
    exists s'. simpl.
    rewrite Hindex', Hchunks', Hmeta', Hindex, Hchunks, Hmeta, <- app_assoc.
    repeat split; try done; [congruence|lia].
Qed.

Lemma files_loop_raise read bad rest : ∀ s,
  Forall (λ md_file, readable md_file = true) read →
  readable bad = false →
  ∃ e s', Ingestion.files_loop (read ++ bad :: rest) s = (Raise e, s')
          ∧ Ingestion._is_loaded s' = Ingestion._is_loaded s
          ∧ Ingestion._document_chunks s'
            = Ingestion._document_chunks s ++ concat (file_chunks <$> read)
          ∧ length (Ingestion._document_metadata s')
            = length (Ingestion._document_metadata s) + length read.
Proof.
  intros s Hread Hbad.
  assert (Hsplit : ∀ files files' s, Ingestion.files_loop (files ++ files') s
            = match Ingestion.files_loop files s with
              | (Ok _, s') => Ingestion.files_loop files' s'
              | (Raise e, s') => (Raise e, s')
              end).
  { clear. induction files as [|f files IH]; intros files' s; simpl; [done|].
    destruct (Ingestion.load_file f s) as [[u|e] s1]; [apply IH|done]. }
  rewrite Hsplit.
  destruct (files_loop_ok read s Hread) as (s' & -> & Hloaded & _ & Hchunks & Hmeta).
  cbn [Ingestion.files_loop].
  destruct (load_file_raise bad s' Hbad) as [e ->].
  by exists e, s'.
Qed.

Lemma files_loop_ok_inv files : ∀ s s',
  Ingestion.files_loop files s = (Ok (), s') →
  Forall (λ md_file, readable md_file = true) files.
Proof.
  induction files as [|md_file files IH]; intros s s' Hloop; [done|].
  cbn [Ingestion.files_loop] in Hloop.
  destruct (readable md_file) eqn:Hread.
  - destruct (load_file_ok md_file s Hread) as (s1 & Hfile & _).
    rewrite Hfile in Hloop. constructor; [done|]. by eapply IH.
  - destruct (load_file_raise md_file s Hread) as [e Hfile].
    by rewrite Hfile in Hloop.
Qed.

Lemma files_loop_loaded files : ∀ s r s',
  Ingestion.files_loop files s = (r, s') → Ingestion._is_loaded s' = Ingestion._is_loaded s.
Proof.
  induction files as [|md_file files IH]; intros s r s' Hloop;
    cbn [Ingestion.files_loop] in Hloop; [by injection Hloop as _ <-|].
  destruct (readable md_file) eqn:Hread.
  - destruct (load_file_ok md_file s Hread) as (s1 & Hfile & Hloaded & _).
    rewrite Hfile in Hloop. rewrite <- Hloaded. by eapply IH.
  - destruct (load_file_raise md_file s Hread) as [e Hfile].
    rewrite Hfile in Hloop. by injection Hloop as _ <-.
Qed.

Lemma load_documents_ok disk s :
  Ingestion._is_loaded s = false → disk_readable disk →
  ∃ s', Ingestion.load_documents disk s = (Ok (), s')
        ∧ Ingestion._is_loaded s' = true
        ∧ Ingestion._citation_index s'
          = foldl (λ index md_file, file_citations md_file ∪ index)
              (Ingestion._citation_index s) (Ingestion.md_files disk)
        ∧ Ingestion._document_chunks s'
          = Ingestion._document_chunks s ++ concat (file_chunks <$> Ingestion.md_files disk)
        ∧ length (Ingestion._document_metadata s')
          = length (Ingestion._document_metadata s) + length (Ingestion.md_files disk).
Proof.
  intros Hloaded (Hdir & Hfiles & Hall). unfold Ingestion.load_documents.
  rewrite Hloaded, Hdir. cbn [negb].
  destruct (files_loop_ok (Ingestion.md_files disk) s Hall)
    as (s1 & -> & _ & Hindex & Hchunks & Hmeta).
  destruct (Ingestion.md_files disk) as [|md_file files] eqn:Hlist; [done|].
  by eexists.
Qed.

(** X20: a load marks the store as loaded exactly when it returns, and,
    from a store that is not loaded, it returns exactly when the directory
    exists, holds a Markdown file, and every one of its files can be
    read. *)
Theorem load_documents_succeeds_iff_all_read
    (disk : Ingestion.Disk) (s s' : Ingestion.Store) (r : Res unit) :
  Ingestion._is_loaded s = false →
  Ingestion.load_documents disk s = (r, s') →
  (r = Ok () ↔ disk_readable disk) ∧ (Ingestion._is_loaded s' = true ↔ r = Ok ()).
Proof.
  intros Hloaded Hload. unfold Ingestion.load_documents in Hload.
  rewrite Hloaded in Hload. unfold disk_readable.
  destruct (Ingestion.doc_dir_exists disk); cbn [negb] in Hload.
  2: { injection Hload as <- <-. rewrite Hloaded.
       split; (split; [done|]); [by intros (? & _)|done]. }
  destruct (Ingestion.md_files disk) as [|md_file files] eqn:Hfiles.
  { injection Hload as <- <-. rewrite Hloaded.
    split; (split; [done|]); [by intros (_ & ? & _)|done]. }
  destruct (Ingestion.files_loop _ s) as [[u|e] s1] eqn:Hloop; [destruct u|].
  - injection Hload as <- <-. simpl. repeat split; try done.
    by eapply files_loop_ok_inv.
  - injection Hload as <- <-.
    rewrite (files_loop_loaded _ _ _ _ Hloop), Hloaded.
    split; (split; [done|]); [|done]. intros (_ & _ & Hall).
    destruct (files_loop_ok _ s Hall) as (s2 & Hok & _). congruence.
Qed.

Lemma load_documents_succeeds_iff_all_read_witness :
  ∃ s', Ingestion.load_documents (sample_disk [dpa_file; notes_file]) Ingestion.initial = (Ok (), s')
        ∧ disk_readable (sample_disk [dpa_file; notes_file])
        ∧ Ingestion._is_loaded s' = true.
Proof.
  destruct (Ingestion.load_documents (sample_disk [dpa_file; notes_file]) Ingestion.initial)
    as [r s'] eqn:Hload.
  destruct (load_documents_succeeds_iff_all_read _ Ingestion.initial s' r eq_refl Hload)
    as [Hok Hflag].
  assert (Hr : r = Ok ()) by (vm_compute in Hload; by injection Hload as <- _).
  exists s'. rewrite Hr. split; [done|]. split; [by apply Hok|by apply Hflag].
Defined.

(** X21: a load is not undone when it fails.  When a file cannot be read,
    the load raises and leaves in the store, which it does not mark as
    loaded, the chunks of the files before that one; the next load, if all
    files can then be read, appends the chunks of every file, so that the
    store holds those of the files read the first time twice. *)
Theorem failed_load_is_repeated
    (disk disk' : Ingestion.Disk) (s : Ingestion.Store) (read rest : list Ingestion.MdFile) (bad : Ingestion.MdFile) :
  Ingestion._is_loaded s = false →
  Ingestion.doc_dir_exists disk = true →
  Ingestion.md_files disk = read ++ bad :: rest →
  Forall (λ md_file, readable md_file = true) read →
  readable bad = false →
  disk_readable disk' →
  ∃ e s1 s2,
    Ingestion.load_documents disk s = (Raise e, s1)
    ∧ Ingestion._is_loaded s1 = false
    ∧ Ingestion.load_documents disk' s1 = (Ok (), s2)
    ∧ Ingestion._document_chunks s2
      = Ingestion._document_chunks s ++ concat (file_chunks <$> read)
        ++ concat (file_chunks <$> Ingestion.md_files disk')
    ∧ length (Ingestion._document_metadata s2)
      = length (Ingestion._document_metadata s) + length read + length (Ingestion.md_files disk').
Proof.
  intros Hloaded Hdir Hfiles Hread Hbad Hdisk'.
  destruct (files_loop_raise read bad rest s Hread Hbad)
    as (e & s1 & Hloop & Hloaded1 & Hchunks1 & Hmeta1).
  rewrite Hloaded in Hloaded1.
  destruct (load_documents_ok disk' s1 Hloaded1 Hdisk')
    as (s2 & Hload2 & _ & _ & Hchunks2 & Hmeta2).
  exists e, s1, s2. split.
  { unfold Ingestion.load_documents. rewrite Hloaded, Hdir, Hfiles, Hloop.
    cbn [negb]. by destruct read. }
  rewrite Hchunks2, Hmeta2, Hchunks1, Hmeta1, <- app_assoc. done.
Qed.

Lemma failed_load_is_repeated_witness :
  ∃ e s1 s2,
    Ingestion.load_documents (sample_disk [dpa_file; broken_file]) Ingestion.initial = (Raise e, s1)
    ∧ Ingestion._is_loaded s1 = false
    ∧ Ingestion.load_documents (sample_disk [dpa_file; notes_file]) s1 = (Ok (), s2)
    ∧ Ingestion._document_chunks s2
      = [] ++ concat (file_chunks <$> [dpa_file])
        ++ concat (file_chunks <$> [dpa_file; notes_file])
    ∧ length (Ingestion._document_metadata s2) = 0 + 1 + 2.
Proof.
  apply (failed_load_is_repeated
           (sample_disk [dpa_file; broken_file])
           (sample_disk [dpa_file; notes_file])
           Ingestion.initial [dpa_file] [] broken_file).
  - reflexivity.
  - reflexivity.
  - reflexivity.
  - repeat constructor.
  - reflexivity.
  - split; [reflexivity|]. split; [discriminate|]. repeat constructor.
Defined.

Lemma foldl_union_last (sid : string) (cit : Citation) after :
  Forall (λ md_file, file_citations md_file !! sid = None) after →
  ∀ index, index !! sid = Some cit →
    foldl (λ index md_file, file_citations md_file ∪ index) index after !! sid
    = Some cit.
Proof.
  induction after as [|md_file after IH]; intros Hnone index Hindex; simpl;
    [done|].
  apply Forall_cons in Hnone as [Hnone Hafter].
  apply IH; [done|]. by rewrite lookup_union_r.
Qed.

(** X22: a source id that several files define resolves to the citation
    of the last of them, in the order the files are loaded: a lookup in a
    store that is not loaded yet loads the files and returns, for an id
    that a file defines and no later file does, the citation of that
    file. *)
Theorem duplicate_source_id_resolves_to_last_file
    (disk : Ingestion.Disk) (s : Ingestion.Store) (before after : list Ingestion.MdFile) (md_file : Ingestion.MdFile)
    (sid : string) (cit : Citation) :
  Ingestion._is_loaded s = false →
  disk_readable disk →
  Ingestion.md_files disk = before ++ md_file :: after →
  file_citations md_file !! sid = Some cit →
  Forall (λ later, file_citations later !! sid = None) after →
  ∃ s', Ingestion.get_citation disk sid s = (Ok (Some cit), s') ∧ Ingestion._is_loaded s' = true.
Proof.
  intros Hloaded Hdisk Hfiles Hcit Hafter.
  destruct (load_documents_ok disk s Hloaded Hdisk)
    as (s' & Hload & Hloaded' & Hindex & _).
  exists s'. unfold Ingestion.get_citation, Ingestion._ensure_loaded.
  rewrite Hloaded, Hload. cbn [negb]. split; [|done]. do 2 f_equal.
  rewrite Hindex, Hfiles, foldl_app. cbn [foldl].
  apply foldl_union_last; [done|]. by apply lookup_union_Some_l.
Qed.

Lemma duplicate_source_id_resolves_to_last_file_witness :
  ∃ s',
    Ingestion.get_citation
      (sample_disk [dpa_file; amendment_file; notes_file]) "DPA-2.1"
      Ingestion.initial
    = (Ok (Some {| cit_source_id := "DPA-2.1";
                   cit_text := "Terms have the meaning given in the amended annex.";
                   cit_document_name := "legora_dpa_amendment";
                   section_heading := "Amendment" |}), s')
    ∧ Ingestion._is_loaded s' = true.
Proof.
  apply (duplicate_source_id_resolves_to_last_file
           (sample_disk [dpa_file; amendment_file; notes_file])
           Ingestion.initial [dpa_file] [notes_file] amendment_file).
  - reflexivity.
  - split; [reflexivity|]. split; [discriminate|]. repeat constructor.
  - reflexivity.
  - vm_compute. reflexivity.
  - repeat constructor.
Defined.

(* ===================================================================== *)
(** * The endpoint [generate] and the profile of a request                *)
(* ===================================================================== *)

Lemma truthy_of_lower name :
  Py.lower name ≠ EmptyString → Py.truthy name = true.
Proof. by destruct name. Qed.

Lemma PRESET_MAP_returns name profile :
  PRESET_MAP !! name = Some profile → ∃ constraints, profile = Ok constraints.
Proof.
  unfold PRESET_MAP. intros Hname.
  apply lookup_insert_Some in Hname as [[_ <-]|[_ Hname]]; [by eexists|].
  apply lookup_insert_Some in Hname as [[_ <-]|[_ Hname]]; [by eexists|].
  apply lookup_singleton_Some in Hname as [_ <-]. by eexists.
Qed.

Lemma _resolve_constraints_returns request :
  ∃ constraints, _resolve_constraints request = Ok constraints.
Proof.
  unfold _resolve_constraints.
  destruct (preset request) as [name|]; [|by eexists].
  destruct (Py.truthy name); [|by eexists].
  destruct (PRESET_MAP !! Py.lower name) as [profile|] eqn:Hname;
    [|by eexists].
  by apply PRESET_MAP_returns in Hname.
Qed.


(** X23: a preset decides the profile alone.  Two requests that name the
    same preset, in whatever letter case, are given the same profile,
    whatever contract type and jurisdiction each of them asks for. *)
Theorem preset_decides_the_profile (request request' : GenerateRequest) :
  same_known_preset request request' →
  ∃ profile,
    _resolve_constraints request = Ok profile
    ∧ _resolve_constraints request' = Ok profile.
Proof.
  intros (name & name' & Hpreset & Hpreset' & Hsame & Hknown).
  destruct (_resolve_constraints_returns request) as [profile Hprofile].
  exists profile. split; [done|]. rewrite <- Hprofile.
  unfold _resolve_constraints. rewrite Hpreset, Hpreset', <- Hsame.
  assert (Hname : Py.lower name ≠ EmptyString).
  { intros Hempty. rewrite Hempty in Hknown.
    repeat (apply elem_of_cons in Hknown as [Hknown|Hknown]; [discriminate|]).
    by apply elem_of_nil in Hknown. }
  rewrite (truthy_of_lower name Hname).
  rewrite Hsame in Hname. rewrite (truthy_of_lower name' Hname).
  repeat (apply elem_of_cons in Hknown as [Hknown|Hknown];
          [by rewrite Hknown|]).
  by apply elem_of_nil in Hknown.
Qed.

Lemma preset_decides_the_profile_witness :
  ∃ profile,
    _resolve_constraints (msa_request "MSA" DPA UK) = Ok profile
    ∧ _resolve_constraints (msa_request "msa" MSA SWEDEN) = Ok profile.
Proof.
  apply (preset_decides_the_profile
           (msa_request "MSA" DPA UK) (msa_request "msa" MSA SWEDEN)).
  exists "MSA", "msa". split; [reflexivity|]. split; [reflexivity|].
  split; [reflexivity|]. vm_compute. repeat constructor.
Defined.




(** X25: when the document store fails, the endpoint answers with a
    response, not with an HTTP error, and the response carries the text of
    the exception of the store in its [error] field, beside
    [success = false] and zero attempts. *)
Theorem generate_reports_retrieval_failure (E : Env)
    (body : GenerateRequest) (s : Sys E) (e : Exn) (w' : World E) :
  get_all_chunks E (world (tick E (tick E s))) = (Raise e, w') →
  ∃ response s',
    generate E body s = (Response response, s')
    ∧ resp_success response = false
    ∧ resp_total_attempts response = 0%Z
    ∧ resp_output response = None
    ∧ error response = Some (str_exn e).
Proof.
  intros Hstore. unfold generate.
  destruct (_resolve_constraints_returns body) as [constraints ->].
  unfold run_agent_sync.
  rewrite bind_run, emit_run, bind_run, emit_run, bind_run. unfold catch at 1.
  unfold _get_relevant_context at 1. rewrite bind_run.
  unfold call_get_all_chunks at 1. rewrite Hstore.
  rewrite bind_run, emit_run. by eexists _, _.
Qed.

Lemma generate_reports_retrieval_failure_witness :
  ∃ response s',
    generate env_no_documents plain_request
      (start_of env_no_documents (0, 0%float)) = (Response response, s')
    ∧ resp_success response = false
    ∧ resp_total_attempts response = 0%Z
    ∧ resp_output response = None
    ∧ error response
      = Some "Source documents directory not found: data/source_documents".
Proof.
  apply (generate_reports_retrieval_failure env_no_documents plain_request
           (start_of env_no_documents (0, 0%float))
           (OtherError "Source documents directory not found: data/source_documents")
           (0, 2%float)).
  vm_compute. reflexivity.
Defined.

(* ===================================================================== *)
(** * File names and storage paths                                        *)
(* ===================================================================== *)

Lemma all_chars_impl (p q : ascii → bool) s :
  (∀ a, p a = true → q a = true) →
  all_chars p s = true → all_chars q s = true.
Proof.
  intros Hpq. induction s as [|a s IH]; simpl; [done|].
  intros [Ha Hs]%andb_prop. by rewrite (Hpq a Ha), IH.
Qed.

Lemma filter_chars_all p s : all_chars p (filter_chars p s) = true.
Proof.
  induction s as [|a s IH]; simpl; [done|].
  destruct (p a) eqn:Ha; simpl; [by rewrite Ha|done].
Qed.

Lemma filter_chars_fixed p s : all_chars p s = true → filter_chars p s = s.
Proof.
  induction s as [|a s IH]; simpl; [done|].
  intros [-> Hs]%andb_prop. by rewrite IH.
Qed.

Lemma map_chars_app f s1 s2 :
  Py.map_chars f (s1 +:+ s2) = Py.map_chars f s1 +:+ Py.map_chars f s2.
Proof. induction s1 as [|a s1 IH]; simpl; [done|]. by rewrite IH. Qed.

Lemma map_chars_fixed f p s :
  (∀ a, p a = true → f a = a) →
  all_chars p s = true → Py.map_chars f s = s.
Proof.
  intros Hf. induction s as [|a s IH]; simpl; [done|].
  intros [Ha Hs]%andb_prop. by rewrite (Hf a Ha), IH.
Qed.

Lemma safe_name_char_no_slash a :
  safe_name_char a = true → is_slash a = false.
Proof. by destruct a as [[] [] [] [] [] [] [] []]. Qed.

Lemma safe_id_char_safe_name a :
  safe_id_char a = true → safe_name_char a = true.
Proof. unfold safe_name_char. by intros ->. Qed.

Lemma safe_name_tail_no_slash s :
  safe_name_tail s = true → all_chars (λ a, negb (is_slash a)) s = true.
Proof.
  induction s as [|a s IH]; simpl; [done|].
  destruct (safe_name_char a) eqn:Ha.
  - intros Hs. by rewrite (safe_name_char_no_slash a Ha), IH.
  - intros [Hnl Hs]%andb_prop. apply Ascii.eqb_eq in Hnl as ->.
    by destruct s.
Qed.

(** A text without slash and backslash holds no path traversal. *)
Lemma no_slash_no_traversal s : ∀ i before,
  all_chars (λ a, negb (is_slash a)) s = true →
  Re.search_from _PATH_TRAVERSAL_PATTERN i before s = None.
Proof.
  induction s as [|a s IH]; intros i before Hs; [done|].
  simpl in Hs. apply andb_prop in Hs as [Ha Hs].
  cbn [Re.search_from]. rewrite (IH _ _ Hs).
  assert (Hhere : Re.run _PATH_TRAVERSAL_PATTERN
                    (Re.Cursor i before (String a s) []) Some = None);
    [|by rewrite Hhere].
  unfold _PATH_TRAVERSAL_PATTERN.
  cbn [Re.run Re.Lit Re.rest Re.pos Re.caps Re.prev].
  destruct (Ascii.eqb _ a); [|done].
  destruct s as [|b s]; [done|]. destruct (Ascii.eqb _ b); [|done].
  destruct s as [|c s]; [done|]. simpl in Hs.
  apply andb_prop in Hs as [_ [Hc _]%andb_prop].
  apply negb_true_iff in Hc. by rewrite Hc.
Qed.

(** X26: a file name that [sanitize_filename] returns holds neither slash
    nor backslash, is not empty, and is a fixed point: sanitized again,
    under the same allowed extensions, it is returned as it is. *)
Theorem sanitized_filename_is_stable
    (ALLOWED_FILE_EXTENSIONS : list string) (filename clean : string) :
  sanitize_filename ALLOWED_FILE_EXTENSIONS filename = Ok clean →
  clean ≠ EmptyString
  ∧ all_chars (λ a, negb (is_slash a)) clean = true
  ∧ sanitize_filename ALLOWED_FILE_EXTENSIONS clean = Ok clean.
Proof.
  unfold sanitize_filename at 1.
  destruct (_ || _); [done|].
  set (c := Py.strip _).
  destruct (found _); [done|].
  destruct (_SAFE_FILENAME_PATTERN_match c) eqn:Hsafe; [|done]. cbn [negb].
  destruct (_ && _) eqn:Hext; [done|]. intros [= <-].
  assert (Hnonempty : c ≠ EmptyString) by (by destruct c).
  assert (Hslash : all_chars (λ a, negb (is_slash a)) c = true).
  { destruct c as [|a c']; [done|]. simpl in Hsafe.
    apply andb_prop in Hsafe as [Ha Htail]. simpl.
    rewrite (safe_name_char_no_slash a (safe_id_char_safe_name a Ha)).
    by apply safe_name_tail_no_slash. }
  assert (Hstrip : Py.strip c = c) by apply strip_idem.
  split; [done|]. split; [done|].
  unfold sanitize_filename.
  rewrite (filter_chars_fixed (λ a, negb (Ascii.eqb a "/")) c).
  2: { eapply all_chars_impl; [|exact Hslash].
       intros a. by destruct a as [[] [] [] [] [] [] [] []]. }
  rewrite (filter_chars_fixed (λ a, negb (Ascii.eqb a backslash)) c).
  2: { eapply all_chars_impl; [|exact Hslash].
       intros a. by destruct a as [[] [] [] [] [] [] [] []]. }
  rewrite Hstrip.
  assert (Htruthy : Py.truthy c = true) by (by destruct c).
  rewrite Htruthy. cbn [negb orb].
  unfold Re.search. rewrite (no_slash_no_traversal c 0 None Hslash).
  cbn [found]. rewrite Hsafe. cbn [negb]. by rewrite Hext.
Qed.

Lemma sanitized_filename_is_stable_witness :
  sanitize_filename [".pdf"; ".md"; ".txt"; ".docx"] "  /annex/v2.final.MD "
    = Ok "annexv2.final.MD"
  ∧ sanitize_filename [".pdf"; ".md"; ".txt"; ".docx"] "annexv2.final.MD"
    = Ok "annexv2.final.MD".
Proof.
  split; [vm_compute; reflexivity|].
  apply (sanitized_filename_is_stable [".pdf"; ".md"; ".txt"; ".docx"]
           "  /annex/v2.final.MD " "annexv2.final.MD").
  vm_compute. reflexivity.
Defined.

Lemma safe_id_char_no_backslash a :
  safe_id_char a = true → Ascii.eqb a backslash = false.
Proof. by destruct a as [[] [] [] [] [] [] [] []]. Qed.

Lemma get_user_storage_path_shape user_id d :
  get_user_storage_path user_id = Ok d →
  d = "uploads/" +:+ filter_chars safe_id_char user_id
  ∧ filter_chars safe_id_char user_id ≠ EmptyString.
Proof.
  unfold get_user_storage_path.
  destruct (filter_chars safe_id_char user_id) as [|a safe_id]; [done|].
  by intros [= <-].
Qed.



(** X28: the access check is a test of a prefix of the path: a user is
    granted every path without traversal in the storage directory of any
    user whose storage path continues their own. *)
Theorem file_access_reaches_longer_user_ids
    (user_id other_id path d d' : string) :
  get_user_storage_path user_id = Ok d →
  get_user_storage_path other_id = Ok d' →
  String.prefix d d' = true →
  found (Re.search _PATH_TRAVERSAL_PATTERN (normalized (d' +:+ "/" +:+ path)))
    = false →
  validate_file_access user_id (d' +:+ "/" +:+ path) = Ok true.
Proof.
  intros Hd Hd' Hprefix Htraversal.
  assert (Hfixed : normalized d' = d').
  { apply get_user_storage_path_shape in Hd' as [-> _].
    unfold normalized. rewrite map_chars_app. f_equal.
    apply (map_chars_fixed _ (λ a, negb (Ascii.eqb a backslash))).
    - intros a Ha. apply negb_true_iff in Ha. by rewrite Ha.
    - eapply all_chars_impl; [|apply filter_chars_all].
      intros a Ha. by rewrite (safe_id_char_no_backslash a Ha). }
  unfold validate_file_access. rewrite Hd. cbn [mbind Res_bind].
  rewrite Htraversal.
  unfold normalized in *. rewrite map_chars_app, Hfixed.
  unfold Py.startswith. by rewrite (prefix_app_l _ _ _ Hprefix).
Qed.

Lemma file_access_reaches_longer_user_ids_witness :
  validate_file_access "al" "uploads/alice/contract.md" = Ok true.
Proof.
  apply (file_access_reaches_longer_user_ids "al" "alice" "contract.md"
           "uploads/al" "uploads/alice"); vm_compute; reflexivity.
Defined.

(* ===================================================================== *)
(** * The identifiers of the chunks of the store                          *)
(* ===================================================================== *)

Lemma all_chars_app p s1 s2 :
  all_chars p (s1 +:+ s2) = all_chars p s1 && all_chars p s2.
Proof.
  induction s1 as [|a s1 IH]; simpl; [done|]. by rewrite IH, andb_assoc.
Qed.

(** A text is cut in one way only at a double colon that no colon
    follows. *)
Lemma double_colon_unique (s1 s2 x y : string) :
  all_chars not_colon x = true → all_chars not_colon y = true →
  s1 +:+ String ":" (String ":" x) = s2 +:+ String ":" (String ":" y) →
  s1 = s2.
Proof.
  intros Hx Hy. revert s2.
  induction s1 as [|a s1 IH]; intros [|b s2] Heq; simpl in Heq; [done| | |].
  - destruct s2 as [|c s2]; simplify_eq/=.
    rewrite all_chars_app in Hx. apply andb_prop in Hx as [_ Hx]. done.
  - destruct s1 as [|c s1]; simplify_eq/=.
    rewrite all_chars_app in Hy. apply andb_prop in Hy as [_ Hy]. done.
  - simplify_eq/=. f_equal. by apply IH.
Qed.

Lemma isdigit_not_colon a : isdigit a = true → not_colon a = true.
Proof. by destruct a as [[] [] [] [] [] [] [] []]. Qed.

Lemma str_nat_no_colon n : all_chars not_colon (Py.str_nat n) = true.
Proof.
  eapply all_chars_impl; [apply isdigit_not_colon|apply str_nat_digits].
Qed.

(** The identifier of a chunk tells the name of its document. *)
Lemma chunk_id_names_document doc_name doc_name' i j id :
  id_of_earlier_section doc_name i id →
  id_of_earlier_section doc_name' j id →
  doc_name = doc_name'.
Proof.
  assert (Hform : ∀ name n, id_of_earlier_section name n id →
            ∃ x, all_chars not_colon x = true
                 ∧ id = name +:+ String ":" (String ":" x)).
  { intros name n (k & _ & [->|[l ->]]).
    - exists ("chunk_" +:+ Py.str_nat k). split; [|done].
      rewrite all_chars_app, str_nat_no_colon. done.
    - exists ("chunk_" +:+ Py.str_nat k +:+ "_" +:+ Py.str_nat l).
      split; [|done].
      rewrite !all_chars_app, !str_nat_no_colon. done. }
  intros (x & Hx & Hid)%Hform (y & Hy & Hid')%Hform.
  rewrite Hid in Hid'. exact (double_colon_unique _ _ x y Hx Hy Hid').
Qed.

Lemma section_loop_ids_inv doc_name chunk_size sections :
  ∀ section_idx chunks,
    section_ids_inv doc_name section_idx chunks →
    ∃ n, section_ids_inv doc_name n
           (section_loop doc_name chunk_size section_idx sections chunks).
Proof.
  induction sections as [|section sections IH]; intros section_idx chunks Hinv;
    simpl; [by exists section_idx|].
  by apply IH, chunk_section_ids.
Qed.

Lemma file_chunks_ids md_file :
  NoDup (chunk_id <$> file_chunks md_file)
  ∧ Forall (λ c, ∃ n, id_of_earlier_section (Ingestion.stem md_file) n
                        (chunk_id c))
      (file_chunks md_file).
Proof.
  unfold file_chunks.
  destruct (Ingestion.read_text md_file) as [content|e];
    [|split; [apply NoDup_nil_2|done]].
  destruct (section_loop_ids_inv (Ingestion.stem md_file) 800
              (split_sections content) 0 []) as (n & Hnodup & Hids).
  { split; [apply NoDup_nil_2|done]. }
  split; [done|]. eapply Forall_impl; [exact Hids|]. intros c Hc. by exists n.
Qed.

Lemma elem_of_concat {A} (x : A) (ls : list (list A)) :
  x ∈ concat ls → ∃ l, x ∈ l ∧ l ∈ ls.
Proof.
  induction ls as [|l ls IH]; simpl; [by intros ?%elem_of_nil|].
  intros [Hx|Hx]%elem_of_app.
  - exists l. split; [done|apply list_elem_of_here].
  - destruct (IH Hx) as (l' & Hl' & Hin). exists l'.
    split; [done|by apply list_elem_of_further].
Qed.

Lemma files_chunk_ids files :
  NoDup (Ingestion.stem <$> files) →
  NoDup (chunk_id <$> concat (file_chunks <$> files)).
Proof.
  induction files as [|md_file files IH]; simpl; [intros _; apply NoDup_nil_2|].
  intros [Hfresh Hstems]%NoDup_cons.
  destruct (file_chunks_ids md_file) as [Hnodup Hids].
  rewrite fmap_app. apply NoDup_app. split; [done|]. split; [|by apply IH].
  intros id (c & -> & Hc)%list_elem_of_fmap (c' & Hid & Hc')%list_elem_of_fmap.
  apply elem_of_concat in Hc' as (cs & Hc' & Hcs).
  apply list_elem_of_fmap in Hcs as (other & -> & Hother).
  rewrite Forall_forall in Hids. destruct (Hids c Hc) as [n Hform].
  destruct (file_chunks_ids other) as [_ Hids'].
  rewrite Forall_forall in Hids'. destruct (Hids' c' Hc') as [n' Hform'].
  rewrite <- Hid in Hform'.
  apply Hfresh, list_elem_of_fmap. exists other. split; [|done].
  by eapply chunk_id_names_document.
Qed.

(** X29: when every file of the directory can be read and no two files
    have the same stem, the chunks the store serves after its first load
    have distinct identifiers. *)
Theorem served_chunk_ids_are_distinct (disk : Ingestion.Disk) :
  disk_readable disk →
  NoDup (Ingestion.stem <$> Ingestion.md_files disk) →
  ∃ chunks s',
    Ingestion.get_all_chunks disk Ingestion.initial = (Ok chunks, s')
    ∧ chunks = concat (file_chunks <$> Ingestion.md_files disk)
    ∧ NoDup (chunk_id <$> chunks).
Proof.
  intros Hdisk Hstems.
  destruct (load_documents_ok disk Ingestion.initial eq_refl Hdisk)
    as (s' & Hload & _ & _ & Hchunks & _).
  exists (Ingestion._document_chunks s'), s'.
  unfold Ingestion.get_all_chunks, Ingestion._ensure_loaded.
  cbn [Ingestion._is_loaded Ingestion.initial negb]. rewrite Hload.
  split; [done|]. rewrite Hchunks. split; [done|]. by apply files_chunk_ids.
Qed.

Lemma served_chunk_ids_are_distinct_witness :
  ∃ chunks s',
    Ingestion.get_all_chunks (sample_disk [dpa_file; notes_file])
      Ingestion.initial = (Ok chunks, s')
    ∧ chunks = concat (file_chunks <$> [dpa_file; notes_file])
    ∧ NoDup (chunk_id <$> chunks).
Proof.
  apply (served_chunk_ids_are_distinct (sample_disk [dpa_file; notes_file])).
  - split; [reflexivity|]. split; [discriminate|]. repeat constructor.
  - apply (bool_decide_unpack _). vm_compute. reflexivity.
Defined.

(* ===================================================================== *)
(** * Answers that [json.loads] does not decode                           *)
(* ===================================================================== *)

(** X30: the gateway catches around [json.loads] the
    [json.JSONDecodeError] alone.  An answer of the provider on which
    [json.loads] raises another exception that is not a [ValueError] (a
    [RecursionError] on deeply nested text, say) is not retried and is not
    turned into a failed result: the exception leaves the run after the
    [DRAFTING] event of the attempt and its one gateway call. *)
Theorem decoding_failure_escapes_the_run (E : Env) (user_prompt : string)
    (constraints : ContractConstraints) (system_prompt : string)
    (max_retries attempt : Z) (vars : LoopVars) (s : Sys E)
    (raw msg : string) (w' : World E) :
  (attempt ≤ max_retries)%Z →
  generate_completion E system_prompt (current_prompt vars) (world (tick E s))
    = (Ok raw, w') →
  json_loads E raw = Failed (OtherError msg) →
  run_from E user_prompt constraints system_prompt max_retries attempt vars s
    = (Raise (OtherError msg),
       {| world := w';
          calls := calls s ++ [CallGenerate system_prompt (current_prompt vars)] |}).
Proof.
  intros Hle Hprovider Hloads. apply run_from_raise; [done|].
  unfold attempt_body. rewrite bind_run, emit_run, bind_run. unfold catch at 1.
  unfold generate_structured_output. rewrite bind_run.
  unfold call_generate_completion. by rewrite Hprovider, Hloads.
Qed.

Lemma decoding_failure_escapes_the_run_witness :
  run_from env_deep_json "Draft a breach notification clause."
    sample_profile "system prompt" 3 1 first_pass_vars
    (start_of env_deep_json (0, 0%float))
  = (Raise (OtherError "maximum recursion depth exceeded"),
     Build_Sys env_deep_json (1, 1%float)
       [CallGenerate "system prompt" "Draft a breach notification clause."])
  ∧ (run_agent_sync env_deep_json "Draft a breach notification clause."
       sample_profile (start_of env_deep_json (0, 0%float))).1
    = Raise (OtherError "maximum recursion depth exceeded").
Proof.
  split; [|vm_compute; reflexivity].
  apply (decoding_failure_escapes_the_run env_deep_json
           "Draft a breach notification clause." sample_profile
           "system prompt" 3 1 first_pass_vars
           (start_of env_deep_json (0, 0%float))
           "{wrong}" "maximum recursion depth exceeded" (1, 1%float)).
  - lia.
  - reflexivity.
  - reflexivity.
Defined.
